(** * go-swagger: schema synthesis, parameter validation and document assembly

    A shallow embedding of [pkg/api] (types, [Parameter.Validate],
    [SchemaFromStruct], [SafeSchemaFromStruct], [createSchemaFromGoType]) and
    of [pkg/gin/gin.go] ([APIRouter.Register] with the handler it installs,
    [RegisterGroup], the settings of the router, [BuildOpenAPI],
    [GenerateSwagger], [generateOperationID], [SwaggerHandler]).

    Go maps are [gmap]s, slices are lists, [error] values are a small
    inductive type, and the pieces of the Go standard library the code calls
    are either written out ([strconv.ParseFloat], [strings.Split], the
    [encoding/json] printer) or taken as [Section] variables ([regexp],
    [net/url], Unicode case mapping, the wall clock).

    Schema synthesis is given twice. Over [GoType], the types that are
    finite trees, it is a structural recursion in which every call returns;
    the router and the document are built on it. Over [RType], every type,
    a call may overflow the stack or panic, and [SafeSchemaFromStruct]
    recovers from the panic. The two agree on the finite trees
    ([full_agreement]). *)

From Stdlib Require Import ZArith Ascii String List Bool Lia.
From stdpp Require Import base option list gmap strings fin_maps pretty sorting.

Set Warnings "-register-all".
Set Default Proof Using "Type".

Local Open Scope string_scope.
Local Open Scope Z_scope.

(** ** Bytes and strings

    A Go [string] is a sequence of bytes; [len] is [String.length]. *)

Definition byte_in (lo hi c : ascii) : bool :=
  (N_of_ascii lo <=? N_of_ascii c)%N && (N_of_ascii c <=? N_of_ascii hi)%N.

Definition is_digit (c : ascii) : bool := byte_in "0" "9" c.
Definition is_upper (c : ascii) : bool := byte_in "A" "Z" c.
Definition is_lower (c : ascii) : bool := byte_in "a" "z" c.
Definition is_alnum (c : ascii) : bool := is_lower c || is_upper c || is_digit c.

Definition digit_val (c : ascii) : Z := Z.of_N (N_of_ascii c) - 48.

(** [lower] of strconv: [c | ('x' - 'X')], used to compare a byte with a
    lower-case letter. *)
Definition lower (c : ascii) : ascii :=
  ascii_of_N (N.lor (N_of_ascii c) 32).

(** ASCII case mapping of one byte and of a string: what [strings.ToUpper]
    and [strings.ToLower] do on ASCII text. *)
Definition ascii_upper (c : ascii) : ascii :=
  if is_lower c then ascii_of_N (N_of_ascii c - 32) else c.
Definition ascii_lower (c : ascii) : ascii :=
  if is_upper c then ascii_of_N (N_of_ascii c + 32) else c.

Fixpoint map_string (f : ascii -> ascii) (s : string) : string :=
  match s with
  | EmptyString => EmptyString
  | String c rest => String (f c) (map_string f rest)
  end.

Definition asciiToUpper : string -> string := map_string ascii_upper.
Definition asciiToLower : string -> string := map_string ascii_lower.

(** [strings.Contains(s, sub)]. *)
Fixpoint strings_Contains (s sub : string) : bool :=
  String.prefix sub s ||
  match s with
  | EmptyString => false
  | String _ rest => strings_Contains rest sub
  end.

(** [strings.Split(s, sep)] for a one-byte separator: the pieces between the
    separators, always at least one piece. *)
Fixpoint split_on (sep : ascii) (s : string) : string * list string :=
  match s with
  | EmptyString => (EmptyString, [])
  | String c rest =>
      let '(first, others) := split_on sep rest in
      if Ascii.eqb c sep then (EmptyString, first :: others)
      else (String c first, others)
  end.

Definition strings_Split (s : string) (sep : ascii) : list string :=
  let '(first, others) := split_on sep s in first :: others.

(** [strings.Trim(s, cutset)] for a one-byte cutset. *)
Fixpoint trim_left (c : ascii) (s : string) : string :=
  match s with
  | String d rest => if Ascii.eqb d c then trim_left c rest else s
  | EmptyString => EmptyString
  end.

Fixpoint trim_right (c : ascii) (s : string) : string :=
  match s with
  | EmptyString => EmptyString
  | String d rest =>
      match trim_right c rest with
      | EmptyString => if Ascii.eqb d c then EmptyString else String d EmptyString
      | rest' => String d rest'
      end
  end.

Definition strings_Trim (s : string) (c : ascii) : string :=
  trim_right c (trim_left c s).

(** ** float64 and strconv.ParseFloat

    A float64 is NaN, an infinity, or the dyadic number [m * 2^e]; the two
    zeros are not told apart, which no comparison does either. *)

Inductive float64 : Type :=
  | NaN
  | Inf (neg : bool)
  | Fin (m e : Z).

Definition float64_of_Z (z : Z) : float64 := Fin z 0.

(** [x < y] on float64: false as soon as one side is NaN. *)
Definition f64_lt (x y : float64) : bool :=
  match x, y with
  | NaN, _ | _, NaN => false
  | Inf nx, Inf ny => nx && negb ny
  | Inf nx, Fin _ _ => nx
  | Fin _ _, Inf ny => negb ny
  | Fin m1 e1, Fin m2 e2 =>
      let e := Z.min e1 e2 in
      m1 * 2 ^ (e1 - e) <? m2 * 2 ^ (e2 - e)
  end.

Definition f64_gt (x y : float64) : bool := f64_lt y x.

Definition f64_neg (x : float64) : float64 :=
  match x with
  | NaN => NaN
  | Inf n => Inf (negb n)
  | Fin m e => Fin (- m) e
  end.

(** The binary64 number nearest to [num / den] (ties to even), for
    [0 <= num] and [0 < den]; [None] when the rounded value does not fit
    (at or above [2^1024]), which [ParseFloat] reports as a range error. *)
Definition round_binary64 (num den : Z) : option float64 :=
  if num =? 0 then Some (Fin 0 0) else
  let ex0 := Z.log2 num - Z.log2 den in
  let ex := if den * 2 ^ (Z.max 0 ex0) <=? num * 2 ^ (Z.max 0 (- ex0))
            then ex0 else ex0 - 1 in
  let q := Z.max (ex - 52) (-1074) in
  let a := num * 2 ^ (Z.max 0 (- q)) in
  let b := den * 2 ^ (Z.max 0 q) in
  let m := a / b in
  let r := a mod b in
  let m' := if 2 * r <? b then m
            else if b <? 2 * r then m + 1
            else if Z.even m then m else m + 1 in
  if (0 <=? q) && (2 ^ 1024 <=? m' * 2 ^ q) then None
  else Some (Fin m' q).


(** [strconv.special]: the signed words inf and infinity and the word nan,
    in any letter case, with the number of bytes they take. *)
Fixpoint commonPrefixLenIgnoreCase (s prefix : list ascii) : nat :=
  match s, prefix with
  | c :: s', p :: prefix' =>
      if Ascii.eqb (ascii_lower c) p then S (commonPrefixLenIgnoreCase s' prefix')
      else O
  | _, _ => O
  end.

Definition special_inf (neg : bool) (nsign : nat) (s : list ascii)
  : option (float64 * nat) :=
  let n := commonPrefixLenIgnoreCase s (list_ascii_of_string "infinity") in
  let n := if (3 <? n)%nat && (n <? 8)%nat then 3%nat else n in
  if (n =? 3)%nat || (n =? 8)%nat then Some (Inf neg, (nsign + n)%nat) else None.

Definition special (s : list ascii) : option (float64 * nat) :=
  match s with
  | [] => None
  | c :: rest =>
      if Ascii.eqb c "+" then special_inf false 1 rest
      else if Ascii.eqb c "-" then special_inf true 1 rest
      else if Ascii.eqb c "i" || Ascii.eqb c "I" then special_inf false 0 s
      else if Ascii.eqb c "n" || Ascii.eqb c "N" then
        if (commonPrefixLenIgnoreCase s (list_ascii_of_string "nan") =? 3)%nat
        then Some (NaN, 3%nat) else None
      else None
  end.

(** [strconv.underscoreOK]: underscores only between digits, or between a
    base prefix and a digit. [saw] is the last byte class seen. *)
Inductive Saw : Type := SawStart | SawDigit | SawUnderscore | SawOther.

Fixpoint underscore_scan (hex : bool) (saw : Saw) (s : list ascii) : bool :=
  match s with
  | [] => match saw with SawUnderscore => false | _ => true end
  | c :: rest =>
      if is_digit c || (hex && byte_in "a" "f" (lower c)) then
        underscore_scan hex SawDigit rest
      else if Ascii.eqb c "_" then
        match saw with
        | SawDigit => underscore_scan hex SawUnderscore rest
        | _ => false
        end
      else
        match saw with
        | SawUnderscore => false
        | _ => underscore_scan hex SawOther rest
        end
  end.

Definition underscoreOK (s : list ascii) : bool :=
  let s := match s with
           | c :: rest => if Ascii.eqb c "-" || Ascii.eqb c "+" then rest else s
           | [] => s
           end in
  match s with
  | z :: p :: rest =>
      if Ascii.eqb z "0" &&
         (Ascii.eqb (lower p) "b" || Ascii.eqb (lower p) "o" || Ascii.eqb (lower p) "x")
      then underscore_scan (Ascii.eqb (lower p) "x") SawDigit rest
      else underscore_scan false SawStart s
  | _ => underscore_scan false SawStart s
  end.

(** The mantissa loop of [strconv.readFloat]. The digits are kept exactly
    ([mant], with [frac] of them after the point), which is the number the
    conversion rounds; [Mantissa] is the loop state on leaving. *)
Record Mantissa : Type := mkMantissa {
  mant : Z;
  frac : Z;
  sawdot : bool;
  sawdigits : bool;
  underscores : bool;
  rest : list ascii
}.

Fixpoint read_mantissa (hex : bool) (s : list ascii)
    (mant frac : Z) (sawdot sawdigits underscores : bool) : Mantissa :=
  match s with
  | [] => mkMantissa mant frac sawdot sawdigits underscores []
  | c :: s' =>
      if Ascii.eqb c "_" then
        read_mantissa hex s' mant frac sawdot sawdigits true
      else if Ascii.eqb c "." then
        if sawdot then mkMantissa mant frac sawdot sawdigits underscores s
        else read_mantissa hex s' mant frac true sawdigits underscores
      else if is_digit c then
        read_mantissa hex s' ((if hex then 16 else 10) * mant + digit_val c)
          (if sawdot then frac + 1 else frac) sawdot true underscores
      else if hex && byte_in "a" "f" (lower c) then
        read_mantissa hex s' (16 * mant + (Z.of_N (N_of_ascii (lower c)) - 97 + 10))
          (if sawdot then frac + 1 else frac) sawdot true underscores
      else mkMantissa mant frac sawdot sawdigits underscores s
  end.

(** The exponent digits: [e] stops growing once it has reached 10000. *)
Fixpoint read_exponent (s : list ascii) (e : Z) (underscores : bool)
  : Z * bool * list ascii :=
  match s with
  | c :: s' =>
      if Ascii.eqb c "_" then read_exponent s' e true
      else if is_digit c then
        read_exponent s' (if e <? 10000 then e * 10 + digit_val c else e) underscores
      else (e, underscores, s)
  | [] => (e, underscores, [])
  end.

(** [strconv.ParseFloat(s, 64)]: [None] stands for a returned error (syntax
    or range). The whole string has to be consumed. *)
Definition ParseFloat (str : string) : option float64 :=
  let s := list_ascii_of_string str in
  match special s with
  | Some (f, n) => if (n =? length s)%nat then Some f else None
  | None =>
      match s with
      | [] => None
      | c0 :: _ =>
          let neg := Ascii.eqb c0 "-" in
          let body := if Ascii.eqb c0 "+" || Ascii.eqb c0 "-" then tl s else s in
          let hex := match body with
                     | z :: x :: _ :: _ => Ascii.eqb z "0" && Ascii.eqb (lower x) "x"
                     | _ => false
                     end in
          let digits := if hex then tl (tl body) else body in
          let m := read_mantissa hex digits 0 0 false false false in
          if negb (sawdigits m) then None else
          let expChar := if hex then "p"%char else "e"%char in
          let after : option (Z * bool * list ascii) :=
            match rest m with
            | c :: r =>
                if Ascii.eqb (lower c) expChar then
                  match r with
                  | [] => None
                  | sg :: r' =>
                      let esign := if Ascii.eqb sg "-" then -1 else 1 in
                      let r := if Ascii.eqb sg "+" || Ascii.eqb sg "-" then r' else r in
                      match r with
                      | d :: _ =>
                          if is_digit d then
                            let '(e, us, r) := read_exponent r 0 (underscores m) in
                            Some (e * esign, us, r)
                          else None
                      | [] => None
                      end
                  end
                else if hex then None
                else Some (0, underscores m, rest m)
            | [] => if hex then None else Some (0, underscores m, [])
            end in
          match after with
          | None => None
          | Some (e, us, r) =>
              if us && negb (underscoreOK (firstn (length s - length r) s)) then None
              else match r with
                   | _ :: _ => None
                   | [] =>
                       let p := if hex then e - 4 * frac m else e - frac m in
                       let b := if hex then 2 else 10 in
                       let v := if 0 <=? p then round_binary64 (mant m * b ^ p) 1
                                else round_binary64 (mant m) (b ^ (- p)) in
                       if neg then f64_neg <$> v else v
                   end
          end
      end
  end.

(** ** Errors

    A Go [error] is kept as the call that built it. *)
Inductive error : Type :=
  | Errorf (text : string)
      (** [fmt.Errorf] with a constant format and string operands: the text. *)
  | ErrorfMsg (format : string)
      (** [fmt.Errorf(format)] with a caller-supplied format and no operand;
          its text is [format] itself when that holds no [%] verb. *)
  | Wrap (text : string) (cause : error)
      (** [fmt.Errorf("text: %w", cause)]. *)
  | ErrInvalidType (ty : string)
      (** [&ErrInvalidType{Type: ty}]. *).

(** [errors.Unwrap], and "[e] wraps [target]" (the chain of [errors.Is]). *)
Definition Unwrap (e : error) : option error :=
  match e with
  | Wrap _ cause => Some cause
  | _ => None
  end.


(** ** Values of type interface{}

    [Any] covers what the code stores in [map[string]interface{}] schemas
    and what a caller may put in an example: nil, booleans, integers,
    strings, [[]string], [[]interface{}], nested maps, and [AOpaque] for a
    value [encoding/json] cannot encode (a func or a channel). *)
Inductive Any : Type :=
  | ANil
  | ABool (b : bool)
  | AInt (z : Z)
  | AString (s : string)
  | AStrings (l : list string)
  | ASlice (l : list Any)
  | AMap (m : gmap string Any)
  | AOpaque.

Abbreviation SchemaMap := (gmap string Any).

(** ** pkg/api: parameters and validation rules *)

(** The dynamic type of [ValidationRule.Value], as far as [Validate] tells
    types apart: float64, int, string, [[]interface{}] (each element as
    [fmt.Sprintf("%v", v)] prints it), anything else. *)
Inductive RuleValue : Type :=
  | RFloat64 (f : float64)
  | RInt (n : Z)
  | RString (s : string)
  | RList (printed : list string)
  | ROther.

Record ValidationRule : Type := mkRule {
  vr_Type : string;
  vr_Value : RuleValue;
  vr_Message : string
}.

Record Example : Type := mkExample {
  ex_Summary : string;
  ex_Description : string;
  ex_Value : Any;
  ex_ExternalValue : string
}.

(** [Content.Schema] is a map that may be nil ([None]). *)
Record Content : Type := mkContent {
  c_Schema : option SchemaMap
}.

(** [api.Parameter] ([Parameter] is a reserved word here). *)
Record ApiParameter : Type := mkParameter {
  p_Name : string;
  p_In : string;
  p_Description : string;
  p_Required : bool;
  p_Deprecated : bool;
  p_AllowEmptyValue : bool;
  p_Style : string;
  p_Explode : bool;
  p_Schema : SchemaMap;
  p_Example : Any;
  p_Examples : gmap string Example;
  p_Content : gmap string Content;
  p_Validations : list ValidationRule
}.

(** The [value interface{}] handed to [Validate]: nil, a string, or another
    value, given by what [fmt.Sprintf("%v", value)] prints. *)
Inductive ArgValue : Type :=
  | ArgNil
  | ArgString (s : string)
  | ArgOther (printed : string).


(** ** reflect: types, struct tags, interface values

    A [reflect.Type] is a finite tree here; a struct that contains itself
    through a pointer, a defined type that is not a struct and a [Time]
    method that panics are in [RType] below, which has every type. A struct
    carries what [t.String()] prints and, when [*T] has a method
    [Time() time.Time], the RFC3339 text of [Time().UTC()] on a zero value.
    Types other than structs print structurally. *)
Inductive BasicKind : Type :=
  | KBool | KInt | KInt8 | KInt16 | KInt32 | KInt64
  | KUint | KUint8 | KUint16 | KUint32 | KUint64 | KUintptr
  | KFloat32 | KFloat64 | KComplex64 | KComplex128
  | KString | KUnsafePointer.

(** A struct tag, as the [key:"value"] pairs it spells, in order. *)
Abbreviation StructTag := (list (string * string)).

Inductive GoType : Type :=
  | TBasic (k : BasicKind)
  | TArray (len : N) (elem : GoType)
  | TSlice (elem : GoType)
  | TPtr (elem : GoType)
  | TMap (key elem : GoType)
  | TChan (elem : GoType)
  | TFunc (signature : string)
  | TInterface
  | TStruct (name : string) (timeMethod : option string) (fields : Fields)
with Fields : Type :=
  | FNil
  | FCons (fieldName : string) (tag : StructTag) (ty : GoType) (more : Fields).

Scheme GoType_Fields_ind := Induction for GoType Sort Prop
  with Fields_GoType_ind := Induction for Fields Sort Prop.
Combined Scheme GoType_mutind from GoType_Fields_ind, Fields_GoType_ind.

(** [field.Tag.Get(key)]. *)
Fixpoint Tag_Get (tag : StructTag) (key : string) : string :=
  match tag with
  | [] => EmptyString
  | (k, v) :: tag' => if String.eqb k key then v else Tag_Get tag' key
  end.

Definition basic_String (k : BasicKind) : string :=
  match k with
  | KBool => "bool" | KInt => "int" | KInt8 => "int8" | KInt16 => "int16"
  | KInt32 => "int32" | KInt64 => "int64" | KUint => "uint" | KUint8 => "uint8"
  | KUint16 => "uint16" | KUint32 => "uint32" | KUint64 => "uint64"
  | KUintptr => "uintptr" | KFloat32 => "float32" | KFloat64 => "float64"
  | KComplex64 => "complex64" | KComplex128 => "complex128"
  | KString => "string" | KUnsafePointer => "unsafe.Pointer"
  end.

(** [t.String()]. *)
Fixpoint type_String (t : GoType) : string :=
  match t with
  | TBasic k => basic_String k
  | TArray n elem => "[" +:+ pretty n +:+ "]" +:+ type_String elem
  | TSlice elem => "[]" +:+ type_String elem
  | TPtr elem => "*" +:+ type_String elem
  | TMap key elem => "map[" +:+ type_String key +:+ "]" +:+ type_String elem
  | TChan elem => "chan " +:+ type_String elem
  | TFunc signature => signature
  | TInterface => "interface {}"
  | TStruct name _ _ => name
  end.

Definition is_struct (t : GoType) : bool :=
  match t with TStruct _ _ _ => true | _ => false end.

(** An [interface{}] argument: the nil interface, a non-nil value of a
    dynamic type, or the nil pointer of type [*elem]. *)
Inductive Iface : Type :=
  | NilInterface
  | Value (t : GoType)
  | NilPointer (elem : GoType).

(** [reflect.TypeOf(v)]; [None] is the nil [reflect.Type]. *)
Definition reflect_TypeOf (v : Iface) : option GoType :=
  match v with
  | NilInterface => None
  | Value t => Some t
  | NilPointer elem => Some (TPtr elem)
  end.

(** [if t.Kind() == reflect.Ptr { t = t.Elem() }]. *)
Definition deref_once (t : GoType) : GoType :=
  match t with TPtr elem => elem | _ => t end.

(** A Go result pair [(value, error)]. *)
Inductive result (A : Type) : Type :=
  | Ok (a : A)
  | Err (e : error).
Arguments Ok {A} a.
Arguments Err {A} e.


(** ** pkg/api: the OpenAPI document

    A field of map type is a [gmap]: a nil map reads as the empty one, and
    [omitempty] drops both. Where [encoding/json] prints a nil slice or map
    differently from an empty one (no [omitempty]), the field is an
    [option]: [None] is nil. *)

Abbreviation slice A := (option (list A)).

(** [len(s)] and the elements of a slice that may be nil. *)
Definition elems {A} (s : slice A) : list A := default [] s.

(** A security requirement, [map[string][]string]. *)
Abbreviation SecurityRequirement := (gmap string (slice string)).

Record OpenAPIInfo : Type := mkInfo {
  info_Title : string;
  info_Version : string;
  info_Description : string
}.

Record OpenAPIServer : Type := mkServer {
  srv_URL : string;
  srv_Description : string
}.

Record ExternalDocumentation : Type := mkExternalDocs {
  ed_Description : string;
  ed_URL : string
}.

Record OAuthFlow : Type := mkOAuthFlow {
  of_AuthorizationURL : string;
  of_TokenURL : string;
  of_RefreshURL : string;
  of_Scopes : option (gmap string string)
}.

Record OAuthFlows : Type := mkOAuthFlows {
  ofs_Implicit : option OAuthFlow;
  ofs_Password : option OAuthFlow;
  ofs_ClientCredentials : option OAuthFlow;
  ofs_AuthorizationCode : option OAuthFlow
}.

Record SecurityScheme : Type := mkSecurityScheme {
  ss_Type : string;
  ss_Description : string;
  ss_Name : string;
  ss_In : string;
  ss_Scheme : string;
  ss_BearerFormat : string;
  ss_Flows : option OAuthFlows;
  ss_OpenIDConnectURL : string
}.

Record Tag : Type := mkTag {
  tag_Name : string;
  tag_Description : string;
  tag_ExternalDocs : option ExternalDocumentation
}.

Record Header : Type := mkHeader {
  h_Description : string;
  h_Required : bool;
  h_Deprecated : bool;
  h_Schema : SchemaMap
}.

Record RequestBody : Type := mkRequestBody {
  rb_Content : gmap string Content
}.

Record Response : Type := mkResponse {
  resp_Description : string;
  resp_Content : gmap string Content
}.

Record Operation : Type := mkOperation {
  op_Summary : string;
  op_Description : string;
  op_OperationID : string;
  op_Tags : slice string;
  op_Parameters : list ApiParameter;
  op_RequestBody : option RequestBody;
  op_Responses : gmap string Response;
  op_Deprecated : bool;
  op_Security : list SecurityRequirement;
  op_Servers : list OpenAPIServer;
  op_ExternalDocs : option ExternalDocumentation
}.

Record PathItem : Type := mkPathItem {
  pi_Get : option Operation;
  pi_Post : option Operation;
  pi_Put : option Operation;
  pi_Delete : option Operation;
  pi_Patch : option Operation
}.

Record Components : Type := mkComponents {
  comp_Schemas : gmap string Any;
  comp_SecuritySchemes : gmap string SecurityScheme;
  comp_Parameters : gmap string ApiParameter;
  comp_RequestBodies : gmap string RequestBody;
  comp_Responses : gmap string Response;
  comp_Headers : gmap string Header;
  comp_Examples : gmap string Example
}.

Record OpenAPIDoc : Type := mkDoc {
  doc_OpenAPI : string;
  doc_Info : OpenAPIInfo;
  doc_Servers : list OpenAPIServer;
  doc_Paths : gmap string PathItem;
  doc_Components : option Components;
  doc_Security : list SecurityRequirement;
  doc_Tags : list Tag;
  doc_ExternalDocs : option ExternalDocumentation
}.

(** [APIDefinition]. Of the two handlers only whether each is nil matters;
    a handler is named by a number. *)
Record APIDefinition : Type := mkAPIDefinition {
  def_Method : string;
  def_Path : string;
  def_OperationID : string;
  def_Summary : string;
  def_Description : string;
  def_Tags : slice string;
  def_Request : Iface;
  def_Response : Iface;
  def_Params : list ApiParameter;
  def_Handler : option nat;
  def_NativeHandler : option nat;
  def_Deprecated : bool;
  def_Security : list SecurityRequirement;
  def_ExternalDocs : option ExternalDocumentation;
  def_Examples : gmap string Example;
  def_Servers : list OpenAPIServer
}.

(** ** encoding/json

    [json.MarshalIndent] with an empty prefix and a two-space indent, in two
    steps: the document becomes a
    JSON tree (struct fields in declaration order under their tag names,
    [omitempty] fields dropped when empty, map keys sorted), and the tree is
    printed with a two-space indent. A value the encoder rejects ([AOpaque])
    makes the whole call fail ([None]). Bytes above 127 are copied as they
    are (the text is taken to be valid UTF-8). *)
Inductive JSON : Type :=
  | JNull
  | JBool (b : bool)
  | JNumber (z : Z)
  | JString (s : string)
  | JArray (items : list JSON)
  | JObject (members : list (string * JSON)).

Fixpoint insert_member (kv : string * JSON) (l : list (string * JSON))
  : list (string * JSON) :=
  match l with
  | [] => [kv]
  | kv' :: l' =>
      if String.leb kv.1 kv'.1 then kv :: l else kv' :: insert_member kv l'
  end.

Definition sort_members (l : list (string * JSON)) : list (string * JSON) :=
  foldr insert_member [] l.

(** A Go map with string keys: an object with the keys in sorted order. *)
Definition json_of_map {V} (enc : V -> option JSON) (m : gmap string V)
  : option JSON :=
  (fun l => JObject (sort_members l)) <$>
  map_fold (fun k v acc =>
              match enc v, acc with
              | Some j, Some l => Some ((k, j) :: l)
              | _, _ => None
              end) (Some []) m.

Definition json_of_list {V} (enc : V -> option JSON) (l : list V) : option JSON :=
  JArray <$> mapM enc l.

Definition json_of_slice {V} (enc : V -> option JSON) (s : slice V) : option JSON :=
  match s with
  | None => Some JNull
  | Some l => json_of_list enc l
  end.

Definition json_of_ptr {V} (enc : V -> option JSON) (p : option V) : option JSON :=
  match p with
  | None => Some JNull
  | Some v => enc v
  end.

Definition json_string (s : string) : option JSON := Some (JString s).
Definition json_bool (b : bool) : option JSON := Some (JBool b).

Fixpoint json_of_any (a : Any) : option JSON :=
  match a with
  | ANil => Some JNull
  | ABool b => Some (JBool b)
  | AInt z => Some (JNumber z)
  | AString s => Some (JString s)
  | AStrings l => Some (JArray (JString <$> l))
  | ASlice l =>
      JArray <$> (fix go (l : list Any) : option (list JSON) :=
                    match l with
                    | [] => Some []
                    | a :: l' =>
                        match json_of_any a, go l' with
                        | Some j, Some js => Some (j :: js)
                        | _, _ => None
                        end
                    end) l
  | AMap m =>
      (fun l => JObject (sort_members l)) <$>
      map_fold (fun k v acc =>
                  match json_of_any v, acc with
                  | Some j, Some l => Some ((k, j) :: l)
                  | _, _ => None
                  end) (Some []) m
  | AOpaque => None
  end.

(** One struct field: [member] always printed, [omitempty] dropped when the
    value is empty. An object is the list of its printed fields. *)
Definition member (name : string) (j : option JSON) : option (list (string * JSON)) :=
  (fun v => [(name, v)]) <$> j.
Definition omitempty (name : string) (empty : bool) (j : option JSON)
  : option (list (string * JSON)) :=
  if empty then Some [] else member name j.
Definition object (fields : list (option (list (string * JSON)))) : option JSON :=
  (fun ls => JObject (concat ls)) <$> mapM id fields.

Definition str_empty (s : string) : bool := String.eqb s EmptyString.
Definition map_empty {V} (m : gmap string V) : bool := bool_decide (m = ∅).
Definition list_empty {V} (l : list V) : bool := match l with [] => true | _ => false end.
Definition any_empty (a : Any) : bool := match a with ANil => true | _ => false end.
Definition ptr_empty {V} (p : option V) : bool := match p with None => true | _ => false end.

Definition json_of_schema (m : SchemaMap) : option JSON := json_of_any (AMap m).

Definition json_of_Example (e : Example) : option JSON :=
  object [ omitempty "summary" (str_empty (ex_Summary e)) (json_string (ex_Summary e));
           omitempty "description" (str_empty (ex_Description e))
             (json_string (ex_Description e));
           omitempty "value" (any_empty (ex_Value e)) (json_of_any (ex_Value e));
           omitempty "externalValue" (str_empty (ex_ExternalValue e))
             (json_string (ex_ExternalValue e)) ].

Definition json_of_Content (c : Content) : option JSON :=
  object [ member "schema" (json_of_ptr json_of_schema (c_Schema c)) ].

Definition json_of_Parameter (p : ApiParameter) : option JSON :=
  object [ member "name" (json_string (p_Name p));
           member "in" (json_string (p_In p));
           member "description" (json_string (p_Description p));
           member "required" (json_bool (p_Required p));
           omitempty "deprecated" (negb (p_Deprecated p)) (json_bool (p_Deprecated p));
           omitempty "allowEmptyValue" (negb (p_AllowEmptyValue p))
             (json_bool (p_AllowEmptyValue p));
           omitempty "style" (str_empty (p_Style p)) (json_string (p_Style p));
           omitempty "explode" (negb (p_Explode p)) (json_bool (p_Explode p));
           omitempty "schema" (map_empty (p_Schema p)) (json_of_schema (p_Schema p));
           omitempty "example" (any_empty (p_Example p)) (json_of_any (p_Example p));
           omitempty "examples" (map_empty (p_Examples p))
             (json_of_map json_of_Example (p_Examples p));
           omitempty "content" (map_empty (p_Content p))
             (json_of_map json_of_Content (p_Content p)) ].

Definition json_of_Server (s : OpenAPIServer) : option JSON :=
  object [ member "url" (json_string (srv_URL s));
           member "description" (json_string (srv_Description s)) ].

Definition json_of_ExternalDocs (d : ExternalDocumentation) : option JSON :=
  object [ omitempty "description" (str_empty (ed_Description d))
             (json_string (ed_Description d));
           member "url" (json_string (ed_URL d)) ].

Definition json_of_OAuthFlow (f : OAuthFlow) : option JSON :=
  object [ omitempty "authorizationUrl" (str_empty (of_AuthorizationURL f))
             (json_string (of_AuthorizationURL f));
           omitempty "tokenUrl" (str_empty (of_TokenURL f)) (json_string (of_TokenURL f));
           omitempty "refreshUrl" (str_empty (of_RefreshURL f))
             (json_string (of_RefreshURL f));
           member "scopes" (json_of_ptr (json_of_map json_string) (of_Scopes f)) ].

Definition json_of_OAuthFlows (f : OAuthFlows) : option JSON :=
  object [ omitempty "implicit" (ptr_empty (ofs_Implicit f))
             (json_of_ptr json_of_OAuthFlow (ofs_Implicit f));
           omitempty "password" (ptr_empty (ofs_Password f))
             (json_of_ptr json_of_OAuthFlow (ofs_Password f));
           omitempty "clientCredentials" (ptr_empty (ofs_ClientCredentials f))
             (json_of_ptr json_of_OAuthFlow (ofs_ClientCredentials f));
           omitempty "authorizationCode" (ptr_empty (ofs_AuthorizationCode f))
             (json_of_ptr json_of_OAuthFlow (ofs_AuthorizationCode f)) ].

Definition json_of_SecurityScheme (s : SecurityScheme) : option JSON :=
  object [ member "type" (json_string (ss_Type s));
           omitempty "description" (str_empty (ss_Description s))
             (json_string (ss_Description s));
           omitempty "name" (str_empty (ss_Name s)) (json_string (ss_Name s));
           omitempty "in" (str_empty (ss_In s)) (json_string (ss_In s));
           omitempty "scheme" (str_empty (ss_Scheme s)) (json_string (ss_Scheme s));
           omitempty "bearerFormat" (str_empty (ss_BearerFormat s))
             (json_string (ss_BearerFormat s));
           omitempty "flows" (ptr_empty (ss_Flows s))
             (json_of_ptr json_of_OAuthFlows (ss_Flows s));
           omitempty "openIdConnectUrl" (str_empty (ss_OpenIDConnectURL s))
             (json_string (ss_OpenIDConnectURL s)) ].

Definition json_of_Tag (t : Tag) : option JSON :=
  object [ member "name" (json_string (tag_Name t));
           omitempty "description" (str_empty (tag_Description t))
             (json_string (tag_Description t));
           omitempty "externalDocs" (ptr_empty (tag_ExternalDocs t))
             (json_of_ptr json_of_ExternalDocs (tag_ExternalDocs t)) ].

Definition json_of_Header (h : Header) : option JSON :=
  object [ omitempty "description" (str_empty (h_Description h))
             (json_string (h_Description h));
           omitempty "required" (negb (h_Required h)) (json_bool (h_Required h));
           omitempty "deprecated" (negb (h_Deprecated h)) (json_bool (h_Deprecated h));
           omitempty "schema" (map_empty (h_Schema h)) (json_of_schema (h_Schema h)) ].

Definition json_of_RequestBody (b : RequestBody) : option JSON :=
  object [ member "content" (json_of_map json_of_Content (rb_Content b)) ].

Definition json_of_Response (r : Response) : option JSON :=
  object [ member "description" (json_string (resp_Description r));
           omitempty "content" (map_empty (resp_Content r))
             (json_of_map json_of_Content (resp_Content r)) ].

Definition json_of_Security (l : list SecurityRequirement) : option JSON :=
  json_of_list (json_of_map (json_of_slice json_string)) l.

Definition json_of_Operation (op : Operation) : option JSON :=
  object [ member "summary" (json_string (op_Summary op));
           member "description" (json_string (op_Description op));
           omitempty "operationId" (str_empty (op_OperationID op))
             (json_string (op_OperationID op));
           member "tags" (json_of_slice json_string (op_Tags op));
           omitempty "parameters" (list_empty (op_Parameters op))
             (json_of_list json_of_Parameter (op_Parameters op));
           omitempty "requestBody" (ptr_empty (op_RequestBody op))
             (json_of_ptr json_of_RequestBody (op_RequestBody op));
           member "responses" (json_of_map json_of_Response (op_Responses op));
           omitempty "deprecated" (negb (op_Deprecated op)) (json_bool (op_Deprecated op));
           omitempty "security" (list_empty (op_Security op))
             (json_of_Security (op_Security op));
           omitempty "servers" (list_empty (op_Servers op))
             (json_of_list json_of_Server (op_Servers op));
           omitempty "externalDocs" (ptr_empty (op_ExternalDocs op))
             (json_of_ptr json_of_ExternalDocs (op_ExternalDocs op)) ].

Definition json_of_PathItem (p : PathItem) : option JSON :=
  let method name op :=
    omitempty name (ptr_empty op) (json_of_ptr json_of_Operation op) in
  object [ method "get" (pi_Get p); method "post" (pi_Post p);
           method "put" (pi_Put p); method "delete" (pi_Delete p);
           method "patch" (pi_Patch p) ].

Definition json_of_Components (c : Components) : option JSON :=
  object [ omitempty "schemas" (map_empty (comp_Schemas c))
             (json_of_map json_of_any (comp_Schemas c));
           omitempty "securitySchemes" (map_empty (comp_SecuritySchemes c))
             (json_of_map json_of_SecurityScheme (comp_SecuritySchemes c));
           omitempty "parameters" (map_empty (comp_Parameters c))
             (json_of_map json_of_Parameter (comp_Parameters c));
           omitempty "requestBodies" (map_empty (comp_RequestBodies c))
             (json_of_map json_of_RequestBody (comp_RequestBodies c));
           omitempty "responses" (map_empty (comp_Responses c))
             (json_of_map json_of_Response (comp_Responses c));
           omitempty "headers" (map_empty (comp_Headers c))
             (json_of_map json_of_Header (comp_Headers c));
           omitempty "examples" (map_empty (comp_Examples c))
             (json_of_map json_of_Example (comp_Examples c)) ].

Definition json_of_Doc (d : OpenAPIDoc) : option JSON :=
  object [ member "openapi" (json_string (doc_OpenAPI d));
           member "info"
             (object [ member "title" (json_string (info_Title (doc_Info d)));
                       member "version" (json_string (info_Version (doc_Info d)));
                       member "description"
                         (json_string (info_Description (doc_Info d))) ]);
           member "servers" (json_of_list json_of_Server (doc_Servers d));
           member "paths" (json_of_map json_of_PathItem (doc_Paths d));
           omitempty "components" (ptr_empty (doc_Components d))
             (json_of_ptr json_of_Components (doc_Components d));
           omitempty "security" (list_empty (doc_Security d))
             (json_of_Security (doc_Security d));
           omitempty "tags" (list_empty (doc_Tags d))
             (json_of_list json_of_Tag (doc_Tags d));
           omitempty "externalDocs" (ptr_empty (doc_ExternalDocs d))
             (json_of_ptr json_of_ExternalDocs (doc_ExternalDocs d)) ].

(** Printing. A string is quoted with the escapes of [encoding/json]:
    the quote, the backslash, the control bytes, and [<], [>], [&]. *)
Definition dquote : ascii := ascii_of_N 34.

Definition hex_digit (n : N) : ascii :=
  if (n <? 10)%N then ascii_of_N (48 + n) else ascii_of_N (87 + n).

Definition escape_byte (c : ascii) : string :=
  let n := N_of_ascii c in
  if Ascii.eqb c dquote then String "\" (String dquote EmptyString)
  else if Ascii.eqb c "\" then "\\"
  else if (n =? 8)%N then "\b"
  else if (n =? 12)%N then "\f"
  else if (n =? 10)%N then "\n"
  else if (n =? 13)%N then "\r"
  else if (n =? 9)%N then "\t"
  else if (n <? 32)%N || Ascii.eqb c "<" || Ascii.eqb c ">" || Ascii.eqb c "&" then
    "\u00" +:+ String (hex_digit (n / 16)) (String (hex_digit (n mod 16)) EmptyString)
  else String c EmptyString.

Fixpoint escape (s : string) : string :=
  match s with
  | EmptyString => EmptyString
  | String c rest => escape_byte c +:+ escape rest
  end.

Definition quote (s : string) : string :=
  String dquote (escape s) +:+ String dquote EmptyString.

Definition newline : string := String (ascii_of_N 10) EmptyString.

Fixpoint indent (level : nat) : string :=
  match level with
  | O => EmptyString
  | S level' => "  " +:+ indent level'
  end.

Fixpoint render (level : nat) (j : JSON) : string :=
  match j with
  | JNull => "null"
  | JBool b => if b then "true" else "false"
  | JNumber z => pretty z
  | JString s => quote s
  | JArray [] => "[]"
  | JArray (first :: others) =>
      "[" +:+ newline +:+ indent (S level) +:+ render (S level) first +:+
      (fix go (l : list JSON) : string :=
         match l with
         | [] => EmptyString
         | j' :: l' =>
             "," +:+ newline +:+ indent (S level) +:+ render (S level) j' +:+ go l'
         end) others +:+
      newline +:+ indent level +:+ "]"
  | JObject [] => "{}"
  | JObject ((k, v) :: others) =>
      "{" +:+ newline +:+ indent (S level) +:+ quote k +:+ ": " +:+ render (S level) v +:+
      (fix go (l : list (string * JSON)) : string :=
         match l with
         | [] => EmptyString
         | (k', v') :: l' =>
             "," +:+ newline +:+ indent (S level) +:+ quote k' +:+ ": " +:+
             render (S level) v' +:+ go l'
         end) others +:+
      newline +:+ indent level +:+ "}"
  end.

(** [json.MarshalIndent] of the document: [None] is a returned error. *)
Definition json_MarshalIndent (d : OpenAPIDoc) : option string :=
  render 0 <$> json_of_Doc d.

(** ** reflect: types that refer to themselves, methods that panic

    [GoType] above has the types that are finite trees. [RType] has every
    type [reflect] can hand to the code: a type can be defined ([RDefined]:
    it prints its name and has the kind of its underlying type, as
    [time.Duration] does), a type can name a declared type ([RRef], which is
    how a struct contains itself through a pointer, a slice or a map), and
    the method [Time() time.Time] of a struct either returns, with the
    RFC3339 text of [Time().UTC()] on a zero value, or panics. A defined
    type of struct kind is written as a struct of its own name. As in Go,
    the underlying type of a defined type is a type literal, never a
    defined type or a name. *)
Inductive TimeMethod : Type :=
  | TimeReturns (formatted : string)
  | TimePanics (value : string).

Inductive RType : Type :=
  | RBasic (k : BasicKind)
  | RArray (len : N) (elem : RType)
  | RSlice (elem : RType)
  | RPtr (elem : RType)
  | RMap (key elem : RType)
  | RChan (elem : RType)
  | RFunc (signature : string)
  | RInterface
  | RStruct (name : string) (timeMethod : option TimeMethod) (fields : RFields)
  | RDefined (name : string) (underlying : RType)
  | RRef (name : string)
with RFields : Type :=
  | RNil
  | RCons (fieldName : string) (tag : StructTag) (ty : RType) (more : RFields).

Scheme RType_RFields_ind := Induction for RType Sort Prop
  with RFields_RType_ind := Induction for RFields Sort Prop.
Combined Scheme RType_mutind from RType_RFields_ind, RFields_RType_ind.

(** [t.String()]: a defined type, a struct and a declared type print their
    name. *)
Fixpoint RType_String (t : RType) : string :=
  match t with
  | RBasic k => basic_String k
  | RArray n elem => "[" +:+ pretty n +:+ "]" +:+ RType_String elem
  | RSlice elem => "[]" +:+ RType_String elem
  | RPtr elem => "*" +:+ RType_String elem
  | RMap key elem => "map[" +:+ RType_String key +:+ "]" +:+ RType_String elem
  | RChan elem => "chan " +:+ RType_String elem
  | RFunc signature => signature
  | RInterface => "interface {}"
  | RStruct name _ _ => name
  | RDefined name _ => name
  | RRef name => name
  end.

(** An [interface{}] argument over these types. *)
Inductive RIface : Type :=
  | RNilInterface
  | RValue (t : RType)
  | RNilPointer (elem : RType).

Definition RTypeOf (v : RIface) : option RType :=
  match v with
  | RNilInterface => None
  | RValue t => Some t
  | RNilPointer elem => Some (RPtr elem)
  end.

(** How a call ends: it returns its [(value, error)] pair, or it panics
    with a value (given by what [%v] prints of it), or the goroutine stack
    overflows, which ends the program and which no [recover] catches. *)
Inductive completion (A : Type) : Type :=
  | Returned (r : result A)
  | Panicked (value : string)
  | Overflowed.
Arguments Returned {A} r.
Arguments Panicked {A} value.
Arguments Overflowed {A}.

(** A finite tree as such a type: nothing is defined or declared, and a
    [Time] method returns. *)
Fixpoint full (t : GoType) : RType :=
  match t with
  | TBasic k => RBasic k
  | TArray n elem => RArray n (full elem)
  | TSlice elem => RSlice (full elem)
  | TPtr elem => RPtr (full elem)
  | TMap key elem => RMap (full key) (full elem)
  | TChan elem => RChan (full elem)
  | TFunc signature => RFunc signature
  | TInterface => RInterface
  | TStruct name timeMethod fields =>
      RStruct name (TimeReturns <$> timeMethod) (full_fields fields)
  end
with full_fields (fs : Fields) : RFields :=
  match fs with
  | FNil => RNil
  | FCons fieldName tag ty more => RCons fieldName tag (full ty) (full_fields more)
  end.

Definition full_value (v : Iface) : RIface :=
  match v with
  | NilInterface => RNilInterface
  | Value t => RValue (full t)
  | NilPointer elem => RNilPointer (full elem)
  end.

Section Model.

(** Standard-library functions the code calls and this development leaves
    open: [regexp.MatchString] ([None]: the pattern does not compile),
    [url.ParseRequestURI] (true: no error), [strings.ToUpper] and
    [strings.ToLower] (Unicode case mapping), and the wall clock: [clock k]
    is what the [k]-th call of [time.Now().UTC().Format(time.RFC3339)]
    returns. *)
Variable regexp_MatchString : string -> string -> option bool.
Variable url_ParseRequestURI : string -> bool.
Variable strings_ToUpper : string -> string.
Variable strings_ToLower : string -> string.
Variable clock : nat -> string.

(** One turn of the [switch rule.Type] in [Validate]: [Some e] when the rule
    returns the error [e]. A rule type without a case falls through. *)
Definition check_rule (rule : ValidationRule) (strValue : string) : option error :=
  let fail := Some (ErrorfMsg (vr_Message rule)) in
  if String.eqb (vr_Type rule) "min" then
    match vr_Value rule with
    | RFloat64 minVal =>
        match ParseFloat strValue with
        | Some numVal => if f64_lt numVal minVal then fail else None
        | None => None
        end
    | RInt minLen =>
        if Z.of_nat (String.length strValue) <? minLen then fail else None
    | _ => None
    end
  else if String.eqb (vr_Type rule) "max" then
    match vr_Value rule with
    | RFloat64 maxVal =>
        match ParseFloat strValue with
        | Some numVal => if f64_gt numVal maxVal then fail else None
        | None => None
        end
    | RInt maxLen =>
        if maxLen <? Z.of_nat (String.length strValue) then fail else None
    | _ => None
    end
  else if String.eqb (vr_Type rule) "pattern" then
    match vr_Value rule with
    | RString pattern =>
        match regexp_MatchString pattern strValue with
        | Some true => None
        | _ => fail
        end
    | _ => None
    end
  else if String.eqb (vr_Type rule) "enum" then
    match vr_Value rule with
    | RList values =>
        if existsb (fun v => String.eqb v strValue) values then None else fail
    | _ => None
    end
  else if String.eqb (vr_Type rule) "email" then
    if negb (strings_Contains strValue "@") || negb (strings_Contains strValue ".")
    then fail else None
  else if String.eqb (vr_Type rule) "url" then
    if url_ParseRequestURI strValue then None else fail
  else None.

(** The loop over [p.Validations]: the first failing rule returns. *)
Fixpoint check_rules (rules : list ValidationRule) (strValue : string) : option error :=
  match rules with
  | [] => None
  | rule :: rules' =>
      match check_rule rule strValue with
      | Some e => Some e
      | None => check_rules rules' strValue
      end
  end.

(** [Parameter.Validate]: [None] is a nil error. *)
Definition Validate (p : ApiParameter) (value : ArgValue) : option error :=
  let required := Some (Errorf ("parameter " +:+ p_Name p +:+ " is required")) in
  match value with
  | ArgNil => if p_Required p then required else None
  | ArgString strValue | ArgOther strValue =>
      if p_Required p && String.eqb strValue EmptyString then required
      else if String.eqb strValue EmptyString && negb (p_Required p) then None
      else check_rules (p_Validations p) strValue
  end.


(** [p] with its rule list replaced, as [WithParam] fills it. *)
Definition set_Validations (p : ApiParameter) (rules : list ValidationRule) : ApiParameter :=
  {| p_Name := p_Name p; p_In := p_In p; p_Description := p_Description p;
     p_Required := p_Required p; p_Deprecated := p_Deprecated p;
     p_AllowEmptyValue := p_AllowEmptyValue p; p_Style := p_Style p;
     p_Explode := p_Explode p; p_Schema := p_Schema p; p_Example := p_Example p;
     p_Examples := p_Examples p; p_Content := p_Content p;
     p_Validations := rules |}.

(** The error [Validate] returns for a missing required value. *)
Definition required_error (p : ApiParameter) : error :=
  Errorf ("parameter " +:+ p_Name p +:+ " is required").

(** ** The monad of schema synthesis

    Synthesis returns [(value, error)] and reads the clock; [M A] threads
    the number of clock readings made so far. *)
Definition M (A : Type) : Type := nat -> result A * nat.

Definition ret {A} (a : A) : M A := fun n => (Ok a, n).
Definition fail {A} (e : error) : M A := fun n => (Err e, n).
Definition bind {A B} (m : M A) (k : A -> M B) : M B :=
  fun n => match m n with
           | (Ok a, n') => k a n'
           | (Err e, n') => (Err e, n')
           end.
(** [if err != nil { return nil, fmt.Errorf("text: %w", err) }]. *)
Definition wrapErr {A} (text : string) (m : M A) : M A :=
  fun n => match m n with
           | (Err e, n') => (Err (Wrap text e), n')
           | r => r
           end.
(** [time.Now().UTC().Format(time.RFC3339)]. *)
Definition time_Now : M string := fun n => (Ok (clock n), S n).

Notation "'let*' x ':=' m 'in' k" := (bind m (fun x => k))
  (at level 10, x pattern, m at level 200, k at level 200).

(** ** pkg/api: schema synthesis *)

(** The schema literals of [createSchemaFromGoType]. *)
Definition schema1 (ty : string) : SchemaMap := {[ "type" := AString ty ]}.
Definition schema2 (ty : string) (k : string) (v : Any) : SchemaMap :=
  <[ k := v ]> (schema1 ty).
Definition schema_number (ty format : string) : SchemaMap :=
  schema2 ty "format" (AString format).
Definition schema_unsigned (format : string) : SchemaMap :=
  <[ "minimum" := AInt 0 ]> (schema_number "integer" format).
Definition schema_datetime (example : string) : SchemaMap :=
  <[ "example" := AString example ]> (schema_number "string" "date-time").

(** A map stored in an [interface{}] slot; a nil map stays a nil value. *)
Definition boxed (m : option SchemaMap) : Any :=
  match m with Some m => AMap m | None => ANil end.

(** [{"type": "object", "properties": {}}]. *)
Definition empty_object : SchemaMap :=
  <[ "properties" := AMap ∅ ]> (schema1 "object").

(** The end of [SchemaFromStruct]: the object schema, with [required] only
    when the list is not empty. *)
Definition object_schema (props : SchemaMap) (required : list string) : SchemaMap :=
  let schema := <[ "properties" := AMap props ]> (schema1 "object") in
  match required with
  | [] => schema
  | _ :: _ => <[ "required" := AStrings required ]> schema
  end.

(** The tag handling of one field in [SchemaFromStruct]'s loop. *)
Definition field_skipped (tag : StructTag) : bool :=
  let jsonTag := Tag_Get tag "json" in
  String.eqb jsonTag EmptyString || String.eqb jsonTag "-".

Definition field_jsonName (tag : StructTag) : string :=
  let jsonTag := Tag_Get tag "json" in
  if strings_Contains jsonTag "," then hd EmptyString (strings_Split jsonTag ",")
  else jsonTag.

Definition field_isRequired (tag : StructTag) : bool :=
  let jsonTag := Tag_Get tag "json" in
  let isRequired :=
    if strings_Contains jsonTag "," then
      fold_left (fun req opt => if String.eqb opt "omitempty" then false else req)
                (tl (strings_Split jsonTag ",")) true
    else true in
  let validationTag := Tag_Get tag "validate" in
  if String.eqb validationTag EmptyString then isRequired
  else if existsb (fun v => String.eqb v "required") (strings_Split validationTag ",")
       then true else isRequired.

(** The [doc], [example] and [format] tags written into the field schema. *)
Definition set_if_tagged (tag : StructTag) (tagKey schemaKey : string)
    (fieldSchema : SchemaMap) : SchemaMap :=
  let v := Tag_Get tag tagKey in
  if String.eqb v EmptyString then fieldSchema else <[ schemaKey := AString v ]> fieldSchema.

Definition decorate (tag : StructTag) (fieldSchema : SchemaMap) : SchemaMap :=
  set_if_tagged tag "format" "format"
    (set_if_tagged tag "example" "example"
       (set_if_tagged tag "doc" "description" fieldSchema)).

(** [createSchemaFromGoType], with the field loop of [SchemaFromStruct] it
    reaches through [SchemaFromStruct(reflect.New(t).Interface())]:
    [struct_fields fs props required] runs the loop over the fields [fs]
    from the accumulated [props] and [required]. [Elem()] of a slice, array,
    pointer or map type is never nil, so those tests are not written. On a
    finite tree the recursion is structural and every call returns;
    [createSchemaFromGoType_full] below is the same code on every type. *)
Fixpoint createSchemaFromGoType (t : GoType) : M (option SchemaMap) :=
  match t with
  | TBasic KString => ret (Some (schema1 "string"))
  | TBasic KInt | TBasic KInt8 | TBasic KInt16 | TBasic KInt32 =>
      ret (Some (schema_number "integer" "int32"))
  | TBasic KInt64 => ret (Some (schema_number "integer" "int64"))
  | TBasic KUint | TBasic KUint8 | TBasic KUint16 | TBasic KUint32 =>
      ret (Some (schema_unsigned "int32"))
  | TBasic KUint64 => ret (Some (schema_unsigned "int64"))
  | TBasic KFloat32 => ret (Some (schema_number "number" "float"))
  | TBasic KFloat64 => ret (Some (schema_number "number" "double"))
  | TBasic KBool => ret (Some (schema1 "boolean"))
  | TSlice (TBasic KUint8) => ret (Some (schema_number "string" "byte"))
  | TSlice elem | TArray _ elem =>
      let* elemSchema := wrapErr "failed to create schema for array element"
                           (createSchemaFromGoType elem) in
      ret (Some (schema2 "array" "items" (boxed elemSchema)))
  | TStruct name timeMethod fields =>
      if String.eqb name "time.Time" then
        let* now := time_Now in ret (Some (schema_datetime now))
      else
        match timeMethod with
        | Some example => ret (Some (schema_datetime example))
        | None =>
            wrapErr ("failed to create schema for struct " +:+ name)
              (let* (props, required) := struct_fields fields ∅ [] in
               ret (Some (object_schema props required)))
        end
  | TPtr elem => createSchemaFromGoType elem
  | TInterface =>
      ret (Some (schema2 "object" "additionalProperties" (ABool true)))
  | TMap _ valueType =>
      let* valueSchema := wrapErr "failed to create schema for map value type"
                            (createSchemaFromGoType valueType) in
      ret (Some (schema2 "object" "additionalProperties" (boxed valueSchema)))
  | _ => ret (Some (schema1 "string"))
  end
with struct_fields (fs : Fields) (props : SchemaMap) (required : list string)
    : M (SchemaMap * list string) :=
  match fs with
  | FNil => ret (props, required)
  | FCons fieldName tag ty more =>
      if field_skipped tag then struct_fields more props required
      else
        let* fieldSchema := wrapErr ("failed to create schema for field " +:+ fieldName)
                              (createSchemaFromGoType ty) in
        match fieldSchema with
        | Some fieldSchema =>
            let jsonTag := field_jsonName tag in
            struct_fields more
              (<[ jsonTag := AMap (decorate tag fieldSchema) ]> props)
              (if field_isRequired tag then required ++ [jsonTag] else required)
        | None => struct_fields more props required
        end
  end.

(** [SchemaFromStruct]. *)
Definition SchemaFromStruct (v : Iface) : M (option SchemaMap) :=
  match reflect_TypeOf v with
  | None => ret (Some empty_object)
  | Some t =>
      match deref_once t with
      | TStruct _ _ fields =>
          let* (props, required) := struct_fields fields ∅ [] in
          ret (Some (object_schema props required))
      | t' => fail (Errorf ("input must be a struct type, got " +:+ type_String t'))
      end
  end.

(** [SafeSchemaFromStruct]. The deferred [recover] turns a panic into an
    error; on a finite tree no call panics, so it is not written here:
    [SafeSchemaFromStruct_full] below has it. *)
Definition SafeSchemaFromStruct (v : Iface) : M (option SchemaMap) :=
  match reflect_TypeOf v with
  | None => ret (Some empty_object)
  | Some t =>
      let t := deref_once t in
      if negb (is_struct t) then fail (ErrInvalidType (type_String t))
      else wrapErr "failed to generate schema" (SchemaFromStruct v)
  end.

(** *** The schema of a struct, in the words of the specification

    A struct tag names the field by the text of its [json] value before the
    first comma; the texts after it are the options. A field is externally
    visible unless the [json] value is missing or is a lone dash. It is
    required unless an option says [omitempty], and also when the
    [validate] value lists [required]. *)
Fixpoint field_tags (fs : Fields) : list StructTag :=
  match fs with
  | FNil => []
  | FCons _ tag _ more => tag :: field_tags more
  end.

Definition json_name (tag : StructTag) : string :=
  (split_on "," (Tag_Get tag "json")).1.

Definition json_options (tag : StructTag) : list string :=
  (split_on "," (Tag_Get tag "json")).2.

Definition externally_visible (tag : StructTag) : bool :=
  negb (String.eqb (Tag_Get tag "json") EmptyString) &&
  negb (String.eqb (Tag_Get tag "json") "-").

Definition marked_required (tag : StructTag) : bool :=
  negb (bool_decide ("omitempty" ∈ json_options tag)) ||
  bool_decide ("required" ∈ strings_Split (Tag_Get tag "validate") ",").

Definition visible_tags (fs : Fields) : list StructTag :=
  List.filter externally_visible (field_tags fs).

Definition visible_names (fs : Fields) : list string :=
  json_name <$> visible_tags fs.

Definition required_names (fs : Fields) : list string :=
  json_name <$> List.filter marked_required (visible_tags fs).

(** The fields of the struct a sample stands for: the sample is a struct
    value, a pointer to a struct, or a nil pointer to a struct. *)
Definition struct_sample (v : Iface) : option Fields :=
  match reflect_TypeOf v with
  | Some t =>
      match deref_once t with
      | TStruct _ _ fields => Some fields
      | _ => None
      end
  | None => None
  end.

(** No struct named [time.Time] occurs in the type: the one place where
    synthesis reads the clock. *)
Fixpoint clock_free (t : GoType) : bool :=
  match t with
  | TBasic _ | TFunc _ | TInterface => true
  | TArray _ elem | TSlice elem | TPtr elem | TChan elem => clock_free elem
  | TMap key elem => clock_free key && clock_free elem
  | TStruct name _ fields =>
      negb (String.eqb name "time.Time") && clock_free_fields fields
  end
with clock_free_fields (fs : Fields) : bool :=
  match fs with
  | FNil => true
  | FCons _ _ ty more => clock_free ty && clock_free_fields more
  end.

Definition clock_free_value (v : Iface) : bool :=
  match reflect_TypeOf v with
  | None => true
  | Some t => clock_free t
  end.

(** ** pkg/api: building a definition *)

Definition NewAPIDefinition (method path summary : string) : APIDefinition :=
  {| def_Method := method; def_Path := path; def_OperationID := EmptyString;
     def_Summary := summary; def_Description := EmptyString; def_Tags := Some [];
     def_Request := NilInterface; def_Response := NilInterface; def_Params := [];
     def_Handler := None; def_NativeHandler := None; def_Deprecated := false;
     def_Security := []; def_ExternalDocs := None; def_Examples := ∅;
     def_Servers := [] |}.

Definition WithOperationID (api : APIDefinition) (operationID : string) : APIDefinition :=
  {| def_Method := def_Method api; def_Path := def_Path api;
     def_OperationID := operationID;
     def_Summary := def_Summary api; def_Description := def_Description api;
     def_Tags := def_Tags api; def_Request := def_Request api;
     def_Response := def_Response api; def_Params := def_Params api;
     def_Handler := def_Handler api; def_NativeHandler := def_NativeHandler api;
     def_Deprecated := def_Deprecated api; def_Security := def_Security api;
     def_ExternalDocs := def_ExternalDocs api; def_Examples := def_Examples api;
     def_Servers := def_Servers api |}.

Definition WithTags (api : APIDefinition) (tags : list string) : APIDefinition :=
  {| def_Method := def_Method api; def_Path := def_Path api;
     def_OperationID := def_OperationID api;
     def_Summary := def_Summary api; def_Description := def_Description api;
     def_Tags := Some tags;
     def_Request := def_Request api;
     def_Response := def_Response api; def_Params := def_Params api;
     def_Handler := def_Handler api; def_NativeHandler := def_NativeHandler api;
     def_Deprecated := def_Deprecated api; def_Security := def_Security api;
     def_ExternalDocs := def_ExternalDocs api; def_Examples := def_Examples api;
     def_Servers := def_Servers api |}.

Definition WithRequest (api : APIDefinition) (req : Iface) : APIDefinition :=
  {| def_Method := def_Method api; def_Path := def_Path api;
     def_OperationID := def_OperationID api;
     def_Summary := def_Summary api; def_Description := def_Description api;
     def_Tags := def_Tags api;
     def_Request := req;
     def_Response := def_Response api; def_Params := def_Params api;
     def_Handler := def_Handler api; def_NativeHandler := def_NativeHandler api;
     def_Deprecated := def_Deprecated api; def_Security := def_Security api;
     def_ExternalDocs := def_ExternalDocs api; def_Examples := def_Examples api;
     def_Servers := def_Servers api |}.

Definition WithResponse (api : APIDefinition) (resp : Iface) : APIDefinition :=
  {| def_Method := def_Method api; def_Path := def_Path api;
     def_OperationID := def_OperationID api;
     def_Summary := def_Summary api; def_Description := def_Description api;
     def_Tags := def_Tags api; def_Request := def_Request api;
     def_Response := resp;
     def_Params := def_Params api;
     def_Handler := def_Handler api; def_NativeHandler := def_NativeHandler api;
     def_Deprecated := def_Deprecated api; def_Security := def_Security api;
     def_ExternalDocs := def_ExternalDocs api; def_Examples := def_Examples api;
     def_Servers := def_Servers api |}.

Definition WithHandler (api : APIDefinition) (handler : option nat) : APIDefinition :=
  {| def_Method := def_Method api; def_Path := def_Path api;
     def_OperationID := def_OperationID api;
     def_Summary := def_Summary api; def_Description := def_Description api;
     def_Tags := def_Tags api; def_Request := def_Request api;
     def_Response := def_Response api; def_Params := def_Params api;
     def_Handler := handler;
     def_NativeHandler := def_NativeHandler api;
     def_Deprecated := def_Deprecated api; def_Security := def_Security api;
     def_ExternalDocs := def_ExternalDocs api; def_Examples := def_Examples api;
     def_Servers := def_Servers api |}.

Definition WithNativeHandler (api : APIDefinition) (handler : option nat) : APIDefinition :=
  {| def_Method := def_Method api; def_Path := def_Path api;
     def_OperationID := def_OperationID api;
     def_Summary := def_Summary api; def_Description := def_Description api;
     def_Tags := def_Tags api; def_Request := def_Request api;
     def_Response := def_Response api; def_Params := def_Params api;
     def_Handler := def_Handler api;
     def_NativeHandler := handler;
     def_Deprecated := def_Deprecated api; def_Security := def_Security api;
     def_ExternalDocs := def_ExternalDocs api; def_Examples := def_Examples api;
     def_Servers := def_Servers api |}.

Definition WithSecurity (api : APIDefinition) (scheme : string) (scopes : slice string)
  : APIDefinition :=
  {| def_Method := def_Method api; def_Path := def_Path api;
     def_OperationID := def_OperationID api;
     def_Summary := def_Summary api; def_Description := def_Description api;
     def_Tags := def_Tags api; def_Request := def_Request api;
     def_Response := def_Response api; def_Params := def_Params api;
     def_Handler := def_Handler api; def_NativeHandler := def_NativeHandler api;
     def_Deprecated := def_Deprecated api;
     def_Security := def_Security api ++ [ {[ scheme := scopes ]} ];
     def_ExternalDocs := def_ExternalDocs api; def_Examples := def_Examples api;
     def_Servers := def_Servers api |}.

(** ** pkg/gin: the router

    The gin engine is outside the repository: of [engine.Handle] only the
    route it is given (method, full path) is kept, and gin's own checks on a
    route are not modelled. *)
Record APIRouter : Type := mkAPIRouter {
  r_engine : list (string * string);
  r_definitions : list APIDefinition;
  r_basePath : string;
  r_title : string;
  r_version : string;
  r_description : string;
  r_swaggerDoc : option string;
  r_generated : bool;
  r_securitySchemes : gmap string SecurityScheme;
  r_globalSecurity : list SecurityRequirement
}.

Definition NewAPIRouter (basePath title version description : string) : APIRouter :=
  {| r_engine := []; r_definitions := []; r_basePath := basePath; r_title := title;
     r_version := version; r_description := description; r_swaggerDoc := None;
     r_generated := false; r_securitySchemes := ∅; r_globalSecurity := [] |}.

(** The methods of [Register]'s [switch]. *)
Definition supported_methods : list string := ["GET"; "POST"; "PUT"; "DELETE"; "PATCH"].

(** The two writes at the end of [Register]: the route handed to the engine
    and the definition appended to [r.definitions]. *)
Definition add_route (r : APIRouter) (method : string) (api : APIDefinition) : APIRouter :=
  {| r_engine := r_engine r ++ [(method, r_basePath r +:+ def_Path api)];
     r_definitions := r_definitions r ++ [api];
     r_basePath := r_basePath r; r_title := r_title r; r_version := r_version r;
     r_description := r_description r; r_swaggerDoc := r_swaggerDoc r;
     r_generated := r_generated r; r_securitySchemes := r_securitySchemes r;
     r_globalSecurity := r_globalSecurity r |}.

(** [APIRouter.Register]; the argument is a pointer, [None] when nil. The
    result is the returned error ([None]: nil) and the router afterwards. *)
Definition Register (r : APIRouter) (api : option APIDefinition)
  : option error * APIRouter :=
  match api with
  | None => (Some (Errorf "api definition cannot be nil"), r)
  | Some api =>
      if ptr_empty (def_NativeHandler api) && ptr_empty (def_Handler api) then
        (Some (Errorf ("handler cannot be nil for path: " +:+ def_Path api)), r)
      else if String.eqb (def_Path api) EmptyString then
        (Some (Errorf "path cannot be empty"), r)
      else
        let method := strings_ToUpper (def_Method api) in
        if bool_decide (method ∈ supported_methods) then
          (None, add_route r method api)
        else
          (Some (Errorf ("unsupported HTTP method: " +:+ def_Method api)), r)
  end.

(** *** generateOperationID *)

(** The text after a match of [\{[^}]+\}] at the start of [s], if there is
    one: an opening brace, at least one byte that is not a closing brace,
    and the first closing brace. *)
Fixpoint after_close (s : string) : option string :=
  match s with
  | EmptyString => None
  | String c rest => if Ascii.eqb c "}" then Some rest else after_close rest
  end.

Definition match_placeholder (s : string) : option string :=
  match s with
  | String open (String c rest) =>
      if Ascii.eqb open "{" && negb (Ascii.eqb c "}") then after_close rest else None
  | _ => None
  end.

(** [ReplaceAllString(path, EmptyString)] for that pattern: matches are taken
    leftmost first; every step consumes a byte, so [fuel] equal to the
    length is enough. *)
Fixpoint remove_placeholders (fuel : nat) (s : string) : string :=
  match fuel with
  | O => s
  | S fuel' =>
      match match_placeholder s with
      | Some rest => remove_placeholders fuel' rest
      | None =>
          match s with
          | EmptyString => EmptyString
          | String c rest => String c (remove_placeholders fuel' rest)
          end
      end
  end.

(** [[^a-zA-Z0-9]] replaced by an underscore, byte by byte. Go replaces rune
    by rune; a rune above 127 gives several underscores here and one
    there, and the next step leaves one in both. *)
Definition replace_special (s : string) : string :=
  map_string (fun c => if is_alnum c then c else "_"%char) s.

(** [_+] replaced by one underscore. *)
Fixpoint collapse_underscores (s : string) : string :=
  match s with
  | EmptyString => EmptyString
  | String c rest =>
      if Ascii.eqb c "_" then
        match rest with
        | String d _ =>
            if Ascii.eqb d "_" then collapse_underscores rest
            else String c (collapse_underscores rest)
        | EmptyString => String c EmptyString
        end
      else String c (collapse_underscores rest)
  end.

Definition clean_path (path : string) : string :=
  strings_Trim
    (collapse_underscores
       (replace_special (remove_placeholders (String.length path) path))) "_".

Definition generateOperationID (path : string) (op : Operation) : string :=
  let prefix := match elems (op_Tags op) with
                | tag :: _ => strings_ToLower tag
                | [] => "operation"
                end in
  prefix +:+ "_" +:+ clean_path path.

(** The shape of a cleaned path: bytes that are letters, digits or
    underscores; no two underscores in a row; none at either end. *)
Fixpoint all_bytes (P : ascii -> bool) (s : string) : bool :=
  match s with
  | EmptyString => true
  | String c rest => P c && all_bytes P rest
  end.

Definition starts_with (c : ascii) (s : string) : bool :=
  match s with
  | String d _ => Ascii.eqb d c
  | EmptyString => false
  end.

Fixpoint ends_with (c : ascii) (s : string) : bool :=
  match s with
  | EmptyString => false
  | String d EmptyString => Ascii.eqb d c
  | String _ rest => ends_with c rest
  end.

Fixpoint no_double_underscore (s : string) : bool :=
  match s with
  | EmptyString => true
  | String c rest =>
      negb (Ascii.eqb c "_" && starts_with "_" rest) && no_double_underscore rest
  end.

Definition identifier_byte (c : ascii) : bool := is_alnum c || Ascii.eqb c "_".

(** *** BuildOpenAPI *)

Definition json_content (schema : SchemaMap) : gmap string Content :=
  {[ "application/json" := mkContent (Some schema) ]}.

Definition set_RequestBody (op : Operation) (body : option RequestBody) : Operation :=
  {| op_Summary := op_Summary op; op_Description := op_Description op;
     op_OperationID := op_OperationID op; op_Tags := op_Tags op;
     op_Parameters := op_Parameters op; op_RequestBody := body;
     op_Responses := op_Responses op; op_Deprecated := op_Deprecated op;
     op_Security := op_Security op; op_Servers := op_Servers op;
     op_ExternalDocs := op_ExternalDocs op |}.

Definition set_Responses (op : Operation) (responses : gmap string Response) : Operation :=
  {| op_Summary := op_Summary op; op_Description := op_Description op;
     op_OperationID := op_OperationID op; op_Tags := op_Tags op;
     op_Parameters := op_Parameters op; op_RequestBody := op_RequestBody op;
     op_Responses := responses; op_Deprecated := op_Deprecated op;
     op_Security := op_Security op; op_Servers := op_Servers op;
     op_ExternalDocs := op_ExternalDocs op |}.

Definition set_OperationID (op : Operation) (operationID : string) : Operation :=
  {| op_Summary := op_Summary op; op_Description := op_Description op;
     op_OperationID := operationID; op_Tags := op_Tags op;
     op_Parameters := op_Parameters op; op_RequestBody := op_RequestBody op;
     op_Responses := op_Responses op; op_Deprecated := op_Deprecated op;
     op_Security := op_Security op; op_Servers := op_Servers op;
     op_ExternalDocs := op_ExternalDocs op |}.

(** [operation.Responses[code] = response]. *)
Definition put_response (code : string) (response : Response) (op : Operation) : Operation :=
  set_Responses op (<[ code := response ]> (op_Responses op)).

(** The [&api.Operation{...}] literal of the loop: summary, description,
    tags and an empty response map; then the parameters. *)
Definition new_operation (apiDef : APIDefinition) : Operation :=
  {| op_Summary := def_Summary apiDef; op_Description := def_Description apiDef;
     op_OperationID := EmptyString; op_Tags := def_Tags apiDef;
     op_Parameters := def_Params apiDef;
     op_RequestBody := None; op_Responses := ∅; op_Deprecated := false;
     op_Security := []; op_Servers := []; op_ExternalDocs := None |}.

Definition is_nil_interface (v : Iface) : bool :=
  match v with NilInterface => true | _ => false end.

(** The body of the loop of [BuildOpenAPI] up to the method switch. *)
Definition build_operation (apiDef : APIDefinition) : M Operation :=
  let operation := new_operation apiDef in
  let* operation :=
    (if is_nil_interface (def_Request apiDef) then ret operation
     else
       let* schema := wrapErr "failed to generate request schema"
                        (SafeSchemaFromStruct (def_Request apiDef)) in
       match schema with
       | Some schema =>
           ret (set_RequestBody operation (Some (mkRequestBody (json_content schema))))
       | None => ret operation
       end) in
  let* operation :=
    (if is_nil_interface (def_Response apiDef) then ret operation
     else
       let* schema := wrapErr "failed to generate response schema"
                        (SafeSchemaFromStruct (def_Response apiDef)) in
       match schema with
       | Some schema =>
           ret (put_response "200" (mkResponse "Success" (json_content schema)) operation)
       | None => ret operation
       end) in
  ret (put_response "500" (mkResponse "Internal Server Error" ∅)
         (put_response "400" (mkResponse "Bad Request" ∅) operation)).

Definition empty_PathItem : PathItem := mkPathItem None None None None None.

(** [switch apiDef.Method]: the slot is chosen by the method as the
    definition spells it. *)
Definition set_method (method : string) (op : Operation) (item : PathItem) : PathItem :=
  if String.eqb method "GET" then
    mkPathItem (Some op) (pi_Post item) (pi_Put item) (pi_Delete item) (pi_Patch item)
  else if String.eqb method "POST" then
    mkPathItem (pi_Get item) (Some op) (pi_Put item) (pi_Delete item) (pi_Patch item)
  else if String.eqb method "PUT" then
    mkPathItem (pi_Get item) (pi_Post item) (Some op) (pi_Delete item) (pi_Patch item)
  else if String.eqb method "DELETE" then
    mkPathItem (pi_Get item) (pi_Post item) (pi_Put item) (Some op) (pi_Patch item)
  else if String.eqb method "PATCH" then
    mkPathItem (pi_Get item) (pi_Post item) (pi_Put item) (pi_Delete item) (Some op)
  else item.

(** The loop over [r.definitions]. *)
Fixpoint build_paths (defs : list APIDefinition) (paths : gmap string PathItem)
  : M (gmap string PathItem) :=
  match defs with
  | [] => ret paths
  | apiDef :: defs' =>
      let pathItem := default empty_PathItem (paths !! def_Path apiDef) in
      let* operation := build_operation apiDef in
      build_paths defs'
        (<[ def_Path apiDef := set_method (def_Method apiDef) operation pathItem ]> paths)
  end.

Definition empty_Components : Components := mkComponents ∅ ∅ ∅ ∅ ∅ ∅ ∅.

Definition BuildOpenAPI (r : APIRouter) : M OpenAPIDoc :=
  let* paths := build_paths (r_definitions r) ∅ in
  ret {| doc_OpenAPI := "3.0.0";
         doc_Info := mkInfo (r_title r) (r_version r) (r_description r);
         doc_Servers := [mkServer (r_basePath r) "API Server"];
         doc_Paths := paths;
         doc_Components := Some (mkComponents ∅ (r_securitySchemes r) ∅ ∅ ∅ ∅ ∅);
         doc_Security := r_globalSecurity r;
         doc_Tags := [];
         doc_ExternalDocs := None |}.

(** *** GenerateSwagger *)

Definition has_response (code : string) (op : Operation) : bool :=
  bool_decide (is_Some (op_Responses op !! code)).

(** The body of the loop over the operations of a path item. *)
Definition add_defaults (path : string) (op : Operation) : Operation :=
  let op := if has_response "400" op then op
            else put_response "400"
                   (mkResponse "Bad Request - Invalid input parameters" ∅) op in
  let op := if negb (has_response "401" op) && negb (list_empty (op_Security op))
            then put_response "401"
                   (mkResponse "Unauthorized - Authentication required" ∅) op
            else op in
  let op := if negb (has_response "403" op) && negb (list_empty (op_Security op))
            then put_response "403"
                   (mkResponse "Forbidden - Insufficient permissions" ∅) op
            else op in
  let op := if has_response "500" op then op
            else put_response "500" (mkResponse "Internal Server Error" ∅) op in
  if String.eqb (op_OperationID op) EmptyString
  then set_OperationID op (generateOperationID path op)
  else op.

Definition default_item (path : string) (item : PathItem) : PathItem :=
  mkPathItem (add_defaults path <$> pi_Get item) (add_defaults path <$> pi_Post item)
             (add_defaults path <$> pi_Put item) (add_defaults path <$> pi_Delete item)
             (add_defaults path <$> pi_Patch item).

(** The document after the defaulting steps of [GenerateSwagger]. *)
Definition finish_doc (r : APIRouter) (doc : OpenAPIDoc) : OpenAPIDoc :=
  {| doc_OpenAPI := doc_OpenAPI doc;
     doc_Info := doc_Info doc;
     doc_Servers := match doc_Servers doc with
                    | [] => [mkServer (r_basePath r) "Default server"]
                    | servers => servers
                    end;
     doc_Paths := map_imap (fun path item => Some (default_item path item)) (doc_Paths doc);
     doc_Components := match doc_Components doc with
                       | None => Some empty_Components
                       | components => components
                       end;
     doc_Security := doc_Security doc;
     doc_Tags := doc_Tags doc;
     doc_ExternalDocs := doc_ExternalDocs doc |}.

(** [r.swaggerDoc = data; r.generated = true]. *)
Definition cache_doc (r : APIRouter) (data : string) : APIRouter :=
  {| r_engine := r_engine r; r_definitions := r_definitions r;
     r_basePath := r_basePath r; r_title := r_title r; r_version := r_version r;
     r_description := r_description r; r_swaggerDoc := Some data;
     r_generated := true; r_securitySchemes := r_securitySchemes r;
     r_globalSecurity := r_globalSecurity r |}.

(** The error of [json.MarshalIndent], which the code wraps. *)
Definition json_error : error := Errorf "json: unsupported type".

(** [APIRouter.GenerateSwagger], run when [n] clock readings have been made:
    the returned document or error, the router afterwards, and the number
    of clock readings after the call. *)
Definition GenerateSwagger (r : APIRouter) (n : nat)
  : result OpenAPIDoc * APIRouter * nat :=
  if String.eqb (r_title r) EmptyString then
    (Err (Errorf "API title is required"), r, n)
  else if String.eqb (r_version r) EmptyString then
    (Err (Errorf "API version is required"), r, n)
  else
    match BuildOpenAPI r n with
    | (Err e, n') => (Err (Wrap "failed to build OpenAPI document" e), r, n')
    | (Ok doc, n') =>
        if map_empty (doc_Paths doc) then (Err (Errorf "no API paths defined"), r, n')
        else
          let doc := finish_doc r doc in
          match json_MarshalIndent doc with
          | None => (Err (Wrap "failed to marshal OpenAPI document" json_error), r, n')
          | Some data => (Ok doc, cache_doc r data, n')
          end
    end.

Definition clock_free_definition (d : APIDefinition) : Prop :=
  clock_free_value (def_Request d) = true /\ clock_free_value (def_Response d) = true.

(** *** The checks of Register, in the words of the specification

    A definition is turned down for the first of these it shows: no handler
    at all (neither [Handler] nor [NativeHandler]), an empty path, a method
    whose upper-case form is not a supported one. *)
Inductive Violation : Type := NoHandler | EmptyPath | UnsupportedMethod.

Definition violation (d : APIDefinition) : option Violation :=
  if decide (def_Handler d = None /\ def_NativeHandler d = None) then Some NoHandler
  else if decide (def_Path d = EmptyString) then Some EmptyPath
  else if decide (strings_ToUpper (def_Method d) ∈ supported_methods) then None
  else Some UnsupportedMethod.

Definition nil_definition_error : error := Errorf "api definition cannot be nil".

Definition violation_error (v : Violation) (d : APIDefinition) : error :=
  match v with
  | NoHandler => Errorf ("handler cannot be nil for path: " +:+ def_Path d)
  | EmptyPath => Errorf "path cannot be empty"
  | UnsupportedMethod => Errorf ("unsupported HTTP method: " +:+ def_Method d)
  end.



(** The operation filed under a method name in a path item. *)
Definition get_method (method : string) (item : PathItem) : option Operation :=
  if String.eqb method "GET" then pi_Get item
  else if String.eqb method "POST" then pi_Post item
  else if String.eqb method "PUT" then pi_Put item
  else if String.eqb method "DELETE" then pi_Delete item
  else if String.eqb method "PATCH" then pi_Patch item
  else None.

(** Every operation of [paths] was built by the loop body of [BuildOpenAPI]
    from a definition of [defs] with that very path and method. *)
Definition ops_from (defs : list APIDefinition) (paths : gmap string PathItem) : Prop :=
  forall (path : string) (item : PathItem) (method : string) (op : Operation),
    paths !! path = Some item ->
    get_method method item = Some op ->
    exists (d : APIDefinition) (n n' : nat),
      d ∈ defs /\ def_Path d = path /\ def_Method d = method /\
      build_operation d n = (Ok op, n').

(** ** Sample data, after the repository's tests and README *)

(** [time.Time]: a struct without tags (its location is cut short here). *)
Definition time_Time : GoType :=
  TStruct "time.Time" None
    (FCons "wall" [] (TBasic KUint64)
    (FCons "ext" [] (TBasic KInt64)
    (FCons "loc" [] (TPtr (TStruct "time.Location" None FNil)) FNil))).

(** [User] of the api tests. *)
Definition sample_User_fields : Fields :=
  FCons "ID" [("json", "id"); ("validate", "required")] (TBasic KInt64)
  (FCons "Username" [("json", "username"); ("validate", "required,min=3,max=20")]
     (TBasic KString)
  (FCons "Email" [("json", "email"); ("validate", "required,email")] (TBasic KString)
  (FCons "Age" [("json", "age,omitempty"); ("validate", "min=0,max=150")] (TBasic KInt)
  (FCons "IsActive" [("json", "is_active")] (TBasic KBool)
  (FCons "CreatedAt" [("json", "created_at")] time_Time
  (FCons "Tags" [("json", "tags,omitempty")] (TSlice (TBasic KString)) FNil)))))).

Definition sample_User : GoType := TStruct "api.User" None sample_User_fields.

(** [UserResponse] of the gin tests. *)
Definition sample_UserResponse : GoType :=
  TStruct "gin.UserResponse" None
    (FCons "ID" [("json", "id")] (TBasic KInt64)
    (FCons "Username" [("json", "username")] (TBasic KString)
    (FCons "Email" [("json", "email")] (TBasic KString)
    (FCons "Message" [("json", "message,omitempty")] (TBasic KString) FNil)))).

(** The age parameter of [TestParameterValidation]. *)
Definition age_param : ApiParameter :=
  {| p_Name := "age"; p_In := "query"; p_Description := EmptyString;
     p_Required := true; p_Deprecated := false; p_AllowEmptyValue := false;
     p_Style := EmptyString; p_Explode := false; p_Schema := ∅; p_Example := ANil;
     p_Examples := ∅; p_Content := ∅;
     p_Validations :=
       [mkRule "min" (RFloat64 (float64_of_Z 18)) "Age must be at least 18"] |}.

Definition test_router : APIRouter := NewAPIRouter "/api" "Test API" "1.0.0" "Test".

(** A handler, which the model knows by a number only. *)
Definition testHandler : option nat := Some 1%nat.
Definition ginHandler : option nat := Some 2%nat.

(** The secured operation of the README. *)
Definition secured_def : APIDefinition :=
  WithHandler
    (WithSecurity (NewAPIDefinition "POST" "/admin/users" "Create admin user")
       "bearerAuth" (Some ["admin"]))
    testHandler.

(** The operation with an operation identifier of the README. *)
Definition update_def : APIDefinition :=
  WithHandler
    (WithTags
       (WithOperationID (NewAPIDefinition "PUT" "/users/:id" "Update user") "updateUser")
       ["users"; "management"])
    testHandler.

(** The same operation, its method spelled in upper and in lower case. *)
Definition upper_def : APIDefinition :=
  WithHandler (NewAPIDefinition "GET" "/users" "Get users") testHandler.
Definition lower_def : APIDefinition :=
  WithHandler (NewAPIDefinition "get" "/users" "Get users") testHandler.

(** An operation whose response holds a [time.Time]. *)
Definition dated_def : APIDefinition :=
  WithHandler
    (WithResponse (NewAPIDefinition "GET" "/users" "Get users") (Value sample_User))
    testHandler.

(** An operation whose response holds none. *)
Definition plain_def : APIDefinition :=
  WithHandler
    (WithResponse (WithTags (NewAPIDefinition "GET" "/users" "Get users") ["users"])
       (Value sample_UserResponse))
    testHandler.

(** A definition with both handlers set. *)
Definition both_handlers_def : APIDefinition :=
  WithNativeHandler (WithHandler (NewAPIDefinition "GET" "/test" "Test") testHandler)
    ginHandler.


(** A clock that moves on by one second after its first reading. *)
Definition ticking_clock (k : nat) : string :=
  match k with
  | O => "2026-01-01T00:00:00Z"
  | S _ => "2026-01-01T00:00:01Z"
  end.

(** ** pkg/gin: configuring the router *)

(** [r.title = title; r.version = version; r.description = description]. *)
Definition SetInfo (r : APIRouter) (title version description : string) : APIRouter :=
  {| r_engine := r_engine r; r_definitions := r_definitions r;
     r_basePath := r_basePath r; r_title := title; r_version := version;
     r_description := description; r_swaggerDoc := r_swaggerDoc r;
     r_generated := r_generated r; r_securitySchemes := r_securitySchemes r;
     r_globalSecurity := r_globalSecurity r |}.

Definition SetBasePath (r : APIRouter) (basePath : string) : APIRouter :=
  {| r_engine := r_engine r; r_definitions := r_definitions r;
     r_basePath := basePath; r_title := r_title r; r_version := r_version r;
     r_description := r_description r; r_swaggerDoc := r_swaggerDoc r;
     r_generated := r_generated r; r_securitySchemes := r_securitySchemes r;
     r_globalSecurity := r_globalSecurity r |}.

(** [r.securitySchemes[name] = scheme]. *)
Definition set_securityScheme (r : APIRouter) (name : string) (scheme : SecurityScheme)
  : APIRouter :=
  {| r_engine := r_engine r; r_definitions := r_definitions r;
     r_basePath := r_basePath r; r_title := r_title r; r_version := r_version r;
     r_description := r_description r; r_swaggerDoc := r_swaggerDoc r;
     r_generated := r_generated r;
     r_securitySchemes := <[ name := scheme ]> (r_securitySchemes r);
     r_globalSecurity := r_globalSecurity r |}.

Definition AddBasicAuth (r : APIRouter) (name description : string) : APIRouter :=
  set_securityScheme r name
    {| ss_Type := "http"; ss_Description := description; ss_Name := EmptyString;
       ss_In := EmptyString; ss_Scheme := "basic"; ss_BearerFormat := EmptyString;
       ss_Flows := None; ss_OpenIDConnectURL := EmptyString |}.

Definition AddBearerAuth (r : APIRouter) (name description format : string) : APIRouter :=
  set_securityScheme r name
    {| ss_Type := "http"; ss_Description := description; ss_Name := EmptyString;
       ss_In := EmptyString; ss_Scheme := "bearer"; ss_BearerFormat := format;
       ss_Flows := None; ss_OpenIDConnectURL := EmptyString |}.

Definition AddAPIKey (r : APIRouter) (name description location : string) : APIRouter :=
  set_securityScheme r name
    {| ss_Type := "apiKey"; ss_Description := description; ss_Name := name;
       ss_In := location; ss_Scheme := EmptyString; ss_BearerFormat := EmptyString;
       ss_Flows := None; ss_OpenIDConnectURL := EmptyString |}.

Definition AddOAuth2 (r : APIRouter) (name description : string)
    (flows : option OAuthFlows) : APIRouter :=
  set_securityScheme r name
    {| ss_Type := "oauth2"; ss_Description := description; ss_Name := EmptyString;
       ss_In := EmptyString; ss_Scheme := EmptyString; ss_BearerFormat := EmptyString;
       ss_Flows := flows; ss_OpenIDConnectURL := EmptyString |}.

Definition AddOpenIDConnect (r : APIRouter) (name description url : string) : APIRouter :=
  set_securityScheme r name
    {| ss_Type := "openIdConnect"; ss_Description := description;
       ss_Name := EmptyString; ss_In := EmptyString; ss_Scheme := EmptyString;
       ss_BearerFormat := EmptyString; ss_Flows := None;
       ss_OpenIDConnectURL := url |}.

Definition SetGlobalSecurity (r : APIRouter) (requirements : list SecurityRequirement)
  : APIRouter :=
  {| r_engine := r_engine r; r_definitions := r_definitions r;
     r_basePath := r_basePath r; r_title := r_title r; r_version := r_version r;
     r_description := r_description r; r_swaggerDoc := r_swaggerDoc r;
     r_generated := r_generated r; r_securitySchemes := r_securitySchemes r;
     r_globalSecurity := requirements |}.

Definition GetDefinitions (r : APIRouter) : list APIDefinition := r_definitions r.

(** ** pkg/gin: RegisterGroup *)

(** [if len(api.Tags) == 0 { api.Tags = []string{tag} }], on the copy of the
    definition the loop works on. *)
Definition default_tag (tag : string) (api : APIDefinition) : APIDefinition :=
  match elems (def_Tags api) with
  | [] => WithTags api [tag]
  | _ :: _ => api
  end.

(** The loop of [RegisterGroup] from index [i] on: it stops at the first
    definition [Register] turns down and keeps what was registered before. *)
Fixpoint register_each (r : APIRouter) (tag : string) (i : nat)
    (apis : list APIDefinition) : option error * APIRouter :=
  match apis with
  | [] => (None, r)
  | api :: apis' =>
      match Register r (Some (default_tag tag api)) with
      | (Some err, r') =>
          (Some (Wrap ("failed to register API " +:+ pretty i) err), r')
      | (None, r') => register_each r' tag (S i) apis'
      end
  end.

Definition RegisterGroup (r : APIRouter) (tag : string) (apis : list APIDefinition)
  : option error * APIRouter :=
  if String.eqb tag EmptyString then (Some (Errorf "tag cannot be empty"), r)
  else match apis with
       | [] => (Some (Errorf "apis cannot be empty"), r)
       | _ :: _ => register_each r tag 0 apis
       end.

(** ** pkg/gin: SwaggerHandler

    What the handler writes through the gin context: the status, the
    headers set with [c.Header], the content type and the body, which is
    either a [gin.H] of strings or raw bytes. *)
Inductive GinBody : Type :=
  | BodyJSON (members : gmap string string)
  | BodyData (data : string).

Record GinResponse : Type := mkGinResponse {
  gr_status : Z;
  gr_headers : list (string * string);
  gr_contentType : string;
  gr_body : GinBody
}.

(** [fmt.Sprintf("%x", md5.Sum(data))], left open. *)
Variable md5_hex : string -> string.

Definition json_contentType : string := "application/json; charset=utf-8".

Definition SwaggerHandler (r : APIRouter) : GinResponse :=
  match r_generated r, r_swaggerDoc r with
  | true, Some data =>
      {| gr_status := 200;
         gr_headers := [("Cache-Control", "public, max-age=3600");
                        ("ETag", String dquote (md5_hex data) +:+ String dquote EmptyString)];
         gr_contentType := json_contentType;
         gr_body := BodyData data |}
  | _, _ =>
      {| gr_status := 500;
         gr_headers := [];
         gr_contentType := json_contentType;
         gr_body := BodyJSON
                      (<[ "message" := "Documentation was not generated at startup" ]>
                         {[ "error" := "Swagger documentation not available" ]}) |}
  end.

(** ** A router in use

    The calls a program makes on a router, one after the other. [Register]
    and [RegisterGroup] return an error the sequence goes on after, as a
    program that logs it would. *)
Inductive RouterCall : Type :=
  | CallRegister (api : option APIDefinition)
  | CallRegisterGroup (tag : string) (apis : list APIDefinition)
  | CallSetInfo (title version description : string)
  | CallSetBasePath (basePath : string)
  | CallAddBasicAuth (name description : string)
  | CallAddBearerAuth (name description format : string)
  | CallAddAPIKey (name description location : string)
  | CallAddOAuth2 (name description : string) (flows : option OAuthFlows)
  | CallAddOpenIDConnect (name description url : string)
  | CallSetGlobalSecurity (requirements : list SecurityRequirement)
  | CallGenerateSwagger.

(** One call on the router [r] when [n] clock readings have been made: the
    document when the call is a [GenerateSwagger] that returns one, the
    router and the clock readings afterwards. *)
Definition call (r : APIRouter) (n : nat) (c : RouterCall)
  : option OpenAPIDoc * APIRouter * nat :=
  match c with
  | CallRegister api => (None, (Register r api).2, n)
  | CallRegisterGroup tag apis => (None, (RegisterGroup r tag apis).2, n)
  | CallSetInfo title version description =>
      (None, SetInfo r title version description, n)
  | CallSetBasePath basePath => (None, SetBasePath r basePath, n)
  | CallAddBasicAuth name description => (None, AddBasicAuth r name description, n)
  | CallAddBearerAuth name description format =>
      (None, AddBearerAuth r name description format, n)
  | CallAddAPIKey name description location =>
      (None, AddAPIKey r name description location, n)
  | CallAddOAuth2 name description flows =>
      (None, AddOAuth2 r name description flows, n)
  | CallAddOpenIDConnect name description url =>
      (None, AddOpenIDConnect r name description url, n)
  | CallSetGlobalSecurity requirements => (None, SetGlobalSecurity r requirements, n)
  | CallGenerateSwagger =>
      match GenerateSwagger r n with
      | (Ok doc, r', n') => (Some doc, r', n')
      | (Err _, r', n') => (None, r', n')
      end
  end.

(** A sequence of calls: the last document a [GenerateSwagger] of the
    sequence returned ([last] before the sequence), the router and the clock
    readings at the end. *)
Fixpoint calls (r : APIRouter) (n : nat) (last : option OpenAPIDoc)
    (cs : list RouterCall) : option OpenAPIDoc * APIRouter * nat :=
  match cs with
  | [] => (last, r, n)
  | c :: cs' =>
      match call r n c with
      | (Some doc, r', n') => calls r' n' (Some doc) cs'
      | (None, r', n') => calls r' n' last cs'
      end
  end.

(** The two answers of [SwaggerHandler]. *)
Definition unavailable_response : GinResponse :=
  {| gr_status := 500;
     gr_headers := [];
     gr_contentType := json_contentType;
     gr_body := BodyJSON
                  (<[ "message" := "Documentation was not generated at startup" ]>
                     {[ "error" := "Swagger documentation not available" ]}) |}.

Definition document_response (data : string) : GinResponse :=
  {| gr_status := 200;
     gr_headers := [("Cache-Control", "public, max-age=3600");
                    ("ETag", String dquote (md5_hex data) +:+ String dquote EmptyString)];
     gr_contentType := json_contentType;
     gr_body := BodyData data |}.

(** What the router caches: nothing before the first document, the text of
    the last document afterwards. *)
Definition caches (r : APIRouter) (last : option OpenAPIDoc) : Prop :=
  match last with
  | None => r_generated r = false /\ r_swaggerDoc r = None
  | Some doc =>
      r_generated r = true /\ r_swaggerDoc r = json_MarshalIndent doc /\
      is_Some (json_MarshalIndent doc)
  end.

(** ** pkg/gin: the handler Register installs

    [Register] wraps the definition in a gin handler that checks the
    parameters and the body before it calls the handler of the definition.
    The gin context is outside the repository; a request is what its
    accessors return: [c.Param], [c.Query] and [c.GetHeader] (the empty
    string when the name is absent), [c.Cookie] ([None] when it returns an
    error) and [c.ShouldBindJSON] ([Some] text of the error, [None] when the
    body decodes). *)
Record GinRequest : Type := mkGinRequest {
  req_Param : string -> string;
  req_Query : string -> string;
  req_Header : string -> string;
  req_Cookie : string -> option string;
  req_BindJSON : option string
}.

(** What the installed handler does with a request: it aborts with a status
    and the error text [text] followed by the text of [cause] when there is
    one ([c.AbortWithStatusJSON]), or it calls the native handler, or the
    standard handler, or it returns having called nothing. *)
Inductive Outcome : Type :=
  | Aborted (status : Z) (text : string) (cause : option error)
  | CalledNative (handler : nat)
  | CalledHandler (handler : nat)
  | NothingCalled.

(** Whether a native handler is a [gin.HandlerFunc] (the type assertion of
    the dispatch), left open. *)
Variable is_gin_HandlerFunc : nat -> bool.

(** The loop over [api.Params] for the parameters carried in [location]
    (path, query or header), read with [get]: the first parameter of that
    location that is required and empty, or not empty and invalid, aborts
    the request with status 400. *)
Fixpoint check_valued (location : string) (get : string -> string)
    (missing invalid : string) (params : list ApiParameter) : option Outcome :=
  match params with
  | [] => None
  | param :: params' =>
      if String.eqb (p_In param) location then
        let value := get (p_Name param) in
        if p_Required param && String.eqb value EmptyString then
          Some (Aborted 400 (missing +:+ p_Name param) None)
        else if negb (String.eqb value EmptyString) then
          match Validate param (ArgString value) with
          | Some err =>
              Some (Aborted 400 (invalid +:+ p_Name param +:+ ": ") (Some err))
          | None => check_valued location get missing invalid params'
          end
        else check_valued location get missing invalid params'
      else check_valued location get missing invalid params'
  end.

(** The loop for cookies: a cookie that cannot be read aborts when it is
    required and is passed over otherwise; one that is read is validated
    when it is not empty. *)
Fixpoint check_cookies (get : string -> option string) (params : list ApiParameter)
  : option Outcome :=
  match params with
  | [] => None
  | param :: params' =>
      if String.eqb (p_In param) "cookie" then
        match get (p_Name param) with
        | None =>
            if p_Required param then
              Some (Aborted 400 ("missing required cookie: " +:+ p_Name param) None)
            else check_cookies get params'
        | Some value =>
            if negb (String.eqb value EmptyString) then
              match Validate param (ArgString value) with
              | Some err =>
                  Some (Aborted 400 ("invalid cookie " +:+ p_Name param +:+ ": ")
                          (Some err))
              | None => check_cookies get params'
              end
            else check_cookies get params'
        end
      else check_cookies get params'
  end.

(** Whether the body is looked at: a request sample is declared and the
    upper-cased method is POST, PUT or PATCH. *)
Definition body_checked (method : string) (api : APIDefinition) : bool :=
  negb (is_nil_interface (def_Request api)) &&
  (String.eqb method "POST" || String.eqb method "PUT" || String.eqb method "PATCH").

Definition check_body (method : string) (api : APIDefinition) (req : GinRequest)
  : option Outcome :=
  if body_checked method api then
    let contentType := req_Header req "Content-Type" in
    if negb (String.eqb contentType EmptyString) &&
       negb (String.prefix "application/json" contentType) then
      Some (Aborted 415 "Content-Type must be application/json" None)
    else
      match req_BindJSON req with
      | Some err => Some (Aborted 400 ("invalid request body: " +:+ err) None)
      | None => None
      end
  else None.

(** The call at the end: the native handler when it is a gin handler, the
    standard handler otherwise. *)
Definition dispatch (api : APIDefinition) : Outcome :=
  match def_NativeHandler api with
  | Some native =>
      if is_gin_HandlerFunc native then CalledNative native
      else match def_Handler api with
           | Some handler => CalledHandler handler
           | None => NothingCalled
           end
  | None =>
      match def_Handler api with
      | Some handler => CalledHandler handler
      | None => NothingCalled
      end
  end.

(** The handler [Register] gives to [engine.Handle], for the definition
    [api] and the upper-cased [method]. *)
Definition guard (method : string) (api : APIDefinition) (req : GinRequest) : Outcome :=
  match check_valued "path" (req_Param req)
          "missing required path parameter: " "invalid path parameter "
          (def_Params api) with
  | Some abort => abort
  | None =>
  match check_valued "query" (req_Query req)
          "missing required query parameter: " "invalid query parameter "
          (def_Params api) with
  | Some abort => abort
  | None =>
  match check_valued "header" (req_Header req)
          "missing required header: " "invalid header "
          (def_Params api) with
  | Some abort => abort
  | None =>
  match check_cookies (req_Cookie req) (def_Params api) with
  | Some abort => abort
  | None =>
  match check_body method api req with
  | Some abort => abort
  | None => dispatch api
  end end end end end.

(** The handler installed for a registered definition. *)
Definition installed_handler (api : APIDefinition) : GinRequest -> Outcome :=
  guard (strings_ToUpper (def_Method api)) api.

(** *** The checks of the installed handler, in words

    A parameter is in order for a request when: carried in the path, the
    query or a header, its value is not empty if it is required and valid if
    it is not empty; carried in a cookie, the cookie can be read if it is
    required and is valid if it is read and not empty; carried anywhere
    else, always. *)
Definition value_in_order (param : ApiParameter) (value : string) : Prop :=
  (p_Required param = true -> value <> EmptyString) /\
  (value <> EmptyString -> Validate param (ArgString value) = None).

Definition param_in_order (req : GinRequest) (param : ApiParameter) : Prop :=
  (p_In param = "path" -> value_in_order param (req_Param req (p_Name param))) /\
  (p_In param = "query" -> value_in_order param (req_Query req (p_Name param))) /\
  (p_In param = "header" -> value_in_order param (req_Header req (p_Name param))) /\
  (p_In param = "cookie" ->
   match req_Cookie req (p_Name param) with
   | None => p_Required param = false
   | Some value => value <> EmptyString -> Validate param (ArgString value) = None
   end).

Definition body_in_order (method : string) (api : APIDefinition) (req : GinRequest) : Prop :=
  body_checked method api = true ->
  (req_Header req "Content-Type" = EmptyString \/
   String.prefix "application/json" (req_Header req "Content-Type") = true) /\
  req_BindJSON req = None.

Definition is_aborted (o : Outcome) : Prop :=
  match o with Aborted _ _ _ => True | _ => False end.

(** The locations the installed handler looks at. *)
Definition known_location (param : ApiParameter) : bool :=
  String.eqb (p_In param) "path" || String.eqb (p_In param) "query" ||
  String.eqb (p_In param) "header" || String.eqb (p_In param) "cookie".

(** [api] with another parameter list. *)
Definition set_Params (api : APIDefinition) (params : list ApiParameter) : APIDefinition :=
  {| def_Method := def_Method api; def_Path := def_Path api;
     def_OperationID := def_OperationID api;
     def_Summary := def_Summary api; def_Description := def_Description api;
     def_Tags := def_Tags api; def_Request := def_Request api;
     def_Response := def_Response api; def_Params := params;
     def_Handler := def_Handler api; def_NativeHandler := def_NativeHandler api;
     def_Deprecated := def_Deprecated api; def_Security := def_Security api;
     def_ExternalDocs := def_ExternalDocs api; def_Examples := def_Examples api;
     def_Servers := def_Servers api |}.

(** [WithParam]: the parameter is appended. *)
Definition WithParam (api : APIDefinition) (name location description : string)
    (required : bool) (validations : list ValidationRule) : APIDefinition :=
  set_Params api
    (def_Params api ++
     [ {| p_Name := name; p_In := location; p_Description := description;
          p_Required := required; p_Deprecated := false; p_AllowEmptyValue := false;
          p_Style := EmptyString; p_Explode := false; p_Schema := ∅;
          p_Example := ANil; p_Examples := ∅; p_Content := ∅;
          p_Validations := validations |} ]).

(** *** Sample requests, after the middleware tests *)

(** GET /users with the required query parameter limit. *)
Definition limit_def : APIDefinition :=
  WithHandler
    (WithParam (NewAPIDefinition "GET" "/users" "Get users")
       "limit" "query" "Result limit" true [])
    testHandler.

(** A request that carries nothing, and one with [limit=10]. *)
Definition bare_request : GinRequest :=
  {| req_Param := fun _ => EmptyString; req_Query := fun _ => EmptyString;
     req_Header := fun _ => EmptyString; req_Cookie := fun _ => None;
     req_BindJSON := None |}.

Definition limit_request : GinRequest :=
  {| req_Param := fun _ => EmptyString;
     req_Query := fun name => if String.eqb name "limit" then "10" else EmptyString;
     req_Header := fun _ => EmptyString; req_Cookie := fun _ => None;
     req_BindJSON := None |}.

(** POST /users with a request sample, and a request sent as plain text. *)
Definition create_def : APIDefinition :=
  WithHandler
    (WithRequest (NewAPIDefinition "POST" "/users" "Create user")
       (Value sample_UserResponse))
    testHandler.

Definition text_request : GinRequest :=
  {| req_Param := fun _ => EmptyString; req_Query := fun _ => EmptyString;
     req_Header := fun name =>
                     if String.eqb name "Content-Type" then "text/plain" else EmptyString;
     req_Cookie := fun _ => None;
     req_BindJSON := None |}.

(** A parameter with the age rule, read from the query, and a request with
    [age=15]. *)
Definition age_def : APIDefinition :=
  WithHandler
    (set_Params (NewAPIDefinition "GET" "/users" "Get users") [age_param])
    testHandler.

Definition age_request : GinRequest :=
  {| req_Param := fun _ => EmptyString;
     req_Query := fun name => if String.eqb name "age" then "15" else EmptyString;
     req_Header := fun _ => EmptyString; req_Cookie := fun _ => None;
     req_BindJSON := None |}.

(** ** What of a definition reaches the document *)

(** Two definitions agree on method, path, summary, description, tags,
    request and response samples and parameters. *)
Definition same_documentation (d d' : APIDefinition) : Prop :=
  def_Method d = def_Method d' /\ def_Path d = def_Path d' /\
  def_Summary d = def_Summary d' /\ def_Description d = def_Description d' /\
  def_Tags d = def_Tags d' /\ def_Request d = def_Request d' /\
  def_Response d = def_Response d' /\ def_Params d = def_Params d'.

(** [r] with other registered definitions. *)
Definition with_definitions (r : APIRouter) (defs : list APIDefinition) : APIRouter :=
  {| r_engine := r_engine r; r_definitions := defs;
     r_basePath := r_basePath r; r_title := r_title r; r_version := r_version r;
     r_description := r_description r; r_swaggerDoc := r_swaggerDoc r;
     r_generated := r_generated r; r_securitySchemes := r_securitySchemes r;
     r_globalSecurity := r_globalSecurity r |}.

(** The remaining chain calls of a definition. *)
Definition WithDescription (api : APIDefinition) (description : string) : APIDefinition :=
  {| def_Method := def_Method api; def_Path := def_Path api;
     def_OperationID := def_OperationID api;
     def_Summary := def_Summary api; def_Description := description;
     def_Tags := def_Tags api; def_Request := def_Request api;
     def_Response := def_Response api; def_Params := def_Params api;
     def_Handler := def_Handler api; def_NativeHandler := def_NativeHandler api;
     def_Deprecated := def_Deprecated api; def_Security := def_Security api;
     def_ExternalDocs := def_ExternalDocs api; def_Examples := def_Examples api;
     def_Servers := def_Servers api |}.

Definition WithDeprecated (api : APIDefinition) (deprecated : bool) : APIDefinition :=
  {| def_Method := def_Method api; def_Path := def_Path api;
     def_OperationID := def_OperationID api;
     def_Summary := def_Summary api; def_Description := def_Description api;
     def_Tags := def_Tags api; def_Request := def_Request api;
     def_Response := def_Response api; def_Params := def_Params api;
     def_Handler := def_Handler api; def_NativeHandler := def_NativeHandler api;
     def_Deprecated := deprecated; def_Security := def_Security api;
     def_ExternalDocs := def_ExternalDocs api; def_Examples := def_Examples api;
     def_Servers := def_Servers api |}.

Definition WithExternalDocs (api : APIDefinition) (description url : string)
  : APIDefinition :=
  {| def_Method := def_Method api; def_Path := def_Path api;
     def_OperationID := def_OperationID api;
     def_Summary := def_Summary api; def_Description := def_Description api;
     def_Tags := def_Tags api; def_Request := def_Request api;
     def_Response := def_Response api; def_Params := def_Params api;
     def_Handler := def_Handler api; def_NativeHandler := def_NativeHandler api;
     def_Deprecated := def_Deprecated api; def_Security := def_Security api;
     def_ExternalDocs := Some (mkExternalDocs description url);
     def_Examples := def_Examples api;
     def_Servers := def_Servers api |}.

Definition WithServer (api : APIDefinition) (url description : string) : APIDefinition :=
  {| def_Method := def_Method api; def_Path := def_Path api;
     def_OperationID := def_OperationID api;
     def_Summary := def_Summary api; def_Description := def_Description api;
     def_Tags := def_Tags api; def_Request := def_Request api;
     def_Response := def_Response api; def_Params := def_Params api;
     def_Handler := def_Handler api; def_NativeHandler := def_NativeHandler api;
     def_Deprecated := def_Deprecated api; def_Security := def_Security api;
     def_ExternalDocs := def_ExternalDocs api; def_Examples := def_Examples api;
     def_Servers := def_Servers api ++ [mkServer url description] |}.

(** The first tag of an operation, if it has one. *)
Definition first_tag (op : Operation) : option string := head (elems (op_Tags op)).

(** A deprecated operation with an identifier, external documentation and
    a server of its own, and the same operation without them and with
    another handler. *)
Definition legacy_def : APIDefinition :=
  WithHandler
    (WithServer
       (WithExternalDocs
          (WithDeprecated
             (WithOperationID
                (WithTags (NewAPIDefinition "GET" "/legacy" "Legacy endpoint") ["legacy"])
                "getLegacy")
             true)
          "Migration guide" "https://example.com/migrate")
       "https://legacy.example.com" "Legacy server")
    testHandler.

Definition legacy_bare_def : APIDefinition :=
  WithNativeHandler
    (WithTags (NewAPIDefinition "GET" "/legacy" "Legacy endpoint") ["legacy"])
    ginHandler.

(** GET and POST on the same path, both tagged users. *)
Definition list_users_def : APIDefinition :=
  WithHandler (WithTags (NewAPIDefinition "GET" "/users" "List users") ["users"])
    testHandler.

Definition create_user_def : APIDefinition :=
  WithHandler (WithTags (NewAPIDefinition "POST" "/users" "Create user") ["users"])
    testHandler.

(** The document [BuildOpenAPI] and the defaulting steps make of the paths
    that the loop over the definitions returns. *)
Definition document_of (r : APIRouter) (paths : gmap string PathItem) : OpenAPIDoc :=
  {| doc_OpenAPI := "3.0.0";
     doc_Info := mkInfo (r_title r) (r_version r) (r_description r);
     doc_Servers := [mkServer (r_basePath r) "API Server"];
     doc_Paths := map_imap (fun path item => Some (default_item path item)) paths;
     doc_Components := Some (mkComponents ∅ (r_securitySchemes r) ∅ ∅ ∅ ∅ ∅);
     doc_Security := r_globalSecurity r;
     doc_Tags := [];
     doc_ExternalDocs := None |}.

(** A router with the two operations on /users. *)
Definition users_router : APIRouter :=
  add_route (add_route test_router "GET" list_users_def) "POST" create_user_def.

(** An operation with a query parameter declared before its path
    parameter. *)
Definition limit_param : ApiParameter :=
  {| p_Name := "limit"; p_In := "query"; p_Description := "Result limit";
     p_Required := true; p_Deprecated := false; p_AllowEmptyValue := false;
     p_Style := EmptyString; p_Explode := false; p_Schema := ∅; p_Example := ANil;
     p_Examples := ∅; p_Content := ∅; p_Validations := [] |}.

Definition id_param : ApiParameter :=
  {| p_Name := "id"; p_In := "path"; p_Description := "User ID";
     p_Required := true; p_Deprecated := false; p_AllowEmptyValue := false;
     p_Style := EmptyString; p_Explode := false; p_Schema := ∅; p_Example := ANil;
     p_Examples := ∅; p_Content := ∅; p_Validations := [] |}.

Definition item_def : APIDefinition :=
  WithHandler
    (set_Params (NewAPIDefinition "GET" "/users/:id" "Get user") [limit_param; id_param])
    testHandler.

(** A definition with a native handler only, and one with no handler. *)
Definition native_only_def : APIDefinition :=
  WithNativeHandler (NewAPIDefinition "GET" "/test" "Test") ginHandler.

Definition handlerless_def : APIDefinition := NewAPIDefinition "GET" "/test" "Test".

(** A router on which GET /users was registered twice. *)
Definition twice_router : APIRouter :=
  add_route (add_route test_router "GET" upper_def) "GET" list_users_def.

(** ** The shape of a synthesized schema *)

Definition scalar_types : list string := ["string"; "integer"; "number"; "boolean"].

(** A schema is well formed when its [type] is a string, integer, number or
    boolean; or array, with a well-formed [items] schema; or object, with
    [additionalProperties] true or a well-formed schema, or with
    [properties] that are all well-formed schemas and a [required] list
    that, when there is one, is not empty and names properties only. The
    other keys are not constrained. *)
Inductive well_formed : SchemaMap -> Prop :=
  | wf_scalar (s : SchemaMap) (ty : string) :
      s !! "type" = Some (AString ty) ->
      ty ∈ scalar_types ->
      well_formed s
  | wf_array (s items : SchemaMap) :
      s !! "type" = Some (AString "array") ->
      s !! "items" = Some (AMap items) ->
      well_formed items ->
      well_formed s
  | wf_any_object (s : SchemaMap) :
      s !! "type" = Some (AString "object") ->
      s !! "additionalProperties" = Some (ABool true) ->
      well_formed s
  | wf_map_object (s values : SchemaMap) :
      s !! "type" = Some (AString "object") ->
      s !! "additionalProperties" = Some (AMap values) ->
      well_formed values ->
      well_formed s
  | wf_struct (s props : SchemaMap) :
      s !! "type" = Some (AString "object") ->
      s !! "properties" = Some (AMap props) ->
      (forall name v, props !! name = Some v ->
                      exists field, v = AMap field /\ well_formed field) ->
      match s !! "required" with
      | None => True
      | Some (AStrings names) =>
          names <> [] /\ forall name, name ∈ names -> is_Some (props !! name)
      | Some _ => False
      end ->
      well_formed s.

(** The keys [well_formed] looks at. *)
Definition shape_keys : list string :=
  ["type"; "items"; "additionalProperties"; "properties"; "required"].

(** ** Whole numbers as parameter values *)

(** The number a string of decimal digits denotes. *)
Definition decimal_value (s : string) : Z :=
  fold_left (fun acc c => 10 * acc + digit_val c) (list_ascii_of_string s) 0.

(** A parameter with one rule. *)
Definition number_param (required : bool) (rule : ValidationRule) : ApiParameter :=
  {| p_Name := "n"; p_In := "query"; p_Description := EmptyString;
     p_Required := required; p_Deprecated := false; p_AllowEmptyValue := false;
     p_Style := EmptyString; p_Explode := false; p_Schema := ∅; p_Example := ANil;
     p_Examples := ∅; p_Content := ∅; p_Validations := [rule] |}.

(** ** What the encoder accepts *)

(** Every value of a schema can be encoded. *)
Definition encodable (m : SchemaMap) : Prop :=
  forall k v, m !! k = Some v -> is_Some (json_of_any v).

(** An operation whose parameters, request body and responses can be
    encoded. *)
Definition operation_encodable (op : Operation) : Prop :=
  Forall (fun p => is_Some (json_of_Parameter p)) (op_Parameters op) /\
  (forall body, op_RequestBody op = Some body -> is_Some (json_of_RequestBody body)) /\
  (forall code response,
      op_Responses op !! code = Some response -> is_Some (json_of_Response response)).

Definition item_encodable (item : PathItem) : Prop :=
  forall method op, get_method method item = Some op -> operation_encodable op.

(** A definition that can be documented: its samples, when there are any,
    are of struct types, and the encoder accepts its parameters. *)
Definition documentable (d : APIDefinition) : Prop :=
  (def_Request d = NilInterface \/ is_Some (struct_sample (def_Request d))) /\
  (def_Response d = NilInterface \/ is_Some (struct_sample (def_Response d))) /\
  Forall (fun p => is_Some (json_of_Parameter p)) (def_Params d).

(** A router with an operation that has a parameter and one that has a
    request sample. *)
Definition documented_router : APIRouter :=
  add_route (add_route test_router "GET" age_def) "POST" create_def.

(** ** pkg/api: schema synthesis on every type

    [createSchemaFromGoType], [SchemaFromStruct] and [SafeSchemaFromStruct]
    once more, over [RType]: the recursion follows declared types, so it
    need not end, and a [Time] method can panic. [fuel] bounds the depth of
    the recursion; a call that runs out of it for every [fuel] is a stack
    overflow. The definitions above are these on the finite trees
    ([full_agreement] below). *)

(** The declared types of the program, by name. *)
Variable declared : string -> option RType.

(** A declared type stands for its declaration. *)
Definition resolve (t : RType) : RType :=
  match t with
  | RRef name => default t (declared name)
  | _ => t
  end.

(** The type whose kind [t.Kind()] is, with the element type and the
    fields [t.Elem()], [t.NumField()] and [t.Field(i)] read. *)
Definition underlying (t : RType) : RType :=
  match resolve t with
  | RDefined _ u => u
  | t' => t'
  end.

Definition is_struct_kind (t : RType) : bool :=
  match underlying t with RStruct _ _ _ => true | _ => false end.

(** [if t.Kind() == reflect.Ptr { t = t.Elem() }]. *)
Definition deref_kind (t : RType) : RType :=
  match underlying t with RPtr elem => elem | _ => t end.

(** Synthesis that may not return. *)
Definition Walk (A : Type) : Type := nat -> completion A * nat.

Definition walk_ret {A} (a : A) : Walk A := fun n => (Returned (Ok a), n).
Definition walk_fail {A} (e : error) : Walk A := fun n => (Returned (Err e), n).
Definition walk_panic {A} (value : string) : Walk A := fun n => (Panicked value, n).
Definition walk_overflow {A} : Walk A := fun n => (Overflowed, n).
Definition walk_bind {A B} (m : Walk A) (k : A -> Walk B) : Walk B :=
  fun n => match m n with
           | (Returned (Ok a), n') => k a n'
           | (Returned (Err e), n') => (Returned (Err e), n')
           | (Panicked value, n') => (Panicked value, n')
           | (Overflowed, n') => (Overflowed, n')
           end.
Definition walk_wrapErr {A} (text : string) (m : Walk A) : Walk A :=
  fun n => match m n with
           | (Returned (Err e), n') => (Returned (Err (Wrap text e)), n')
           | r => r
           end.
Definition walk_Now : Walk string := fun n => (Returned (Ok (clock n)), S n).

(** [defer func() { if r := recover(); r != nil { ... } }()] of
    [SafeSchemaFromStruct]. *)
Definition walk_recover {A} (m : Walk A) : Walk A :=
  fun n => match m n with
           | (Panicked value, n') =>
               (Returned (Err (Errorf ("panic in schema generation: " +:+ value))), n')
           | r => r
           end.

Notation "'let+' x ':=' m 'in' k" := (walk_bind m (fun x => k))
  (at level 10, x pattern, m at level 200, k at level 200).

(** The field loop of [SchemaFromStruct], with [self] for
    [createSchemaFromGoType]. *)
Fixpoint struct_fields_full (self : RType -> Walk (option SchemaMap))
    (fs : RFields) (props : SchemaMap) (required : list string)
  : Walk (SchemaMap * list string) :=
  match fs with
  | RNil => walk_ret (props, required)
  | RCons fieldName tag ty more =>
      if field_skipped tag then struct_fields_full self more props required
      else
        let+ fieldSchema := walk_wrapErr ("failed to create schema for field " +:+ fieldName)
                              (self ty) in
        match fieldSchema with
        | Some fieldSchema =>
            let jsonTag := field_jsonName tag in
            struct_fields_full self more
              (<[ jsonTag := AMap (decorate tag fieldSchema) ]> props)
              (if field_isRequired tag then required ++ [jsonTag] else required)
        | None => struct_fields_full self more props required
        end
  end.

(** The body of [createSchemaFromGoType], with [self] for its recursive
    calls; the struct case is [SchemaFromStruct(reflect.New(t).Interface())],
    which comes back to the fields of [t]. *)
Definition createSchema_body (self : RType -> Walk (option SchemaMap)) (t : RType)
  : Walk (option SchemaMap) :=
  let elements elem :=
    let+ elemSchema := walk_wrapErr "failed to create schema for array element"
                         (self elem) in
    walk_ret (Some (schema2 "array" "items" (boxed elemSchema))) in
  match underlying t with
  | RBasic KString => walk_ret (Some (schema1 "string"))
  | RBasic KInt | RBasic KInt8 | RBasic KInt16 | RBasic KInt32 =>
      walk_ret (Some (schema_number "integer" "int32"))
  | RBasic KInt64 => walk_ret (Some (schema_number "integer" "int64"))
  | RBasic KUint | RBasic KUint8 | RBasic KUint16 | RBasic KUint32 =>
      walk_ret (Some (schema_unsigned "int32"))
  | RBasic KUint64 => walk_ret (Some (schema_unsigned "int64"))
  | RBasic KFloat32 => walk_ret (Some (schema_number "number" "float"))
  | RBasic KFloat64 => walk_ret (Some (schema_number "number" "double"))
  | RBasic KBool => walk_ret (Some (schema1 "boolean"))
  | RSlice elem =>
      match underlying elem with
      | RBasic KUint8 => walk_ret (Some (schema_number "string" "byte"))
      | _ => elements elem
      end
  | RArray _ elem => elements elem
  | RStruct _ timeMethod fields =>
      if String.eqb (RType_String t) "time.Time" then
        let+ now := walk_Now in walk_ret (Some (schema_datetime now))
      else
        match timeMethod with
        | Some (TimeReturns formatted) => walk_ret (Some (schema_datetime formatted))
        | Some (TimePanics value) => walk_panic value
        | None =>
            walk_wrapErr ("failed to create schema for struct " +:+ RType_String t)
              (let+ (props, required) := struct_fields_full self fields ∅ [] in
               walk_ret (Some (object_schema props required)))
        end
  | RPtr elem => self elem
  | RInterface =>
      walk_ret (Some (schema2 "object" "additionalProperties" (ABool true)))
  | RMap _ valueType =>
      let+ valueSchema := walk_wrapErr "failed to create schema for map value type"
                            (self valueType) in
      walk_ret (Some (schema2 "object" "additionalProperties" (boxed valueSchema)))
  | _ => walk_ret (Some (schema1 "string"))
  end.

(** [createSchemaFromGoType] with at most [fuel] calls nested. *)
Fixpoint createSchemaFromGoType_full (fuel : nat) (t : RType) : Walk (option SchemaMap) :=
  match fuel with
  | O => walk_overflow
  | S fuel' => createSchema_body (createSchemaFromGoType_full fuel') t
  end.

(** [SchemaFromStruct]. *)
Definition SchemaFromStruct_full (fuel : nat) (v : RIface) : Walk (option SchemaMap) :=
  match RTypeOf v with
  | None => walk_ret (Some empty_object)
  | Some t =>
      let t := deref_kind t in
      match underlying t with
      | RStruct _ _ fields =>
          let+ (props, required) :=
            struct_fields_full (createSchemaFromGoType_full fuel) fields ∅ [] in
          walk_ret (Some (object_schema props required))
      | _ => walk_fail (Errorf ("input must be a struct type, got " +:+ RType_String t))
      end
  end.

(** [SafeSchemaFromStruct], with its deferred [recover]. *)
Definition SafeSchemaFromStruct_full (fuel : nat) (v : RIface) : Walk (option SchemaMap) :=
  walk_recover
    (match RTypeOf v with
     | None => walk_ret (Some empty_object)
     | Some t =>
         let t := deref_kind t in
         if negb (is_struct_kind t) then walk_fail (ErrInvalidType (RType_String t))
         else walk_wrapErr "failed to generate schema" (SchemaFromStruct_full fuel v)
     end).

(** *** The schema of a struct, in the words of the specification *)

Fixpoint field_tags_full (fs : RFields) : list StructTag :=
  match fs with
  | RNil => []
  | RCons _ tag _ more => tag :: field_tags_full more
  end.

Definition visible_names_full (fs : RFields) : list string :=
  json_name <$> List.filter externally_visible (field_tags_full fs).

Definition required_names_full (fs : RFields) : list string :=
  json_name <$>
    List.filter marked_required (List.filter externally_visible (field_tags_full fs)).

(** The fields of the struct a sample stands for. *)
Definition struct_sample_full (v : RIface) : option RFields :=
  match RTypeOf v with
  | Some t =>
      match underlying (deref_kind t) with
      | RStruct _ _ fields => Some fields
      | _ => None
      end
  | None => None
  end.

(** The walk over a type ends: the externally visible fields of a struct
    lead to types on which it ends, down to types that have no part to
    walk; a struct named [time.Time] or with a [Time] method that returns is
    not walked into. A struct that is reached again from one of its own
    visible fields never gets there, nor does a struct whose [Time] method
    panics. These are exactly the types on which a call returns
    ([settles_returns] and [returns_settles] below). *)
Definition no_part (t : RType) : bool :=
  match t with
  | RBasic _ | RChan _ | RFunc _ | RInterface | RDefined _ _ | RRef _ => true
  | _ => false
  end.

Definition is_byte (t : RType) : bool :=
  match t with RBasic KUint8 => true | _ => false end.

Inductive settles : RType -> Prop :=
  | settles_no_part (t : RType) :
      no_part (underlying t) = true -> settles t
  | settles_bytes (t elem : RType) :
      underlying t = RSlice elem -> is_byte (underlying elem) = true -> settles t
  | settles_slice (t elem : RType) :
      underlying t = RSlice elem -> settles elem -> settles t
  | settles_array (t : RType) (len : N) (elem : RType) :
      underlying t = RArray len elem -> settles elem -> settles t
  | settles_ptr (t elem : RType) :
      underlying t = RPtr elem -> settles elem -> settles t
  | settles_map (t key elem : RType) :
      underlying t = RMap key elem -> settles elem -> settles t
  | settles_time (t : RType) (name : string) (timeMethod : option TimeMethod)
      (fields : RFields) :
      underlying t = RStruct name timeMethod fields ->
      RType_String t = "time.Time" -> settles t
  | settles_method (t : RType) (name formatted : string) (fields : RFields) :
      underlying t = RStruct name (Some (TimeReturns formatted)) fields -> settles t
  | settles_struct (t : RType) (name : string) (fields : RFields) :
      underlying t = RStruct name None fields ->
      settles_fields fields -> settles t
with settles_fields : RFields -> Prop :=
  | settles_nil : settles_fields RNil
  | settles_skipped (fieldName : string) (tag : StructTag) (ty : RType) (more : RFields) :
      field_skipped tag = true -> settles_fields more ->
      settles_fields (RCons fieldName tag ty more)
  | settles_visible (fieldName : string) (tag : StructTag) (ty : RType) (more : RFields) :
      settles ty -> settles_fields more ->
      settles_fields (RCons fieldName tag ty more).

Scheme settles_fields_min := Minimality for settles Sort Prop
  with fields_settles_min := Minimality for settles_fields Sort Prop.
Combined Scheme settles_mutind from settles_fields_min, fields_settles_min.

(** *** Samples over these types *)

(** [User] of the api tests once more. *)
Definition User_full : RType := full sample_User.



(** A struct with a field of type [time.Duration] and one whose [Time]
    method panics on the zero value. *)
Definition Duration : RType := RDefined "time.Duration" (RBasic KInt64).

Definition Stamp : RType :=
  RStruct "main.Stamp" (Some (TimePanics "runtime error: invalid memory address or nil pointer dereference"))
    (RCons "At" [("json", "at")] (RPtr (RBasic KInt64)) RNil).

Definition Job : RType :=
  RStruct "main.Job" None
    (RCons "Timeout" [("json", "timeout")] Duration
    (RCons "Started" [("json", "started")] Stamp RNil)).

(** A call of the definitions on finite trees, as a call that returned. *)
Definition returned {A} (r : result A * nat) : completion A * nat := (Returned r.1, r.2).

(** * Properties *)

(** ** Parameter.Validate *)

Lemma ParseFloat_20 : ParseFloat "20" = Some (Fin 5629499534213120 (-48)).
Proof. vm_compute. reflexivity. Qed.

Lemma ParseFloat_15 : ParseFloat "15" = Some (Fin 8444249301319680 (-49)).
Proof. vm_compute. reflexivity. Qed.

Lemma ParseFloat_abc : ParseFloat "abc" = None.
Proof. vm_compute. reflexivity. Qed.

(** A [min] or [max] rule whose threshold is a float64 is skipped when the
    value does not parse: no error, and no length comparison. *)
Lemma check_rule_float_unparsed (kind : string) (f : float64) (m s : string) :
  kind = "min" \/ kind = "max" ->
  ParseFloat s = None ->
  check_rule (mkRule kind (RFloat64 f) m) s = None.
Proof.
  intros [-> | ->] Hparse; unfold check_rule; cbn; rewrite Hparse; reflexivity.
Qed.

(** A rule whose type has no case in the switch never fails. *)
Lemma check_rule_required (rule : ValidationRule) (s : string) :
  vr_Type rule = "required" -> check_rule rule s = None.
Proof.
  intros Hty. unfold check_rule. rewrite Hty. reflexivity.
Qed.

Lemma check_rules_app (rules1 rules2 : list ValidationRule) (s : string) :
  check_rules (rules1 ++ rules2) s =
  match check_rules rules1 s with
  | Some e => Some e
  | None => check_rules rules2 s
  end.
Proof.
  induction rules1 as [| rule rules1 IH]; cbn; [reflexivity |].
  destruct (check_rule rule s); [reflexivity | exact IH].
Qed.

(** C3. A required parameter with the single rule [min 18.0] and message
    [m]: the value 20 passes, the value 15 fails with the rule's message, and
    the value abc, which is no number, passes: the rule is skipped and its
    threshold is not compared with the length of the value. *)
Theorem Validate_min_float_threshold (p : ApiParameter) (m : string) :
  p_Required p = true ->
  p_Validations p = [mkRule "min" (RFloat64 (float64_of_Z 18)) m] ->
  Validate p (ArgString "20") = None /\
  Validate p (ArgString "15") = Some (ErrorfMsg m) /\
  Validate p (ArgString "abc") = None.
Proof.
  intros Hreq Hrules. unfold Validate. rewrite Hreq, Hrules.
  cbn [andb negb String.eqb Ascii.eqb Bool.eqb check_rules].
  unfold check_rule. cbn [vr_Type vr_Value vr_Message String.eqb Ascii.eqb Bool.eqb].
  rewrite ParseFloat_20, ParseFloat_15, ParseFloat_abc.
  repeat split; reflexivity.
Qed.

(** C10. A rule of type required in the rule list changes nothing: with
    the rule or without it [Validate] returns the same for every value; and
    what a missing (nil or empty) value gives depends on the [Required] flag
    alone, whatever the rules are. *)
Theorem Validate_required_rule_inert
    (p : ApiParameter) (rules1 rules2 : list ValidationRule)
    (rule : ValidationRule) (value : ArgValue) :
  vr_Type rule = "required" ->
  Validate (set_Validations p (rules1 ++ rule :: rules2)) value =
  Validate (set_Validations p (rules1 ++ rules2)) value /\
  Validate (set_Validations p (rules1 ++ rule :: rules2)) ArgNil =
    (if p_Required p then Some (required_error p) else None) /\
  Validate (set_Validations p (rules1 ++ rule :: rules2)) (ArgString EmptyString) =
    (if p_Required p then Some (required_error p) else None).
Proof.
  intros Hty. split; [| split].
  - unfold Validate. cbn [p_Required p_Name p_Validations set_Validations].
    destruct value as [| s | s]; try reflexivity;
      rewrite !check_rules_app; cbn [check_rules];
      rewrite (check_rule_required rule s Hty); reflexivity.
  - reflexivity.
  - unfold Validate. cbn [p_Required p_Name p_Validations set_Validations].
    destruct (p_Required p); reflexivity.
Qed.

(** ** Struct tags *)

Lemma split_on_no_sep (s : string) :
  strings_Contains s "," = false -> split_on "," s = (s, []).
Proof.
  induction s as [| c s IH]; [reflexivity |].
  cbn [strings_Contains String.prefix].
  destruct (ascii_dec "," c) as [Heq | Hne]; cbn [orb].
  { assert (Hp : String.prefix EmptyString s = true) by (destruct s; reflexivity).
    rewrite Hp. discriminate. }
  intros Hc. cbn [split_on]. rewrite (IH Hc).
  destruct (Ascii.eqb_spec c ","); [congruence | reflexivity].
Qed.

Lemma field_skipped_visible (tag : StructTag) :
  field_skipped tag = negb (externally_visible tag).
Proof.
  unfold field_skipped, externally_visible.
  destruct (String.eqb _ EmptyString), (String.eqb _ "-"); reflexivity.
Qed.

Lemma field_jsonName_spec (tag : StructTag) : field_jsonName tag = json_name tag.
Proof.
  unfold field_jsonName, json_name, strings_Split.
  destruct (strings_Contains (Tag_Get tag "json") ",") eqn:Hc.
  - destruct (split_on "," (Tag_Get tag "json")); reflexivity.
  - rewrite (split_on_no_sep _ Hc). reflexivity.
Qed.

Lemma fold_omitempty (opts : list string) (b : bool) :
  fold_left (fun req opt => if String.eqb opt "omitempty" then false else req) opts b =
  b && negb (bool_decide ("omitempty" ∈ opts)).
Proof.
  revert b. induction opts as [| opt opts IH]; intros b; cbn [fold_left].
  - rewrite bool_decide_eq_false_2 by (apply not_elem_of_nil). destruct b; reflexivity.
  - rewrite IH. destruct (String.eqb_spec opt "omitempty") as [-> | Hne].
    + rewrite (bool_decide_eq_true_2 ("omitempty" ∈ "omitempty" :: opts)) by (left).
      destruct b; reflexivity.
    + f_equal. f_equal. apply bool_decide_ext. rewrite elem_of_cons.
      split; [intros Hin; right; exact Hin | intros [Heq | Hin]; [congruence | exact Hin]].
Qed.

Lemma existsb_elem_of (x : string) (l : list string) :
  existsb (fun v => String.eqb v x) l = bool_decide (x ∈ l).
Proof.
  induction l as [| y l IH]; cbn [existsb].
  - rewrite bool_decide_eq_false_2 by (apply not_elem_of_nil). reflexivity.
  - rewrite IH. destruct (String.eqb_spec y x) as [-> | Hne].
    + rewrite (bool_decide_eq_true_2 (x ∈ x :: l)) by (left). reflexivity.
    + cbn [orb]. apply bool_decide_ext. rewrite elem_of_cons.
      split; [intros Hin; right; exact Hin | intros [Heq | Hin]; [congruence | exact Hin]].
Qed.

Lemma field_isRequired_spec (tag : StructTag) :
  field_isRequired tag = marked_required tag.
Proof.
  unfold field_isRequired, marked_required, json_options, strings_Split.
  set (json := Tag_Get tag "json"). set (validate := Tag_Get tag "validate").
  assert (Hopt : (if strings_Contains json ","
                  then fold_left (fun req opt => if String.eqb opt "omitempty" then false else req)
                         (tl (let '(first, others) := split_on "," json in first :: others)) true
                  else true) = negb (bool_decide ("omitempty" ∈ (split_on "," json).2))).
  { destruct (strings_Contains json ",") eqn:Hc.
    - rewrite fold_omitempty. destruct (split_on "," json); reflexivity.
    - rewrite (split_on_no_sep _ Hc). cbn [snd].
      rewrite bool_decide_eq_false_2 by (apply not_elem_of_nil). reflexivity. }
  rewrite Hopt. clear Hopt.
  destruct (String.eqb_spec validate EmptyString) as [-> | Hne].
  - cbn [split_on]. rewrite (bool_decide_eq_false_2 ("required" ∈ [EmptyString])).
    + rewrite orb_false_r. reflexivity.
    + rewrite list_elem_of_singleton. discriminate.
  - rewrite (existsb_elem_of "required").
    destruct (split_on "," validate) as [first others].
    destruct (bool_decide ("required" ∈ first :: others));
      [rewrite orb_true_r | rewrite orb_false_r]; reflexivity.
Qed.

(** ** Schema synthesis is total *)

Ltac monad_step :=
  unfold bind, wrapErr, ret, fail, time_Now; cbn beta iota.

(** The slice case: a byte slice is a string, any other slice an array. *)
Lemma createSchema_slice (elem : GoType) :
  createSchemaFromGoType (TSlice elem) =
  match elem with
  | TBasic KUint8 => ret (Some (schema_number "string" "byte"))
  | _ => createSchemaFromGoType (TArray 0 elem)
  end.
Proof. destruct elem as [[] | | | | | | | |]; reflexivity. Qed.

Lemma createSchema_array (len : N) (elem : GoType) :
  createSchemaFromGoType (TArray len elem) =
  bind (wrapErr "failed to create schema for array element"
          (createSchemaFromGoType elem))
       (fun elemSchema => ret (Some (schema2 "array" "items" (boxed elemSchema)))).
Proof. reflexivity. Qed.

(** Synthesis of a type always returns a schema, never an error and never a
    nil map; the field loop adds exactly the visible names to the properties
    and appends exactly the required names, in declaration order. *)
Lemma synthesis_total :
  (forall t n, exists schema n',
      createSchemaFromGoType t n = (Ok (Some schema), n')) /\
  (forall fs props required n, exists props' n',
      struct_fields fs props required n = (Ok (props', (required ++ required_names fs)%list), n') /\
      dom props' = dom props ∪ list_to_set (visible_names fs)).
Proof.
  apply GoType_mutind.
  - intros k n. destruct k; cbn; monad_step; eauto.
  - intros len elem IH n. cbn. monad_step.
    destruct (IH n) as (s & n' & ->). eauto.
  - intros elem IH n. destruct (IH n) as (s & n' & Hs).
    rewrite createSchema_slice.
    destruct elem as [[] | | | | | | | |];
      try (monad_step; eauto; fail);
      rewrite createSchema_array; monad_step; rewrite Hs; eauto.
  - intros elem IH n. cbn. apply IH.
  - intros key _ elem IH n. cbn. monad_step.
    destruct (IH n) as (s & n' & ->). eauto.
  - intros elem _ n. cbn. monad_step. eauto.
  - intros sig n. cbn. monad_step. eauto.
  - intros n. cbn. monad_step. eauto.
  - intros name timeMethod fields IH n. cbn.
    destruct (String.eqb name "time.Time"); [monad_step; eauto |].
    destruct timeMethod; [monad_step; eauto |].
    monad_step. destruct (IH ∅ [] n) as (props & n' & -> & _). eauto.
  - intros props required n. cbn. monad_step. exists props, n. split.
    + rewrite app_nil_r. reflexivity.
    + cbn. rewrite union_empty_r_L. reflexivity.
  - intros fieldName tag ty IHty more IH props required n.
    cbn [struct_fields]. unfold visible_names, required_names, visible_tags.
    cbn [field_tags List.filter]. rewrite field_skipped_visible.
    destruct (externally_visible tag) eqn:Hvis; cbn [negb].
    + monad_step. destruct (IHty n) as (s & n1 & ->).
      rewrite field_jsonName_spec, field_isRequired_spec.
      cbn [List.filter].
      destruct (IH (<[json_name tag := AMap (decorate tag s)]> props)
                  (if marked_required tag then (required ++ [json_name tag])%list else required)
                  n1) as (props' & n' & -> & Hdom).
      exists props', n'. split.
      * f_equal. f_equal. unfold required_names, visible_tags.
        destruct (marked_required tag); cbn [fmap list_fmap].
        -- rewrite <- app_assoc. reflexivity.
        -- reflexivity.
      * rewrite Hdom, dom_insert_L. unfold visible_names, visible_tags.
        cbn [fmap list_fmap list_to_set].
        rewrite (assoc_L (∪)), (comm_L (∪) (dom props)). reflexivity.
    + destruct (IH props required n) as (props' & n' & -> & Hdom).
      exists props', n'. split; [reflexivity | exact Hdom].
Qed.

Lemma object_schema_type (props : SchemaMap) (required : list string) :
  object_schema props required !! "type" = Some (AString "object").
Proof. unfold object_schema, schema1. destruct required; by simplify_map_eq. Qed.

Lemma object_schema_properties (props : SchemaMap) (required : list string) :
  object_schema props required !! "properties" = Some (AMap props).
Proof. unfold object_schema, schema1. destruct required; by simplify_map_eq. Qed.

Lemma object_schema_required (props : SchemaMap) (required : list string) :
  object_schema props required !! "required" =
  match required with
  | [] => None
  | _ :: _ => Some (AStrings required)
  end.
Proof. unfold object_schema, schema1. destruct required; by simplify_map_eq. Qed.

(** The schema of a struct reached through [SchemaFromStruct]. *)
Lemma struct_schema (fields : Fields) (n : nat) :
  exists props n',
    struct_fields fields ∅ [] n = (Ok (props, required_names fields), n') /\
    dom props = list_to_set (visible_names fields).
Proof.
  destruct (proj2 synthesis_total fields ∅ [] n) as (props & n' & Hrun & Hdom).
  exists props, n'. split; [exact Hrun |].
  rewrite Hdom, dom_empty_L, union_empty_l_L. reflexivity.
Qed.

(** ** SafeSchemaFromStruct on nil *)

Lemma list_to_set_nil_inv (l : list string) :
  list_to_set (C := gset string) l = ∅ -> l = [].
Proof.
  destruct l as [| x l]; [reflexivity |]. intros Hempty.
  assert (Hx : x ∈ (list_to_set (x :: l) : gset string))
    by (apply elem_of_list_to_set; left).
  rewrite Hempty in Hx. exfalso. exact (not_elem_of_empty x Hx).
Qed.

Lemma visible_none_required_none (fields : Fields) :
  visible_names fields = [] -> required_names fields = [].
Proof.
  unfold visible_names, required_names. intros Hnone.
  apply fmap_nil_inv in Hnone. rewrite Hnone. reflexivity.
Qed.


(** ** Synthesis and the clock *)

(** On a type that holds no [time.Time], synthesis does not read the clock:
    its result is the same at every time, and the clock is left alone. *)
Lemma clock_free_synthesis :
  (forall t, clock_free t = true ->
     exists res, forall n, createSchemaFromGoType t n = (res, n)) /\
  (forall fs, clock_free_fields fs = true ->
     forall props required, exists res,
       forall n, struct_fields fs props required n = (res, n)).
Proof.
  apply GoType_mutind.
  - intros k _. destruct k; eexists; intros n; reflexivity.
  - intros len elem IH Hfree. destruct (IH Hfree) as [[s | e] Hres];
      eexists; intros n; rewrite createSchema_array; monad_step;
      rewrite Hres; reflexivity.
  - intros elem IH Hfree. destruct (IH Hfree) as [[s | e] Hres];
      rewrite createSchema_slice;
      destruct elem as [[] | | | | | | | |];
      eexists; intros n; try reflexivity;
      rewrite createSchema_array; monad_step; rewrite Hres; reflexivity.
  - intros elem IH Hfree. exact (IH Hfree).
  - intros key _ elem IH Hfree. cbn in Hfree. apply andb_prop in Hfree as [_ Hfree].
    destruct (IH Hfree) as [[s | e] Hres];
      eexists; intros n; cbn [createSchemaFromGoType]; monad_step;
      rewrite Hres; reflexivity.
  - intros elem _ _. eexists; intros n; reflexivity.
  - intros sig _. eexists; intros n; reflexivity.
  - intros _. eexists; intros n; reflexivity.
  - intros name timeMethod fields IH Hfree. cbn in Hfree.
    apply andb_prop in Hfree as [Hname Hfree].
    cbn [createSchemaFromGoType].
    destruct (String.eqb name "time.Time"); [discriminate |].
    destruct timeMethod; [eexists; intros n; reflexivity |].
    destruct (IH Hfree ∅ []) as [[[props required] | e] Hres];
      eexists; intros n; monad_step; rewrite Hres; reflexivity.
  - intros _ props required. eexists; intros n; reflexivity.
  - intros fieldName tag ty IHty more IH Hfree props required.
    cbn in Hfree. apply andb_prop in Hfree as [Hty Hmore].
    cbn [struct_fields].
    destruct (field_skipped tag); [exact (IH Hmore props required) |].
    destruct (IHty Hty) as [[[s |] | e] Hres].
    + destruct (IH Hmore (<[field_jsonName tag := AMap (decorate tag s)]> props)
                  (if field_isRequired tag
                   then (required ++ [field_jsonName tag])%list else required))
        as [res' Hres'].
      exists res'. intros n. monad_step. rewrite Hres. apply Hres'.
    + destruct (IH Hmore props required) as [res' Hres'].
      exists res'. intros n. monad_step. rewrite Hres. apply Hres'.
    + eexists. intros n. monad_step. rewrite Hres. reflexivity.
Qed.

Lemma clock_free_SafeSchemaFromStruct (v : Iface) :
  clock_free_value v = true ->
  exists res, forall n, SafeSchemaFromStruct v n = (res, n).
Proof.
  unfold clock_free_value, SafeSchemaFromStruct, SchemaFromStruct.
  destruct (reflect_TypeOf v) as [t |]; [| eexists; intros n; reflexivity].
  intros Hfree.
  assert (Hderef : clock_free (deref_once t) = true)
    by (destruct t; exact Hfree).
  destruct (deref_once t) as [| | | | | | | | name timeMethod fields];
    try (eexists; intros n; reflexivity).
  cbn in Hderef. apply andb_prop in Hderef as [_ Hfields].
  destruct (proj2 clock_free_synthesis fields Hfields ∅ [])
    as [[[props required] | e] Hres];
    eexists; intros n; cbn [is_struct negb]; monad_step; rewrite Hres; reflexivity.
Qed.

Lemma clock_free_build_operation (d : APIDefinition) :
  clock_free_value (def_Request d) = true ->
  clock_free_value (def_Response d) = true ->
  exists res, forall n, build_operation d n = (res, n).
Proof.
  intros Hreq Hresp. unfold build_operation.
  destruct (clock_free_SafeSchemaFromStruct _ Hreq) as [[[s1 |] | e1] H1];
    destruct (clock_free_SafeSchemaFromStruct _ Hresp) as [[[s2 |] | e2] H2];
    destruct (is_nil_interface (def_Request d));
    destruct (is_nil_interface (def_Response d));
    eexists; intros n; monad_step; rewrite ?H1; cbn beta iota; rewrite ?H2;
    reflexivity.
Qed.

Lemma clock_free_build_paths (defs : list APIDefinition) :
  Forall clock_free_definition defs ->
  forall paths, exists res, forall n, build_paths defs paths n = (res, n).
Proof.
  induction 1 as [| d defs [Hreq Hresp] _ IH]; intros paths.
  - eexists; intros n; reflexivity.
  - cbn [build_paths].
    destruct (clock_free_build_operation d Hreq Hresp) as [[op | e] Hop].
    + destruct (IH (<[def_Path d := set_method (def_Method d) op
                         (default empty_PathItem (paths !! def_Path d))]> paths))
        as [res Hres].
      exists res. intros n. monad_step. rewrite Hop. apply Hres.
    + eexists. intros n. monad_step. rewrite Hop. reflexivity.
Qed.

Lemma clock_free_BuildOpenAPI (r : APIRouter) :
  Forall clock_free_definition (r_definitions r) ->
  exists res, forall n, BuildOpenAPI r n = (res, n).
Proof.
  intros Hfree. unfold BuildOpenAPI.
  destruct (clock_free_build_paths _ Hfree ∅) as [[paths | e] Hres];
    eexists; intros n; monad_step; rewrite Hres; reflexivity.
Qed.

Lemma clock_free_GenerateSwagger (r : APIRouter) :
  Forall clock_free_definition (r_definitions r) ->
  exists res r', forall n, GenerateSwagger r n = (res, r', n).
Proof.
  intros Hfree. unfold GenerateSwagger.
  destruct (String.eqb (r_title r) EmptyString);
    [eexists _, _; intros n; reflexivity |].
  destruct (String.eqb (r_version r) EmptyString);
    [eexists _, _; intros n; reflexivity |].
  destruct (clock_free_BuildOpenAPI r Hfree) as [[doc | e] Hres].
  - destruct (map_empty (doc_Paths doc)) eqn:Hempty;
      [| destruct (json_MarshalIndent (finish_doc r doc)) eqn:Hjson];
      eexists _, _; intros n; rewrite Hres, Hempty, ?Hjson; reflexivity.
  - eexists _, _. intros n. rewrite Hres. reflexivity.
Qed.

(** ** GenerateSwagger *)

(** The router after a call: untouched on an error, the cache written on
    success. *)
Lemma GenerateSwagger_router (r : APIRouter) (n : nat) :
  (exists e, (GenerateSwagger r n).1 = (Err e, r)) \/
  (exists doc data, (GenerateSwagger r n).1 = (Ok doc, cache_doc r data)).
Proof.
  unfold GenerateSwagger.
  destruct (String.eqb (r_title r) EmptyString); [left; eexists; reflexivity |].
  destruct (String.eqb (r_version r) EmptyString); [left; eexists; reflexivity |].
  destruct (BuildOpenAPI r n) as [[doc | e] n']; [| left; eexists; reflexivity].
  destruct (map_empty (doc_Paths doc)); [left; eexists; reflexivity |].
  destruct (json_MarshalIndent (finish_doc r doc));
    [right; eexists _, _; reflexivity | left; eexists; reflexivity].
Qed.

(** The cached bytes and the flag are not read by a later call. *)
Lemma GenerateSwagger_cache (r : APIRouter) (data : string) (n : nat) :
  GenerateSwagger (cache_doc r data) n =
  match GenerateSwagger r n with
  | (Ok doc, r', n') => (Ok doc, r', n')
  | (Err e, _, n') => (Err e, cache_doc r data, n')
  end.
Proof.
  unfold GenerateSwagger.
  change (r_title (cache_doc r data)) with (r_title r).
  change (r_version (cache_doc r data)) with (r_version r).
  change (BuildOpenAPI (cache_doc r data)) with (BuildOpenAPI r).
  destruct (String.eqb (r_title r) EmptyString); [reflexivity |].
  destruct (String.eqb (r_version r) EmptyString); [reflexivity |].
  destruct (BuildOpenAPI r n) as [[doc | e] n']; [| reflexivity].
  destruct (map_empty (doc_Paths doc)); [reflexivity |].
  change (finish_doc (cache_doc r data) doc) with (finish_doc r doc).
  destruct (json_MarshalIndent (finish_doc r doc)); reflexivity.
Qed.

(** C2, as the code has it. When no registered request or response type
    holds a [time.Time], a second call of [GenerateSwagger], made at any
    later moment on the router the first call left, returns the same
    document or error and leaves the same cached bytes and flag. (A
    [time.Time] field puts the time of the call into the document.) *)
Theorem GenerateSwagger_repeatable (r : APIRouter) (n m : nat) :
  Forall clock_free_definition (r_definitions r) ->
  (GenerateSwagger (GenerateSwagger r n).1.2 m).1.1 = (GenerateSwagger r n).1.1 /\
  r_swaggerDoc (GenerateSwagger (GenerateSwagger r n).1.2 m).1.2 =
    r_swaggerDoc (GenerateSwagger r n).1.2 /\
  r_generated (GenerateSwagger (GenerateSwagger r n).1.2 m).1.2 =
    r_generated (GenerateSwagger r n).1.2.
Proof.
  intros Hfree.
  destruct (clock_free_GenerateSwagger r Hfree) as (res & r' & Hrun).
  assert (Hsecond : GenerateSwagger r' m = (res, r', m)).
  { destruct (GenerateSwagger_router r n) as [[e He] | (doc & data & Hd)];
      rewrite (Hrun n) in *; cbn [fst] in *.
    - injection He as -> ->. apply Hrun.
    - injection Hd as -> ->. rewrite GenerateSwagger_cache, (Hrun m). reflexivity. }
  rewrite (Hrun n). cbn [fst snd]. rewrite Hsecond. cbn [fst snd]. auto.
Qed.

(** ** Synthesis failures *)









(** ** Register *)

Lemma violation_error_inj (v1 v2 : Violation) (d1 d2 : APIDefinition) :
  violation_error v1 d1 = violation_error v2 d2 -> v1 = v2.
Proof. destruct v1, v2; cbn; intros H; (reflexivity || discriminate H). Qed.

Lemma violation_error_not_nil (v : Violation) (d : APIDefinition) :
  violation_error v d <> nil_definition_error.
Proof. destruct v; cbn; discriminate. Qed.

(** C5, as the code has it. [Register] turns down, with an error of its
    own for each case and the router left as it was: a nil definition; a
    definition with no handler at all (neither [Handler] nor
    [NativeHandler]); an empty path; a method whose upper-case form is not
    one of GET, POST, PUT, DELETE, PATCH. Any other definition, one with
    both handlers set included, is accepted: the error is nil and the
    definition is appended to the registered ones. *)
Theorem Register_checks (r : APIRouter) :
  Register r None = (Some nil_definition_error, r) /\
  (forall d : APIDefinition,
      Register r (Some d) =
      match violation d with
      | Some v => (Some (violation_error v d), r)
      | None => (None, add_route r (strings_ToUpper (def_Method d)) d)
      end) /\
  (forall (d : APIDefinition) (method : string),
      r_definitions (add_route r method d) = (r_definitions r ++ [d])%list /\
      r_swaggerDoc (add_route r method d) = r_swaggerDoc r) /\
  (forall (v1 v2 : Violation) (d1 d2 : APIDefinition),
      v1 <> v2 -> violation_error v1 d1 <> violation_error v2 d2) /\
  (forall (v : Violation) (d : APIDefinition),
      violation_error v d <> nil_definition_error).
Proof.
  split; [reflexivity |]. split; [| split; [| split]].
  - intros d. unfold Register, violation.
    destruct (def_NativeHandler d) as [native |], (def_Handler d) as [handler |];
      cbn [ptr_empty andb].
    + rewrite decide_False by (intros [? _]; discriminate).
      destruct (String.eqb_spec (def_Path d) EmptyString) as [Hp | Hp].
      * rewrite decide_True by exact Hp. reflexivity.
      * rewrite decide_False by exact Hp.
        destruct (decide (strings_ToUpper (def_Method d) ∈ supported_methods)) as [Hm | Hm].
        -- rewrite bool_decide_eq_true_2 by exact Hm. reflexivity.
        -- rewrite bool_decide_eq_false_2 by exact Hm. reflexivity.
    + rewrite decide_False by (intros [_ ?]; discriminate).
      destruct (String.eqb_spec (def_Path d) EmptyString) as [Hp | Hp].
      * rewrite decide_True by exact Hp. reflexivity.
      * rewrite decide_False by exact Hp.
        destruct (decide (strings_ToUpper (def_Method d) ∈ supported_methods)) as [Hm | Hm].
        -- rewrite bool_decide_eq_true_2 by exact Hm. reflexivity.
        -- rewrite bool_decide_eq_false_2 by exact Hm. reflexivity.
    + rewrite decide_False by (intros [? _]; discriminate).
      destruct (String.eqb_spec (def_Path d) EmptyString) as [Hp | Hp].
      * rewrite decide_True by exact Hp. reflexivity.
      * rewrite decide_False by exact Hp.
        destruct (decide (strings_ToUpper (def_Method d) ∈ supported_methods)) as [Hm | Hm].
        -- rewrite bool_decide_eq_true_2 by exact Hm. reflexivity.
        -- rewrite bool_decide_eq_false_2 by exact Hm. reflexivity.
    + rewrite decide_True by (split; reflexivity). reflexivity.
  - intros d method. split; reflexivity.
  - intros v1 v2 d1 d2 Hne Heq. exact (Hne (violation_error_inj _ _ _ _ Heq)).
  - apply violation_error_not_nil.
Qed.

(** ** The operations of a generated document *)

Lemma SafeSchemaFromStruct_ok (v : Iface) (n n' : nat) (res : option SchemaMap) :
  SafeSchemaFromStruct v n = (Ok res, n') -> exists schema, res = Some schema.
Proof.
  unfold SafeSchemaFromStruct, SchemaFromStruct.
  destruct (reflect_TypeOf v) as [t |]; [| intros [= <- <-]; eauto].
  destruct (deref_once t) as [| | | | | | | | name timeMethod fields];
    cbn [is_struct negb]; monad_step; try discriminate.
  destruct (struct_schema fields n) as (props & n1 & -> & _).
  intros [= <- <-]. eauto.
Qed.

(** What the loop body of [BuildOpenAPI] builds: no operation identifier
    and no security requirement (neither is copied from the definition),
    the responses 400 and 500, never 401 or 403, and the response 200 with
    the synthesized schema exactly when the definition has a response
    sample. *)
Lemma build_operation_ok (d : APIDefinition) (n n' : nat) (op : Operation) :
  build_operation d n = (Ok op, n') ->
  op_OperationID op = EmptyString /\
  op_Security op = [] /\
  op_Tags op = def_Tags d /\
  op_Responses op !! "400" = Some (mkResponse "Bad Request" ∅) /\
  op_Responses op !! "500" = Some (mkResponse "Internal Server Error" ∅) /\
  op_Responses op !! "401" = None /\
  op_Responses op !! "403" = None /\
  (is_nil_interface (def_Response d) = true -> op_Responses op !! "200" = None) /\
  (is_nil_interface (def_Response d) = false ->
   exists (schema : SchemaMap) (k k' : nat),
     SafeSchemaFromStruct (def_Response d) k = (Ok (Some schema), k') /\
     op_Responses op !! "200" = Some (mkResponse "Success" (json_content schema))).
Proof.
  unfold build_operation. monad_step.
  destruct (is_nil_interface (def_Request d)).
  - destruct (is_nil_interface (def_Response d)).
    + intros [= <- <-]. cbn.
      repeat split; try discriminate; by simplify_map_eq.
    + destruct (SafeSchemaFromStruct (def_Response d) n) as [[res | e] n2] eqn:H2;
        [| discriminate].
      destruct (SafeSchemaFromStruct_ok _ _ _ _ H2) as [schema ->].
      intros [= <- <-]. cbn.
      repeat split; try discriminate; try (by simplify_map_eq).
      intros _. exists schema, n, n2. split; [exact H2 | by simplify_map_eq].
  - destruct (SafeSchemaFromStruct (def_Request d) n) as [[res1 | e1] n1] eqn:H1;
      [| discriminate].
    destruct (SafeSchemaFromStruct_ok _ _ _ _ H1) as [schema1 ->].
    destruct (is_nil_interface (def_Response d)).
    + intros [= <- <-]. cbn.
      repeat split; try discriminate; by simplify_map_eq.
    + destruct (SafeSchemaFromStruct (def_Response d) n1) as [[res | e] n2] eqn:H2;
        [| discriminate].
      destruct (SafeSchemaFromStruct_ok _ _ _ _ H2) as [schema ->].
      intros [= <- <-]. cbn.
      repeat split; try discriminate; try (by simplify_map_eq).
      intros _. exists schema, n1, n2. split; [exact H2 | by simplify_map_eq].
Qed.

(** On such an operation the defaulting loop of [GenerateSwagger] changes
    the operation identifier only. *)
Lemma add_defaults_built (path : string) (op : Operation) :
  op_OperationID op = EmptyString ->
  op_Security op = [] ->
  is_Some (op_Responses op !! "400") ->
  is_Some (op_Responses op !! "500") ->
  add_defaults path op = set_OperationID op (generateOperationID path op).
Proof.
  intros Hid Hsec H400 H500. unfold add_defaults, has_response. cbv zeta.
  rewrite (bool_decide_eq_true_2 _ H400).
  rewrite Hsec. cbn [list_empty negb]. rewrite andb_false_r.
  rewrite Hsec. cbn [list_empty negb]. rewrite andb_false_r.
  rewrite (bool_decide_eq_true_2 _ H500). rewrite Hid.
  reflexivity.
Qed.

Lemma get_method_empty (method : string) : get_method method empty_PathItem = None.
Proof.
  unfold get_method, empty_PathItem. cbn.
  repeat match goal with |- context [String.eqb ?a ?b] => destruct (String.eqb a b) end;
    reflexivity.
Qed.

Lemma get_method_default_item (method path : string) (item : PathItem) :
  get_method method (default_item path item) =
  add_defaults path <$> get_method method item.
Proof.
  unfold get_method, default_item. cbn.
  repeat match goal with |- context [String.eqb ?a ?b] => destruct (String.eqb a b) end;
    reflexivity.
Qed.

(** Reading a slot after [set_method]: the new operation under the very
    method name given, when that is one of the five; the old content
    otherwise. *)
Lemma get_set_method (method method' : string) (op op' : Operation) (item : PathItem) :
  get_method method' (set_method method op item) = Some op' ->
  (method' = method /\ op' = op) \/ get_method method' item = Some op'.
Proof.
  unfold get_method, set_method.
  destruct (String.eqb_spec method "GET") as [-> | ?];
    [| destruct (String.eqb_spec method "POST") as [-> | ?];
       [| destruct (String.eqb_spec method "PUT") as [-> | ?];
          [| destruct (String.eqb_spec method "DELETE") as [-> | ?];
             [| destruct (String.eqb_spec method "PATCH") as [-> | ?]]]]];
    (destruct (String.eqb_spec method' "GET") as [-> | ?];
     [| destruct (String.eqb_spec method' "POST") as [-> | ?];
        [| destruct (String.eqb_spec method' "PUT") as [-> | ?];
           [| destruct (String.eqb_spec method' "DELETE") as [-> | ?];
              [| destruct (String.eqb_spec method' "PATCH") as [-> | ?]]]]]);
    cbn; intros H; first [right; exact H | left; split; congruence].
Qed.

Lemma build_paths_ops (all defs : list APIDefinition)
    (paths paths' : gmap string PathItem) (n n' : nat) :
  (forall d, d ∈ defs -> d ∈ all) ->
  ops_from all paths ->
  build_paths defs paths n = (Ok paths', n') ->
  ops_from all paths'.
Proof.
  revert paths n. induction defs as [| d defs IH]; intros paths n Hsub Hops.
  - cbn. intros [= <- <-]. exact Hops.
  - cbn [build_paths]. monad_step.
    destruct (build_operation d n) as [[op | e] n1] eqn:Hop; [| discriminate].
    apply IH.
    + intros d' Hd'. apply Hsub. right. exact Hd'.
    + intros path item method op' Hlookup Hget.
      destruct (decide (def_Path d = path)) as [<- | Hne].
      * rewrite lookup_insert_eq in Hlookup. injection Hlookup as <-.
        apply get_set_method in Hget as [[-> ->] | Hget].
        -- exists d, n, n1. split; [apply Hsub; left | auto].
        -- destruct (paths !! def_Path d) as [item |] eqn:Hold; cbn in Hget.
           ++ exact (Hops _ _ _ _ Hold Hget).
           ++ rewrite get_method_empty in Hget. discriminate.
      * rewrite lookup_insert_ne in Hlookup by exact Hne.
        exact (Hops _ _ _ _ Hlookup Hget).
Qed.

(** Every operation of a document that [GenerateSwagger] returns comes from
    a registered definition whose method is, as spelled, one of the five
    upper-case names; it has the responses 400 and 500 and never 401 or 403,
    the response 200 exactly when the definition has a response sample, no
    security requirement, and a synthesized operation identifier: neither
    the security requirements nor the operation identifier of the definition
    reach the document. *)
Theorem GenerateSwagger_operations
    (r r' : APIRouter) (n n' : nat) (doc : OpenAPIDoc)
    (path method : string) (item : PathItem) (op : Operation) :
  GenerateSwagger r n = (Ok doc, r', n') ->
  doc_Paths doc !! path = Some item ->
  get_method method item = Some op ->
  exists d : APIDefinition,
    d ∈ r_definitions r /\ def_Path d = path /\ def_Method d = method /\
    is_Some (op_Responses op !! "400") /\
    is_Some (op_Responses op !! "500") /\
    op_Responses op !! "401" = None /\
    op_Responses op !! "403" = None /\
    (is_Some (op_Responses op !! "200") <-> def_Response d <> NilInterface) /\
    op_Security op = [] /\
    op_OperationID op = generateOperationID path op.
Proof.
  unfold GenerateSwagger.
  destruct (String.eqb (r_title r) EmptyString); [discriminate |].
  destruct (String.eqb (r_version r) EmptyString); [discriminate |].
  destruct (BuildOpenAPI r n) as [[doc0 | e] n0] eqn:Hbuild; [| discriminate].
  destruct (map_empty (doc_Paths doc0)); [discriminate |].
  destruct (json_MarshalIndent (finish_doc r doc0)); [| discriminate].
  intros [= <- <- <-]. cbn [finish_doc doc_Paths].
  rewrite map_lookup_imap. destruct (doc_Paths doc0 !! path) as [item0 |] eqn:Hitem;
    [| discriminate].
  cbn. intros [= <-]. rewrite get_method_default_item.
  destruct (get_method method item0) as [op0 |] eqn:Hget; [| discriminate].
  cbn. intros [= <-].
  assert (Hops : ops_from (r_definitions r) (doc_Paths doc0)).
  { unfold BuildOpenAPI in Hbuild. revert Hbuild. monad_step.
    destruct (build_paths (r_definitions r) ∅ n) as [[paths | e] n1] eqn:Hpaths;
      [| discriminate].
    intros [= <- <-]. cbn [doc_Paths].
    apply (build_paths_ops (r_definitions r) (r_definitions r) ∅ paths n n1);
      [auto | | exact Hpaths].
    intros p i m o Hempty. rewrite lookup_empty in Hempty. discriminate. }
  destruct (Hops _ _ _ _ Hitem Hget) as (d & k & k' & Hin & Hpath & Hmethod & Hbuilt).
  destruct (build_operation_ok _ _ _ _ Hbuilt)
    as (Hid & Hsec & Htags & H400 & H500 & H401 & H403 & Hnil & Hsample).
  rewrite (add_defaults_built path op0 Hid Hsec) by (rewrite ?H400, ?H500; eauto).
  exists d. cbn [set_OperationID op_Responses op_Security op_OperationID].
  split; [exact Hin |]. split; [exact Hpath |]. split; [exact Hmethod |].
  split; [rewrite H400; eauto |]. split; [rewrite H500; eauto |].
  split; [exact H401 |]. split; [exact H403 |].
  split; [| split; [exact Hsec | reflexivity]].
  destruct (is_nil_interface (def_Response d)) eqn:Hresp.
  - rewrite (Hnil eq_refl). destruct (def_Response d); [| discriminate | discriminate].
    split; [intros [x Hx]; discriminate | intros Hne; congruence].
  - destruct (Hsample eq_refl) as (schema & k1 & k2 & _ & ->).
    split; [| eauto]. intros _ Heq. rewrite Heq in Hresp. discriminate.
Qed.

(** ** generateOperationID *)

Lemma after_close_length (s rest : string) :
  after_close s = Some rest -> (String.length rest < String.length s)%nat.
Proof.
  induction s as [| c s IH]; cbn [after_close String.length]; [discriminate |].
  destruct (Ascii.eqb c "}").
  - intros [= ->]. lia.
  - intros H. specialize (IH H). lia.
Qed.

Lemma match_placeholder_length (s rest : string) :
  match_placeholder s = Some rest -> (String.length rest < String.length s)%nat.
Proof.
  destruct s as [| open [| c s]]; cbn [match_placeholder String.length]; try discriminate.
  destruct (Ascii.eqb open "{" && negb (Ascii.eqb c "}")); [| discriminate].
  intros H. apply after_close_length in H. lia.
Qed.

(** The fuel of [remove_placeholders] never runs out: any fuel from the
    length of the text on gives the same result. *)
Lemma remove_placeholders_fuel (fuel1 fuel2 : nat) (s : string) :
  (String.length s <= fuel1)%nat ->
  (String.length s <= fuel2)%nat ->
  remove_placeholders fuel1 s = remove_placeholders fuel2 s.
Proof.
  revert fuel2 s. induction fuel1 as [| fuel1 IH]; intros fuel2 s H1 H2.
  - destruct s; [| cbn in H1; lia]. destruct fuel2; reflexivity.
  - destruct fuel2 as [| fuel2].
    + destruct s; [reflexivity | cbn in H2; lia].
    + cbn [remove_placeholders].
      destruct (match_placeholder s) as [rest |] eqn:Hmatch.
      * apply match_placeholder_length in Hmatch. apply IH; lia.
      * destruct s as [| c s]; [reflexivity |].
        cbn [String.length] in H1, H2. f_equal. apply IH; lia.
Qed.

(** The identifier of the README operation without the one it sets, and of
    a path with placeholders and runs of other bytes. *)
Lemma clean_path_examples :
  clean_path "/users/:id" = "users_id" /\
  clean_path "/users/{id}/posts/{post_id}" = "users_posts" /\
  clean_path "/a{}b--c/" = "a_b_c".
Proof. repeat split; reflexivity. Qed.

Lemma all_bytes_replace_special (s : string) :
  all_bytes identifier_byte (replace_special s) = true.
Proof.
  unfold replace_special, identifier_byte.
  induction s as [| c s IH]; cbn [map_string all_bytes]; [reflexivity |].
  rewrite IH. destruct (is_alnum c) eqn:Hc; [rewrite Hc |]; reflexivity.
Qed.

Lemma starts_with_collapse (s : string) :
  starts_with "_" (collapse_underscores s) = starts_with "_" s.
Proof.
  induction s as [| c s IH]; [reflexivity |]. cbn [collapse_underscores].
  destruct (Ascii.eqb_spec c "_") as [-> | Hc].
  - destruct s as [| d s]; [reflexivity |].
    destruct (Ascii.eqb_spec d "_") as [-> | Hd]; [| reflexivity].
    rewrite IH. reflexivity.
  - reflexivity.
Qed.

Lemma all_bytes_collapse (P : ascii -> bool) (s : string) :
  all_bytes P s = true -> all_bytes P (collapse_underscores s) = true.
Proof.
  induction s as [| c s IH]; [reflexivity |].
  cbn [all_bytes collapse_underscores]. intros H.
  apply andb_prop in H as [Hc Hs].
  destruct (Ascii.eqb c "_").
  - destruct s as [| d s]; [cbn; rewrite Hc; reflexivity |].
    destruct (Ascii.eqb d "_"); [exact (IH Hs) |].
    cbn [all_bytes]. rewrite Hc. exact (IH Hs).
  - cbn [all_bytes]. rewrite Hc. exact (IH Hs).
Qed.

Lemma no_double_collapse (s : string) :
  no_double_underscore (collapse_underscores s) = true.
Proof.
  induction s as [| c s IH]; [reflexivity |]. cbn [collapse_underscores].
  destruct (Ascii.eqb_spec c "_") as [-> | Hc].
  - destruct s as [| d s]; [reflexivity |].
    destruct (Ascii.eqb_spec d "_") as [-> | Hd]; [exact IH |].
    cbn [no_double_underscore]. rewrite IH, starts_with_collapse.
    cbn [starts_with]. destruct (Ascii.eqb_spec d "_"); [contradiction | reflexivity].
  - cbn [no_double_underscore]. rewrite IH.
    destruct (Ascii.eqb_spec c "_"); [contradiction | reflexivity].
Qed.

Lemma trim_left_shape (P : ascii -> bool) (s : string) :
  starts_with "_" (trim_left "_" s) = false /\
  (all_bytes P s = true -> all_bytes P (trim_left "_" s) = true) /\
  (no_double_underscore s = true -> no_double_underscore (trim_left "_" s) = true).
Proof.
  induction s as [| c s (IH1 & IH2 & IH3)]; [repeat split; reflexivity |].
  cbn [trim_left]. destruct (Ascii.eqb_spec c "_") as [-> | Hc].
  - split; [exact IH1 |]. split.
    + cbn [all_bytes]. intros H. apply andb_prop in H as [_ H]. exact (IH2 H).
    + cbn [no_double_underscore]. intros H. apply andb_prop in H as [_ H]. exact (IH3 H).
  - split; [| split; auto]. cbn [starts_with].
    destruct (Ascii.eqb_spec c "_"); [contradiction | reflexivity].
Qed.

Lemma trim_right_shape (P : ascii -> bool) (s : string) :
  ends_with "_" (trim_right "_" s) = false /\
  (starts_with "_" s = false -> starts_with "_" (trim_right "_" s) = false) /\
  (all_bytes P s = true -> all_bytes P (trim_right "_" s) = true) /\
  (no_double_underscore s = true -> no_double_underscore (trim_right "_" s) = true).
Proof.
  induction s as [| c s (IH1 & IH2 & IH3 & IH4)]; [repeat split; reflexivity |].
  cbn [trim_right all_bytes no_double_underscore starts_with].
  destruct (trim_right "_" s) as [| d t] eqn:Htrim.
  - destruct (Ascii.eqb_spec c "_") as [-> | Hc].
    + cbn [Ascii.eqb Bool.eqb]. repeat split; intros; first [reflexivity | discriminate].
    + cbn [ends_with starts_with all_bytes no_double_underscore].
      destruct (Ascii.eqb_spec c "_"); [contradiction |].
      split; [reflexivity |]. split; [reflexivity |]. split.
      * intros H. apply andb_prop in H as [-> _]. reflexivity.
      * reflexivity.
  - split; [exact IH1 |]. split; [auto |]. split.
    + intros H. apply andb_prop in H as [Hc Hs]. cbn [all_bytes] in *.
      rewrite Hc. exact (IH3 Hs).
    + intros H. apply andb_prop in H as [Hc Hs]. cbn [no_double_underscore].
      change (negb (Ascii.eqb c "_" && starts_with "_" (String d t)) &&
              no_double_underscore (String d t) = true).
      rewrite (IH4 Hs), andb_true_r.
      destruct (Ascii.eqb c "_"); [| reflexivity].
      cbn [andb negb] in Hc |- *.
      destruct (starts_with "_" s) eqn:Hs0; [discriminate |].
      rewrite (IH2 eq_refl). reflexivity.
Qed.

(** The cleaned path of an operation identifier is made of letters, digits
    and single underscores, and neither starts nor ends with one. *)
Theorem clean_path_shape (path : string) :
  all_bytes identifier_byte (clean_path path) = true /\
  no_double_underscore (clean_path path) = true /\
  starts_with "_" (clean_path path) = false /\
  ends_with "_" (clean_path path) = false.
Proof.
  unfold clean_path, strings_Trim.
  set (s := collapse_underscores
              (replace_special (remove_placeholders (String.length path) path))).
  assert (Hall : all_bytes identifier_byte s = true)
    by (apply all_bytes_collapse, all_bytes_replace_special).
  assert (Hdouble : no_double_underscore s = true) by (apply no_double_collapse).
  destruct (trim_left_shape identifier_byte s) as (L1 & L2 & L3).
  destruct (trim_right_shape identifier_byte (trim_left "_" s)) as (R1 & R2 & R3 & R4).
  auto.
Qed.

Lemma append_cons (c : ascii) (s1 s2 : string) :
  String c s1 +:+ s2 = String c (s1 +:+ s2).
Proof. reflexivity. Qed.

Lemma append_length (s1 s2 : string) :
  String.length (s1 +:+ s2) = (String.length s1 + String.length s2)%nat.
Proof.
  induction s1 as [| c s1 IH]; [reflexivity |].
  rewrite append_cons. cbn [String.length]. rewrite IH. reflexivity.
Qed.

Lemma after_close_app (x q : string) :
  all_bytes (fun c => negb (Ascii.eqb c "}")) x = true ->
  after_close (x +:+ String "}" q) = Some q.
Proof.
  induction x as [| c x IH]; [reflexivity |].
  rewrite append_cons. cbn [all_bytes after_close].
  intros H. apply andb_prop in H as [Hc Hx].
  destruct (Ascii.eqb c "}"); [discriminate | exact (IH Hx)].
Qed.

Lemma remove_placeholders_plain (p rest : string) (fuel : nat) :
  all_bytes (fun c => negb (Ascii.eqb c "{")) p = true ->
  (String.length (p +:+ rest) <= fuel)%nat ->
  remove_placeholders fuel (p +:+ rest) =
  p +:+ remove_placeholders (fuel - String.length p) rest.
Proof.
  revert fuel. induction p as [| c p IH]; intros fuel Hp Hfuel.
  - change (EmptyString +:+ rest) with rest.
    change (String.length EmptyString) with 0%nat. rewrite Nat.sub_0_r. reflexivity.
  - cbn [all_bytes] in Hp. apply andb_prop in Hp as [Hc Hp].
    rewrite !append_cons in *. cbn [String.length] in Hfuel |- *.
    destruct fuel as [| fuel]; [lia |]. cbn [remove_placeholders Nat.sub].
    assert (Hno : match_placeholder (String c (p +:+ rest)) = None).
    { unfold match_placeholder. destruct (p +:+ rest); [reflexivity |].
      destruct (Ascii.eqb c "{"); [discriminate | reflexivity]. }
    rewrite Hno. f_equal. apply IH; [exact Hp | lia].
Qed.

(** A placeholder leaves no trace in an operation identifier: a path with
    a placeholder in braces and the path without it get the same
    identifier, so do two paths that differ in the name of a placeholder
    only. *)
Theorem generateOperationID_placeholder (p x q : string) (op : Operation) :
  all_bytes (fun c => negb (Ascii.eqb c "{")) p = true ->
  x <> EmptyString ->
  all_bytes (fun c => negb (Ascii.eqb c "}")) x = true ->
  generateOperationID (p +:+ String "{" (x +:+ String "}" q)) op =
  generateOperationID (p +:+ q) op.
Proof.
  intros Hp Hx Hclose. unfold generateOperationID, clean_path.
  do 4 f_equal.
  rewrite (remove_placeholders_plain p _ _ Hp) by lia.
  rewrite (remove_placeholders_plain p q _ Hp) by lia.
  f_equal. rewrite !append_length. cbn [String.length].
  rewrite append_length. cbn [String.length].
  replace (String.length p + S (String.length x + S (String.length q)) - String.length p)%nat
    with (S (String.length x + S (String.length q))) by lia.
  replace (String.length p + String.length q - String.length p)%nat
    with (String.length q) by lia.
  cbn [remove_placeholders].
  assert (Hmatch : match_placeholder (String "{" (x +:+ String "}" q)) = Some q).
  { destruct x as [| c x]; [contradiction |].
    cbn [all_bytes] in Hclose. apply andb_prop in Hclose as [Hc Hrest].
    rewrite append_cons. cbn [match_placeholder]. rewrite Hc. cbn [Ascii.eqb Bool.eqb andb].
    exact (after_close_app x q Hrest). }
  rewrite Hmatch. f_equal. apply remove_placeholders_fuel; lia.
Qed.

(** ** The handler Register installs *)

Lemma value_in_order_dec (param : ApiParameter) (value : string) :
  (if p_Required param && String.eqb value EmptyString then false
   else if negb (String.eqb value EmptyString) then
     match Validate param (ArgString value) with Some _ => false | None => true end
   else true) = true <->
  value_in_order param value.
Proof.
  unfold value_in_order.
  destruct (String.eqb_spec value EmptyString) as [-> | Hne]; cbn [negb].
  - destruct (p_Required param); cbn [andb]; split; try discriminate; try reflexivity.
    + intros [H _]. exfalso. exact (H eq_refl eq_refl).
    + intros _. split; [discriminate | intros H; contradiction].
  - rewrite andb_false_r.
    destruct (Validate param (ArgString value)) as [e |]; split;
      try discriminate; try reflexivity.
    + intros [_ H]. specialize (H Hne). discriminate.
    + intros _. split; [intros _; exact Hne | reflexivity].
Qed.

Lemma check_valued_None (location missing invalid : string) (get : string -> string)
    (params : list ApiParameter) :
  check_valued location get missing invalid params = None <->
  Forall (fun param => p_In param = location ->
                       value_in_order param (get (p_Name param))) params.
Proof.
  induction params as [| param params IH]; cbn [check_valued].
  - split; [intros _; constructor | reflexivity].
  - rewrite Forall_cons. rewrite <- IH.
    destruct (String.eqb_spec (p_In param) location) as [Hloc | Hloc].
    + rewrite <- value_in_order_dec.
      destruct (p_Required param && String.eqb (get (p_Name param)) EmptyString).
      * split; [discriminate | intros [H _]; discriminate (H Hloc)].
      * destruct (negb (String.eqb (get (p_Name param)) EmptyString)).
        -- destruct (Validate param (ArgString (get (p_Name param)))).
           ++ split; [discriminate | intros [H _]; discriminate (H Hloc)].
           ++ split; [intros H; split; [reflexivity | exact H] | intros [_ H]; exact H].
        -- split; [intros H; split; [reflexivity | exact H] | intros [_ H]; exact H].
    + split; [intros H; split; [intros Heq; contradiction | exact H] | intros [_ H]; exact H].
Qed.

Lemma check_cookies_None (get : string -> option string) (params : list ApiParameter) :
  check_cookies get params = None <->
  Forall (fun param =>
            p_In param = "cookie" ->
            match get (p_Name param) with
            | None => p_Required param = false
            | Some value => value <> EmptyString -> Validate param (ArgString value) = None
            end) params.
Proof.
  induction params as [| param params IH]; cbn [check_cookies].
  - split; [intros _; constructor | reflexivity].
  - rewrite Forall_cons. rewrite <- IH.
    destruct (String.eqb_spec (p_In param) "cookie") as [Hloc | Hloc].
    + destruct (get (p_Name param)) as [value |].
      * destruct (String.eqb_spec value EmptyString) as [-> | Hne]; cbn [negb].
        -- split; [intros H; split; [intros _ Hc; contradiction | exact H]
                  | intros [_ H]; exact H].
        -- destruct (Validate param (ArgString value)) as [e |].
           ++ split; [discriminate | intros [H _]; discriminate (H Hloc Hne)].
           ++ split; [intros H; split; [reflexivity | exact H] | intros [_ H]; exact H].
      * destruct (p_Required param).
        -- split; [discriminate | intros [H _]; discriminate (H Hloc)].
        -- split; [intros H; split; [reflexivity | exact H] | intros [_ H]; exact H].
    + split; [intros H; split; [intros Heq; contradiction | exact H] | intros [_ H]; exact H].
Qed.

Lemma check_body_None (method : string) (api : APIDefinition) (req : GinRequest) :
  check_body method api req = None <-> body_in_order method api req.
Proof.
  unfold check_body, body_in_order.
  destruct (body_checked method api); [| split; [intros _ H; discriminate | reflexivity]].
  destruct (String.eqb_spec (req_Header req "Content-Type") EmptyString) as [Hct | Hct];
    cbn [negb andb].
  - destruct (req_BindJSON req).
    + split; [discriminate | intros H; destruct (H eq_refl) as [_ Hb]; discriminate].
    + split; [intros _ _; split; [left; exact Hct | reflexivity] | reflexivity].
  - destruct (String.prefix "application/json" (req_Header req "Content-Type")) eqn:Hpre;
      cbn [negb].
    + destruct (req_BindJSON req).
      * split; [discriminate | intros H; destruct (H eq_refl) as [_ Hb]; discriminate].
      * split; [intros _ _; split; [right; reflexivity | reflexivity] | reflexivity].
    + split; [discriminate |].
      intros H. destruct (H eq_refl) as [[Hc | Hc] _]; [contradiction | discriminate].
Qed.

Lemma dispatch_not_aborted (api : APIDefinition) : ~ is_aborted (dispatch api).
Proof.
  unfold dispatch.
  destruct (def_NativeHandler api) as [native |];
    [destruct (is_gin_HandlerFunc native) |];
    destruct (def_Handler api); cbn; auto.
Qed.

Lemma check_valued_aborts (location missing invalid : string) (get : string -> string)
    (params : list ApiParameter) (o : Outcome) :
  check_valued location get missing invalid params = Some o ->
  exists text cause, o = Aborted 400 text cause.
Proof.
  induction params as [| param params IH]; cbn [check_valued]; [discriminate |].
  destruct (String.eqb (p_In param) location); [| exact IH].
  destruct (p_Required param && String.eqb (get (p_Name param)) EmptyString);
    [intros [= <-]; eauto |].
  destruct (negb (String.eqb (get (p_Name param)) EmptyString)); [| exact IH].
  destruct (Validate param (ArgString (get (p_Name param)))); [intros [= <-]; eauto | exact IH].
Qed.

Lemma check_cookies_aborts (get : string -> option string)
    (params : list ApiParameter) (o : Outcome) :
  check_cookies get params = Some o ->
  exists text cause, o = Aborted 400 text cause.
Proof.
  induction params as [| param params IH]; cbn [check_cookies]; [discriminate |].
  destruct (String.eqb (p_In param) "cookie"); [| exact IH].
  destruct (get (p_Name param)) as [value |].
  - destruct (negb (String.eqb value EmptyString)); [| exact IH].
    destruct (Validate param (ArgString value)); [intros [= <-]; eauto | exact IH].
  - destruct (p_Required param); [intros [= <-]; eauto | exact IH].
Qed.

Lemma Forall_param_in_order (req : GinRequest) (params : list ApiParameter) :
  Forall (param_in_order req) params <->
  check_valued "path" (req_Param req)
    "missing required path parameter: " "invalid path parameter " params = None /\
  check_valued "query" (req_Query req)
    "missing required query parameter: " "invalid query parameter " params = None /\
  check_valued "header" (req_Header req)
    "missing required header: " "invalid header " params = None /\
  check_cookies (req_Cookie req) params = None.
Proof.
  rewrite !check_valued_None, check_cookies_None. unfold param_in_order.
  rewrite !Forall_forall. split.
  - intros H. split; [| split; [| split]]; intros param Hin; apply (H param Hin).
  - intros (H1 & H2 & H3 & H4) param Hin.
    exact (conj (H1 param Hin) (conj (H2 param Hin) (conj (H3 param Hin) (H4 param Hin)))).
Qed.

(** The installed handler lets a request through to the handler of the
    definition exactly when every declared parameter is in order for the
    request and the body is in order. In particular a required cookie that
    is present but empty passes, where an empty required path, query or
    header value does not; and a parameter carried anywhere else than in
    the path, the query, a header or a cookie is never looked at. *)
Theorem guard_passes_iff (method : string) (api : APIDefinition) (req : GinRequest) :
  ~ is_aborted (guard method api req) <->
  Forall (param_in_order req) (def_Params api) /\ body_in_order method api req.
Proof.
  rewrite Forall_param_in_order, <- check_body_None. unfold guard.
  destruct (check_valued "path" _ _ _ _) as [o |] eqn:H1.
  { destruct (check_valued_aborts _ _ _ _ _ _ H1) as (t & c & ->). cbn.
    split; [intros H; exfalso; exact (H I) | intros [(H & _) _]; discriminate]. }
  destruct (check_valued "query" _ _ _ _) as [o |] eqn:H2.
  { destruct (check_valued_aborts _ _ _ _ _ _ H2) as (t & c & ->). cbn.
    split; [intros H; exfalso; exact (H I) | intros [(_ & H & _) _]; discriminate]. }
  destruct (check_valued "header" _ _ _ _) as [o |] eqn:H3.
  { destruct (check_valued_aborts _ _ _ _ _ _ H3) as (t & c & ->). cbn.
    split; [intros H; exfalso; exact (H I) | intros [(_ & _ & H & _) _]; discriminate]. }
  destruct (check_cookies _ _) as [o |] eqn:H4.
  { destruct (check_cookies_aborts _ _ _ H4) as (t & c & ->). cbn.
    split; [intros H; exfalso; exact (H I) | intros [(_ & _ & _ & H) _]; discriminate]. }
  destruct (check_body method api req) as [o |] eqn:H5.
  { unfold check_body in H5. destruct (body_checked method api); [| discriminate].
    destruct (_ && _) in H5; [injection H5 as <- |
      destruct (req_BindJSON req); [injection H5 as <- | discriminate]]; cbn;
      (split; [intros H; exfalso; exact (H I) | intros [_ H]; discriminate]). }
  split; [auto | intros _; apply dispatch_not_aborted].
Qed.

Lemma check_rule_Some (rule : ValidationRule) (s : string) (e : error) :
  check_rule rule s = Some e -> e = ErrorfMsg (vr_Message rule).
Proof.
  unfold check_rule.
  repeat match goal with
         | |- context [if String.eqb ?a ?b then _ else _] => destruct (String.eqb a b)
         end;
    try discriminate;
    destruct (vr_Value rule); try discriminate;
    repeat match goal with
           | |- context [match ?x with _ => _ end] => destruct x
           end;
    first [discriminate | intros [= <-]; reflexivity].
Qed.

Lemma check_rules_Some (rules : list ValidationRule) (s : string) (e : error) :
  check_rules rules s = Some e ->
  exists rule, rule ∈ rules /\ check_rule rule s = Some e.
Proof.
  induction rules as [| rule rules IH]; cbn [check_rules]; [discriminate |].
  destruct (check_rule rule s) as [e' |] eqn:Hrule.
  - intros [= ->]. exists rule. split; [left | exact Hrule].
  - intros H. destruct (IH H) as (rule' & Hin & Hfail).
    exists rule'. split; [right; exact Hin | exact Hfail].
Qed.

Lemma Validate_nonempty (p : ApiParameter) (s : string) :
  s <> EmptyString -> Validate p (ArgString s) = check_rules (p_Validations p) s.
Proof.
  intros Hne. unfold Validate. apply String.eqb_neq in Hne. rewrite Hne.
  rewrite andb_false_r. reflexivity.
Qed.

(** What an abort of a parameter loop looks like. *)
Lemma check_valued_Some (location missing invalid : string) (get : string -> string)
    (params : list ApiParameter) (o : Outcome) :
  check_valued location get missing invalid params = Some o ->
  exists param, param ∈ params /\ p_In param = location /\
    ((p_Required param = true /\ get (p_Name param) = EmptyString /\
      o = Aborted 400 (missing +:+ p_Name param) None) \/
     (exists e, get (p_Name param) <> EmptyString /\
        Validate param (ArgString (get (p_Name param))) = Some e /\
        o = Aborted 400 (invalid +:+ p_Name param +:+ ": ") (Some e))).
Proof.
  induction params as [| param params IH]; cbn [check_valued]; [discriminate |].
  assert (Hrest : check_valued location get missing invalid params = Some o ->
                  exists param0, param0 ∈ param :: params /\ p_In param0 = location /\
                    ((p_Required param0 = true /\ get (p_Name param0) = EmptyString /\
                      o = Aborted 400 (missing +:+ p_Name param0) None) \/
                     (exists e, get (p_Name param0) <> EmptyString /\
                        Validate param0 (ArgString (get (p_Name param0))) = Some e /\
                        o = Aborted 400 (invalid +:+ p_Name param0 +:+ ": ") (Some e)))).
  { intros H. destruct (IH H) as (param0 & Hin & Hrest). exists param0.
    split; [right; exact Hin | exact Hrest]. }
  destruct (String.eqb_spec (p_In param) location) as [Hloc | Hloc]; [| exact Hrest].
  destruct (p_Required param) eqn:Hreq; cbn [andb].
  - destruct (String.eqb_spec (get (p_Name param)) EmptyString) as [Hv | Hv]; cbn [negb].
    + intros [= <-]. exists param. split; [left |]. split; [exact Hloc |]. left. auto.
    + destruct (Validate param (ArgString (get (p_Name param)))) as [e |] eqn:Hval;
        [| exact Hrest].
      intros [= <-]. exists param. split; [left |]. split; [exact Hloc |]. right.
      exists e. auto.
  - destruct (String.eqb_spec (get (p_Name param)) EmptyString) as [Hv | Hv]; cbn [negb];
      [exact Hrest |].
    destruct (Validate param (ArgString (get (p_Name param)))) as [e |] eqn:Hval;
      [| exact Hrest].
    intros [= <-]. exists param. split; [left |]. split; [exact Hloc |]. right.
    exists e. auto.
Qed.

Lemma check_cookies_Some (get : string -> option string)
    (params : list ApiParameter) (o : Outcome) :
  check_cookies get params = Some o ->
  exists param, param ∈ params /\ p_In param = "cookie" /\
    ((p_Required param = true /\ get (p_Name param) = None /\
      o = Aborted 400 ("missing required cookie: " +:+ p_Name param) None) \/
     (exists value e, get (p_Name param) = Some value /\ value <> EmptyString /\
        Validate param (ArgString value) = Some e /\
        o = Aborted 400 ("invalid cookie " +:+ p_Name param +:+ ": ") (Some e))).
Proof.
  induction params as [| param params IH]; cbn [check_cookies]; [discriminate |].
  assert (Hrest : check_cookies get params = Some o ->
                  exists param0, param0 ∈ param :: params /\ p_In param0 = "cookie" /\
                    ((p_Required param0 = true /\ get (p_Name param0) = None /\
                      o = Aborted 400 ("missing required cookie: " +:+ p_Name param0) None) \/
                     (exists value e, get (p_Name param0) = Some value /\
                        value <> EmptyString /\
                        Validate param0 (ArgString value) = Some e /\
                        o = Aborted 400 ("invalid cookie " +:+ p_Name param0 +:+ ": ")
                              (Some e)))).
  { intros H. destruct (IH H) as (param0 & Hin & Hrest). exists param0.
    split; [right; exact Hin | exact Hrest]. }
  destruct (String.eqb_spec (p_In param) "cookie") as [Hloc | Hloc]; [| exact Hrest].
  destruct (get (p_Name param)) as [value |] eqn:Hget.
  - destruct (String.eqb_spec value EmptyString) as [Hv | Hv]; cbn [negb]; [exact Hrest |].
    destruct (Validate param (ArgString value)) as [e |] eqn:Hval; [| exact Hrest].
    intros [= <-]. exists param. split; [left |]. split; [exact Hloc |]. right.
    exists value, e. auto.
  - destruct (p_Required param) eqn:Hreq; [| exact Hrest].
    intros [= <-]. exists param. split; [left |]. split; [exact Hloc |]. left. auto.
Qed.

(** The cause of an abort is the message of a declared rule. *)
Lemma Validate_cause (param : ApiParameter) (value : string) (e : error) :
  value <> EmptyString ->
  Validate param (ArgString value) = Some e ->
  exists rule, rule ∈ p_Validations param /\ e = ErrorfMsg (vr_Message rule).
Proof.
  intros Hne Hval. rewrite (Validate_nonempty _ _ Hne) in Hval.
  destruct (check_rules_Some _ _ _ Hval) as (rule & Hin & Hfail).
  exists rule. split; [exact Hin | exact (check_rule_Some _ _ _ Hfail)].
Qed.

(** When the installed handler turns a request down, the status is 400 or
    415. It is 415 only when the body is looked at (a request sample is
    declared and the method is POST, PUT or PATCH), every parameter is in
    order, and the Content-Type is neither empty nor JSON. When the abort
    carries a cause, the cause is the message of a rule declared on one of
    the parameters: the is-required error of [Validate] never shows. *)
Theorem guard_abort (method : string) (api : APIDefinition) (req : GinRequest)
    (status : Z) (text : string) (cause : option error) :
  guard method api req = Aborted status text cause ->
  (status = 400 \/ status = 415) /\
  (status = 415 ->
   body_checked method api = true /\
   Forall (param_in_order req) (def_Params api) /\
   req_Header req "Content-Type" <> EmptyString /\
   String.prefix "application/json" (req_Header req "Content-Type") = false) /\
  (forall e, cause = Some e ->
   exists param rule,
     param ∈ def_Params api /\ rule ∈ p_Validations param /\
     e = ErrorfMsg (vr_Message rule)).
Proof.
  unfold guard.
  destruct (check_valued "path" _ _ _ _) as [o |] eqn:H1.
  { intros ->. destruct (check_valued_Some _ _ _ _ _ _ H1)
      as (param & Hin & _ & [(_ & _ & [= -> -> ->]) | (e & Hne & Hval & [= -> -> ->])]).
    - split; [left; reflexivity |]. split; [discriminate | discriminate].
    - split; [left; reflexivity |]. split; [discriminate |]. intros e' [= <-].
      destruct (Validate_cause _ _ _ Hne Hval) as (rule & Hr & ->). eauto. }
  destruct (check_valued "query" _ _ _ _) as [o |] eqn:H2.
  { intros ->. destruct (check_valued_Some _ _ _ _ _ _ H2)
      as (param & Hin & _ & [(_ & _ & [= -> -> ->]) | (e & Hne & Hval & [= -> -> ->])]).
    - split; [left; reflexivity |]. split; [discriminate | discriminate].
    - split; [left; reflexivity |]. split; [discriminate |]. intros e' [= <-].
      destruct (Validate_cause _ _ _ Hne Hval) as (rule & Hr & ->). eauto. }
  destruct (check_valued "header" _ _ _ _) as [o |] eqn:H3.
  { intros ->. destruct (check_valued_Some _ _ _ _ _ _ H3)
      as (param & Hin & _ & [(_ & _ & [= -> -> ->]) | (e & Hne & Hval & [= -> -> ->])]).
    - split; [left; reflexivity |]. split; [discriminate | discriminate].
    - split; [left; reflexivity |]. split; [discriminate |]. intros e' [= <-].
      destruct (Validate_cause _ _ _ Hne Hval) as (rule & Hr & ->). eauto. }
  destruct (check_cookies _ _) as [o |] eqn:H4.
  { intros ->. destruct (check_cookies_Some _ _ _ H4)
      as (param & Hin & _ & [(_ & _ & [= -> -> ->])
                            | (value & e & _ & Hne & Hval & [= -> -> ->])]).
    - split; [left; reflexivity |]. split; [discriminate | discriminate].
    - split; [left; reflexivity |]. split; [discriminate |]. intros e' [= <-].
      destruct (Validate_cause _ _ _ Hne Hval) as (rule & Hr & ->). eauto. }
  assert (Hparams : Forall (param_in_order req) (def_Params api))
    by (apply Forall_param_in_order; auto).
  unfold check_body. destruct (body_checked method api) eqn:Hbody.
  - destruct (String.eqb_spec (req_Header req "Content-Type") EmptyString) as [Hct | Hct];
      cbn [negb andb].
    + destruct (req_BindJSON req).
      * intros [= <- <- <-]. split; [left; reflexivity |].
        split; [discriminate | discriminate].
      * intros Hd. exfalso. apply (dispatch_not_aborted api). rewrite Hd. exact I.
    + destruct (String.prefix "application/json" (req_Header req "Content-Type")) eqn:Hpre;
        cbn [negb].
      * destruct (req_BindJSON req).
        -- intros [= <- <- <-]. split; [left; reflexivity |].
           split; [discriminate | discriminate].
        -- intros Hd. exfalso. apply (dispatch_not_aborted api). rewrite Hd. exact I.
      * intros [= <- <- <-]. split; [right; reflexivity |].
        split; [intros _; auto | discriminate].
  - intros Hd. exfalso. apply (dispatch_not_aborted api). rewrite Hd. exact I.
Qed.

(** The path parameters are looked at first, whatever the order of
    declaration: when a path parameter is out of order, the request is
    turned down with status 400 for a path parameter, also when a query,
    header or cookie parameter declared before it is out of order too. *)
Theorem guard_path_first (method : string) (api : APIDefinition) (req : GinRequest)
    (param : ApiParameter) :
  param ∈ def_Params api ->
  p_In param = "path" ->
  ~ value_in_order param (req_Param req (p_Name param)) ->
  exists culprit,
    culprit ∈ def_Params api /\ p_In culprit = "path" /\
    (guard method api req =
       Aborted 400 ("missing required path parameter: " +:+ p_Name culprit) None \/
     exists e,
       guard method api req =
         Aborted 400 ("invalid path parameter " +:+ p_Name culprit +:+ ": ") (Some e)).
Proof.
  intros Hin Hloc Hbad. unfold guard.
  destruct (check_valued "path" _ _ _ _) as [o |] eqn:H1.
  - destruct (check_valued_Some _ _ _ _ _ _ H1)
      as (culprit & Hc & Hl & [(_ & _ & ->) | (e & _ & _ & ->)]);
      exists culprit; split; [exact Hc | | exact Hc |]; (split; [exact Hl |]).
    + left. reflexivity.
    + right. exists e. reflexivity.
  - exfalso. apply Hbad. apply check_valued_None in H1.
    rewrite Forall_forall in H1. exact (H1 param Hin Hloc).
Qed.

(** When every check passes the installed handler ends in the dispatch. *)
Lemma guard_in_order (method : string) (api : APIDefinition) (req : GinRequest) :
  Forall (param_in_order req) (def_Params api) ->
  body_in_order method api req ->
  guard method api req = dispatch api.
Proof.
  intros Hparams Hbody. apply Forall_param_in_order in Hparams.
  destruct Hparams as (H1 & H2 & H3 & H4). apply check_body_None in Hbody.
  unfold guard. rewrite H1, H2, H3, H4, Hbody. reflexivity.
Qed.

(** [Register] by the first check that fails. *)
Lemma Register_by_violation (r : APIRouter) (d : APIDefinition) :
  Register r (Some d) =
  match violation d with
  | Some v => (Some (violation_error v d), r)
  | None => (None, add_route r (strings_ToUpper (def_Method d)) d)
  end.
Proof.
  unfold Register, violation.
  assert (Hrest :
    (if String.eqb (def_Path d) EmptyString
     then (Some (Errorf "path cannot be empty"), r)
     else if bool_decide (strings_ToUpper (def_Method d) ∈ supported_methods)
          then (None, add_route r (strings_ToUpper (def_Method d)) d)
          else (Some (Errorf ("unsupported HTTP method: " +:+ def_Method d)), r)) =
    match (if decide (def_Path d = EmptyString) then Some EmptyPath
           else if decide (strings_ToUpper (def_Method d) ∈ supported_methods) then None
                else Some UnsupportedMethod) with
    | Some v => (Some (violation_error v d), r)
    | None => (None, add_route r (strings_ToUpper (def_Method d)) d)
    end).
  { destruct (String.eqb_spec (def_Path d) EmptyString) as [Hp | Hp].
    - rewrite decide_True by exact Hp. reflexivity.
    - rewrite decide_False by exact Hp.
      destruct (decide (strings_ToUpper (def_Method d) ∈ supported_methods)) as [Hm | Hm].
      + rewrite bool_decide_eq_true_2 by exact Hm. reflexivity.
      + rewrite bool_decide_eq_false_2 by exact Hm. reflexivity. }
  destruct (def_NativeHandler d) as [native |], (def_Handler d) as [handler |];
    cbn [ptr_empty andb].
  - rewrite decide_False by (intros [? _]; discriminate). exact Hrest.
  - rewrite decide_False by (intros [_ ?]; discriminate). exact Hrest.
  - rewrite decide_False by (intros [? _]; discriminate). exact Hrest.
  - rewrite decide_True by (split; reflexivity). reflexivity.
Qed.

(** [Register] only asks for some handler: a definition whose one handler
    is a native handler that is not a gin handler is accepted, its route is
    installed, and the installed handler then calls nothing, whatever the
    request: it aborts or returns without a call. *)
Theorem Register_unusable_native_handler (r : APIRouter) (api : APIDefinition)
    (native : nat) (req : GinRequest) :
  def_NativeHandler api = Some native ->
  is_gin_HandlerFunc native = false ->
  def_Handler api = None ->
  def_Path api <> EmptyString ->
  strings_ToUpper (def_Method api) ∈ supported_methods ->
  Register r (Some api) = (None, add_route r (strings_ToUpper (def_Method api)) api) /\
  (is_aborted (installed_handler api req) \/ installed_handler api req = NothingCalled) /\
  (Forall (param_in_order req) (def_Params api) ->
   body_in_order (strings_ToUpper (def_Method api)) api req ->
   installed_handler api req = NothingCalled).
Proof.
  intros Hnative Hgin Hhandler Hpath Hmethod.
  assert (Hd : dispatch api = NothingCalled).
  { unfold dispatch. rewrite Hnative, Hgin, Hhandler. reflexivity. }
  split; [| split].
  - rewrite Register_by_violation. unfold violation.
    rewrite decide_False by (intros [_ H]; rewrite Hnative in H; discriminate).
    rewrite decide_False by exact Hpath.
    rewrite decide_True by exact Hmethod. reflexivity.
  - unfold installed_handler, guard.
    destruct (check_valued "path" _ _ _ _) as [o |] eqn:H1.
    { destruct (check_valued_aborts _ _ _ _ _ _ H1) as (t & c & ->). left. exact I. }
    destruct (check_valued "query" _ _ _ _) as [o |] eqn:H2.
    { destruct (check_valued_aborts _ _ _ _ _ _ H2) as (t & c & ->). left. exact I. }
    destruct (check_valued "header" _ _ _ _) as [o |] eqn:H3.
    { destruct (check_valued_aborts _ _ _ _ _ _ H3) as (t & c & ->). left. exact I. }
    destruct (check_cookies _ _) as [o |] eqn:H4.
    { destruct (check_cookies_aborts _ _ _ H4) as (t & c & ->). left. exact I. }
    unfold check_body. destruct (body_checked _ api).
    + destruct (negb _ && negb _); [left; exact I |].
      destruct (req_BindJSON req); [left; exact I | right; exact Hd].
    + right. exact Hd.
  - intros Hparams Hbody. unfold installed_handler.
    rewrite (guard_in_order _ _ _ Hparams Hbody). exact Hd.
Qed.

(** ** RegisterGroup *)

Lemma default_tag_fields (tag : string) (d : APIDefinition) :
  def_Method (default_tag tag d) = def_Method d /\
  def_Path (default_tag tag d) = def_Path d /\
  def_Handler (default_tag tag d) = def_Handler d /\
  def_NativeHandler (default_tag tag d) = def_NativeHandler d.
Proof. unfold default_tag. destruct (elems (def_Tags d)); repeat split. Qed.

Lemma violation_default_tag (tag : string) (d : APIDefinition) :
  violation (default_tag tag d) = violation d /\
  (forall v, violation_error v (default_tag tag d) = violation_error v d).
Proof.
  destruct (default_tag_fields tag d) as (Hm & Hp & Hh & Hn).
  split.
  - unfold violation. rewrite Hm, Hp, Hh, Hn. reflexivity.
  - intros v. destruct v; cbn [violation_error]; rewrite ?Hm, ?Hp; reflexivity.
Qed.

(** The route a definition gets on a router. *)
Lemma add_route_fields (r : APIRouter) (method : string) (d : APIDefinition) :
  r_definitions (add_route r method d) = (r_definitions r ++ [d])%list /\
  r_engine (add_route r method d) =
    (r_engine r ++ [(method, r_basePath r +:+ def_Path d)])%list /\
  r_basePath (add_route r method d) = r_basePath r /\
  r_swaggerDoc (add_route r method d) = r_swaggerDoc r /\
  r_generated (add_route r method d) = r_generated r.
Proof. repeat split. Qed.

(** The loop of [RegisterGroup] on definitions [Register] accepts. *)
Lemma register_each_accepted (tag : string) (apis : list APIDefinition) :
  Forall (fun d => violation d = None) apis ->
  forall (r : APIRouter) (i : nat),
  exists r',
    register_each r tag i apis = (None, r') /\
    r_definitions r' = (r_definitions r ++ (default_tag tag <$> apis))%list /\
    r_engine r' =
      (r_engine r ++
       ((fun d => (strings_ToUpper (def_Method d), r_basePath r +:+ def_Path d))
          <$> apis))%list /\
    r_basePath r' = r_basePath r /\
    r_swaggerDoc r' = r_swaggerDoc r /\
    r_generated r' = r_generated r.
Proof.
  induction 1 as [| d apis Hd _ IH]; intros r i.
  - exists r. cbn. rewrite !app_nil_r. repeat split.
  - cbn [register_each]. rewrite Register_by_violation.
    destruct (violation_default_tag tag d) as [Hv _]. rewrite Hv, Hd.
    destruct (default_tag_fields tag d) as (Hm & Hp & _ & _).
    destruct (IH (add_route r (strings_ToUpper (def_Method (default_tag tag d)))
                    (default_tag tag d)) (S i))
      as (r' & Hrun & Hdefs & Hengine & Hbase & Hdoc & Hgen).
    exists r'. split; [exact Hrun |].
    rewrite Hdefs, Hengine, Hbase, Hdoc, Hgen.
    cbn [add_route r_definitions r_engine r_basePath r_swaggerDoc r_generated
         fmap list_fmap].
    rewrite Hm, Hp, <- !app_assoc. repeat split.
Qed.

(** The loop of [RegisterGroup] up to the first definition [Register] turns
    down. *)
Lemma register_each_violation (tag : string) (pre : list APIDefinition)
    (d : APIDefinition) (post : list APIDefinition) (v : Violation) :
  Forall (fun d => violation d = None) pre ->
  violation d = Some v ->
  forall (r : APIRouter) (i : nat),
  exists r',
    register_each r tag i (pre ++ d :: post) =
      (Some (Wrap ("failed to register API " +:+ pretty (i + length pre)%nat)
               (violation_error v d)), r') /\
    r_definitions r' = (r_definitions r ++ (default_tag tag <$> pre))%list /\
    r_engine r' =
      (r_engine r ++
       ((fun d => (strings_ToUpper (def_Method d), r_basePath r +:+ def_Path d))
          <$> pre))%list /\
    r_swaggerDoc r' = r_swaggerDoc r /\
    r_generated r' = r_generated r.
Proof.
  intros Hpre Hd. induction Hpre as [| d0 pre Hd0 _ IH]; intros r i.
  - exists r. cbn [app register_each length]. rewrite Register_by_violation.
    destruct (violation_default_tag tag d) as [Hv He]. rewrite Hv, Hd, He.
    rewrite Nat.add_0_r. cbn. rewrite !app_nil_r. repeat split.
  - cbn [app register_each length]. rewrite Register_by_violation.
    destruct (violation_default_tag tag d0) as [Hv _]. rewrite Hv, Hd0.
    destruct (default_tag_fields tag d0) as (Hm & Hp & _ & _).
    destruct (IH (add_route r (strings_ToUpper (def_Method (default_tag tag d0)))
                    (default_tag tag d0)) (S i))
      as (r' & Hrun & Hdefs & Hengine & Hdoc & Hgen).
    exists r'. replace (i + S (length pre))%nat with (S i + length pre)%nat by lia.
    split; [exact Hrun |].
    rewrite Hdefs, Hengine, Hdoc, Hgen.
    cbn [add_route r_definitions r_engine r_basePath r_swaggerDoc r_generated
         fmap list_fmap].
    rewrite Hm, Hp, <- !app_assoc. repeat split.
Qed.

(** [RegisterGroup] with a tag and definitions that [Register] accepts
    registers every one of them, in order: each is appended to the
    registered definitions, with the group tag when it has no tag of its
    own, and gets its route under the base path. The cached document is not
    touched. *)
Theorem RegisterGroup_registers_all (r : APIRouter) (tag : string)
    (apis : list APIDefinition) :
  tag <> EmptyString ->
  apis <> [] ->
  Forall (fun d => violation d = None) apis ->
  exists r',
    RegisterGroup r tag apis = (None, r') /\
    r_definitions r' = (r_definitions r ++ (default_tag tag <$> apis))%list /\
    r_engine r' =
      (r_engine r ++
       ((fun d => (strings_ToUpper (def_Method d), r_basePath r +:+ def_Path d))
          <$> apis))%list /\
    r_swaggerDoc r' = r_swaggerDoc r /\
    r_generated r' = r_generated r.
Proof.
  intros Htag Hapis Hok. unfold RegisterGroup.
  apply String.eqb_neq in Htag. rewrite Htag.
  destruct apis as [| d apis]; [contradiction |].
  destruct (register_each_accepted tag (d :: apis) Hok r 0)
    as (r' & Hrun & Hdefs & Hengine & _ & Hdoc & Hgen).
  exists r'. auto.
Qed.

(** [RegisterGroup] is not all-or-nothing. At the first definition that
    [Register] turns down it returns that error, wrapped with the index of
    the definition, and the definitions before it stay registered, routes
    included; the definitions after it are not looked at. *)
Theorem RegisterGroup_keeps_earlier (r : APIRouter) (tag : string)
    (pre : list APIDefinition) (d : APIDefinition) (post : list APIDefinition)
    (v : Violation) :
  tag <> EmptyString ->
  Forall (fun d => violation d = None) pre ->
  violation d = Some v ->
  exists r',
    RegisterGroup r tag (pre ++ d :: post) =
      (Some (Wrap ("failed to register API " +:+ pretty (length pre))
               (violation_error v d)), r') /\
    r_definitions r' = (r_definitions r ++ (default_tag tag <$> pre))%list /\
    r_engine r' =
      (r_engine r ++
       ((fun d => (strings_ToUpper (def_Method d), r_basePath r +:+ def_Path d))
          <$> pre))%list.
Proof.
  intros Htag Hpre Hd. unfold RegisterGroup.
  apply String.eqb_neq in Htag. rewrite Htag.
  destruct (register_each_violation tag pre d post v Hpre Hd r 0)
    as (r' & Hrun & Hdefs & Hengine & _ & _).
  exists r'. cbn [Nat.add] in Hrun.
  destruct (pre ++ d :: post)%list as [| d0 l] eqn:Hl.
  - destruct pre; discriminate.
  - auto.
Qed.

(** ** SwaggerHandler *)

Lemma register_each_cache (tag : string) (apis : list APIDefinition)
    (r : APIRouter) (i : nat) :
  r_generated (register_each r tag i apis).2 = r_generated r /\
  r_swaggerDoc (register_each r tag i apis).2 = r_swaggerDoc r.
Proof.
  revert r i. induction apis as [| d apis IH]; intros r i; [split; reflexivity |].
  cbn [register_each]. rewrite Register_by_violation.
  destruct (violation (default_tag tag d)); [split; reflexivity |].
  destruct (IH (add_route r (strings_ToUpper (def_Method (default_tag tag d)))
                  (default_tag tag d)) (S i)) as [Hg Hd].
  destruct (register_each _ tag (S i) apis) as [[e |] r'] eqn:Hrun;
    cbn [snd] in Hg, Hd |- *; rewrite Hg, Hd; split; reflexivity.
Qed.

Lemma call_cache (r : APIRouter) (n : nat) (c : RouterCall) (last : option OpenAPIDoc) :
  caches r last ->
  match call r n c with
  | (Some doc, r', _) => caches r' (Some doc)
  | (None, r', _) => caches r' last
  end.
Proof.
  intros Hr.
  assert (Hframe : forall r', r_generated r' = r_generated r ->
                              r_swaggerDoc r' = r_swaggerDoc r -> caches r' last).
  { intros r' Hg Hd. unfold caches in *. rewrite Hg, Hd. exact Hr. }
  destruct c; cbn [call]; try (apply Hframe; reflexivity).
  - destruct api as [d |]; [| apply Hframe; reflexivity].
    rewrite Register_by_violation. destruct (violation d); apply Hframe; reflexivity.
  - unfold RegisterGroup. destruct (String.eqb tag EmptyString);
      [apply Hframe; reflexivity |].
    destruct apis as [| d apis]; [apply Hframe; reflexivity |].
    destruct (register_each_cache tag (d :: apis) r 0) as [Hg Hd].
    apply Hframe; assumption.
  - unfold GenerateSwagger.
    destruct (String.eqb (r_title r) EmptyString); [exact Hr |].
    destruct (String.eqb (r_version r) EmptyString); [exact Hr |].
    destruct (BuildOpenAPI r n) as [[doc | e] n']; [| exact Hr].
    destruct (map_empty (doc_Paths doc)); [exact Hr |].
    destruct (json_MarshalIndent (finish_doc r doc)) as [data |] eqn:Hjson; [| exact Hr].
    unfold caches. cbn [cache_doc r_generated r_swaggerDoc]. rewrite Hjson. eauto.
Qed.

Lemma calls_cache (cs : list RouterCall) (r : APIRouter) (n : nat)
    (last : option OpenAPIDoc) :
  caches r last -> caches (calls r n last cs).1.2 (calls r n last cs).1.1.
Proof.
  revert r n last. induction cs as [| c cs IH]; intros r n last Hr; [exact Hr |].
  cbn [calls]. pose proof (call_cache r n c last Hr) as Hstep.
  destruct (call r n c) as [[[doc |] r'] n']; apply IH; exact Hstep.
Qed.

(** Whatever is called on a new router, and in whatever order,
    [SwaggerHandler] answers with status 500 until a [GenerateSwagger] has
    returned a document, and from then on with status 200 and the text of
    the last document a [GenerateSwagger] returned: a registration or a
    change of the settings made afterwards does not show until
    [GenerateSwagger] is called again, and a [GenerateSwagger] that fails
    leaves the earlier text in place. *)
Theorem SwaggerHandler_serves_last_document
    (basePath title version description : string) (n : nat) (cs : list RouterCall) :
  let r := NewAPIRouter basePath title version description in
  match (calls r n None cs).1.1 with
  | None => SwaggerHandler (calls r n None cs).1.2 = unavailable_response
  | Some doc =>
      exists data,
        json_MarshalIndent doc = Some data /\
        SwaggerHandler (calls r n None cs).1.2 = document_response data
  end.
Proof.
  intros r.
  assert (Hnew : caches r None) by (split; reflexivity).
  pose proof (calls_cache cs r n None Hnew) as H.
  destruct (calls r n None cs) as [[last r'] n']. cbn [fst snd] in *.
  unfold SwaggerHandler. destruct last as [doc |]; cbn [caches] in H.
  - destruct H as (Hg & Hd & [data Hdata]). exists data.
    rewrite Hg, Hd, Hdata. split; reflexivity.
  - destruct H as [Hg Hd]. rewrite Hg. reflexivity.
Qed.

(** ** GenerateSwagger: the whole document *)

(** The fields the loop body of [BuildOpenAPI] copies and those it leaves
    at their zero value. *)
Lemma build_operation_fields (d : APIDefinition) (n n' : nat) (op : Operation) :
  build_operation d n = (Ok op, n') ->
  op_Summary op = def_Summary d /\
  op_Description op = def_Description d /\
  op_Tags op = def_Tags d /\
  op_Parameters op = def_Params d /\
  (is_Some (op_RequestBody op) <-> def_Request d <> NilInterface) /\
  op_Deprecated op = false /\
  op_Servers op = [] /\
  op_ExternalDocs op = None.
Proof.
  unfold build_operation. monad_step.
  assert (Hnil : forall v, is_nil_interface v = true -> ~ v <> NilInterface).
  { intros v Hv Hne. destruct v; [contradiction | discriminate | discriminate]. }
  assert (Hval : forall v, is_nil_interface v = false -> v <> NilInterface).
  { intros v Hv ->. discriminate. }
  destruct (is_nil_interface (def_Request d)) eqn:Hreq.
  - assert (Hbody : is_Some (@None RequestBody) <-> def_Request d <> NilInterface).
    { split; [intros [x Hx]; discriminate | intros Hne; destruct (Hnil _ Hreq Hne)]. }
    destruct (is_nil_interface (def_Response d)).
    + intros [= <- <-]. cbn. repeat split; apply Hbody.
    + destruct (SafeSchemaFromStruct (def_Response d) n) as [[res | e] n2] eqn:H2;
        [| discriminate].
      destruct res; intros [= <- <-]; cbn; repeat split; apply Hbody.
  - destruct (SafeSchemaFromStruct (def_Request d) n) as [[res1 | e1] n1] eqn:H1;
      [| discriminate].
    destruct (SafeSchemaFromStruct_ok _ _ _ _ H1) as [schema1 ->].
    assert (Hbody : forall b : RequestBody, is_Some (Some b) <-> def_Request d <> NilInterface).
    { intros b. split; [intros _; exact (Hval _ Hreq) | eauto]. }
    destruct (is_nil_interface (def_Response d)).
    + intros [= <- <-]. cbn. repeat split; apply Hbody.
    + destruct (SafeSchemaFromStruct (def_Response d) n1) as [[res | e] n2] eqn:H2;
        [| discriminate].
      destruct res; intros [= <- <-]; cbn; repeat split; apply Hbody.
Qed.

Lemma get_set_method_same (method : string) (op : Operation) (item : PathItem) :
  method ∈ supported_methods ->
  get_method method (set_method method op item) = Some op.
Proof.
  unfold supported_methods. rewrite !elem_of_cons, elem_of_nil.
  intros [-> | [-> | [-> | [-> | [-> | []]]]]]; reflexivity.
Qed.

Lemma get_set_method_other (method method' : string) (op : Operation) (item : PathItem) :
  method' <> method ->
  get_method method' (set_method method op item) = get_method method' item.
Proof.
  intros Hne. unfold get_method, set_method.
  destruct (String.eqb_spec method "GET") as [-> | ?];
    [| destruct (String.eqb_spec method "POST") as [-> | ?];
       [| destruct (String.eqb_spec method "PUT") as [-> | ?];
          [| destruct (String.eqb_spec method "DELETE") as [-> | ?];
             [| destruct (String.eqb_spec method "PATCH") as [-> | ?]]]]];
    (destruct (String.eqb_spec method' "GET") as [-> | ?];
     [| destruct (String.eqb_spec method' "POST") as [-> | ?];
        [| destruct (String.eqb_spec method' "PUT") as [-> | ?];
           [| destruct (String.eqb_spec method' "DELETE") as [-> | ?];
              [| destruct (String.eqb_spec method' "PATCH") as [-> | ?]]]]]);
    cbn; first [reflexivity | contradiction].
Qed.

Lemma build_paths_app (defs1 defs2 : list APIDefinition)
    (paths paths' : gmap string PathItem) (n n' : nat) :
  build_paths (defs1 ++ defs2) paths n = (Ok paths', n') ->
  exists paths1 n1,
    build_paths defs1 paths n = (Ok paths1, n1) /\
    build_paths defs2 paths1 n1 = (Ok paths', n').
Proof.
  revert paths n. induction defs1 as [| d defs1 IH]; intros paths n.
  - cbn [app]. intros H. exists paths, n. split; [reflexivity | exact H].
  - cbn [app build_paths]. monad_step.
    destruct (build_operation d n) as [[op | e] n0]; [| discriminate].
    apply IH.
Qed.

(** A slot that no later definition names keeps its operation. *)
Lemma build_paths_keeps (defs : list APIDefinition) (path method : string)
    (op : Operation) :
  Forall (fun d => ~ (def_Path d = path /\ def_Method d = method)) defs ->
  forall (paths paths' : gmap string PathItem) (item : PathItem) (n n' : nat),
  paths !! path = Some item ->
  get_method method item = Some op ->
  build_paths defs paths n = (Ok paths', n') ->
  exists item', paths' !! path = Some item' /\ get_method method item' = Some op.
Proof.
  induction 1 as [| d defs Hd _ IH]; intros paths paths' item n n' Hitem Hget.
  - cbn. intros [= <- <-]. eauto.
  - cbn [build_paths]. monad_step.
    destruct (build_operation d n) as [[op' | e] n0]; [| discriminate].
    destruct (decide (def_Path d = path)) as [Hp | Hp].
    + assert (Hm : method <> def_Method d) by (intros ->; apply Hd; auto).
      apply (IH _ _ (set_method (def_Method d) op'
                       (default empty_PathItem (paths !! def_Path d)))).
      * rewrite <- Hp. apply lookup_insert_eq.
      * rewrite (get_set_method_other _ _ _ _ Hm), Hp, Hitem. exact Hget.
    + apply (IH _ _ item); [| exact Hget].
      rewrite lookup_insert_ne by exact Hp. exact Hitem.
Qed.

(** Every path of a definition gets an item, and no item is lost. *)
Lemma build_paths_dom (defs : list APIDefinition) :
  forall (paths paths' : gmap string PathItem) (n n' : nat),
  build_paths defs paths n = (Ok paths', n') ->
  (forall d, d ∈ defs -> is_Some (paths' !! def_Path d)) /\
  (forall path, is_Some (paths !! path) -> is_Some (paths' !! path)).
Proof.
  induction defs as [| d defs IH]; intros paths paths' n n'.
  - cbn. intros [= <- <-]. split; [intros d Hd; inversion Hd | auto].
  - cbn [build_paths]. monad_step.
    destruct (build_operation d n) as [[op | e] n0]; [| discriminate].
    intros Hrun. destruct (IH _ _ _ _ Hrun) as [Hdefs Hkeep].
    assert (Hd : is_Some (paths' !! def_Path d)).
    { apply Hkeep. rewrite lookup_insert_eq. eauto. }
    split.
    + intros d' Hin. apply elem_of_cons in Hin as [-> | Hin]; [exact Hd | auto].
    + intros path Hpath. apply Hkeep.
      destruct (decide (def_Path d = path)) as [<- | Hne].
      * rewrite lookup_insert_eq. eauto.
      * rewrite lookup_insert_ne by exact Hne. exact Hpath.
Qed.

(** [GenerateSwagger] step by step. *)
Lemma GenerateSwagger_unfold (r : APIRouter) (n : nat) :
  GenerateSwagger r n =
  if String.eqb (r_title r) EmptyString then
    (Err (Errorf "API title is required"), r, n)
  else if String.eqb (r_version r) EmptyString then
    (Err (Errorf "API version is required"), r, n)
  else
    match build_paths (r_definitions r) ∅ n with
    | (Err e, n') => (Err (Wrap "failed to build OpenAPI document" e), r, n')
    | (Ok paths, n') =>
        if map_empty paths then (Err (Errorf "no API paths defined"), r, n')
        else
          match json_MarshalIndent (document_of r paths) with
          | None => (Err (Wrap "failed to marshal OpenAPI document" json_error), r, n')
          | Some data => (Ok (document_of r paths), cache_doc r data, n')
          end
    end.
Proof.
  unfold GenerateSwagger, BuildOpenAPI. monad_step.
  destruct (String.eqb (r_title r) EmptyString); [reflexivity |].
  destruct (String.eqb (r_version r) EmptyString); [reflexivity |].
  destruct (build_paths (r_definitions r) ∅ n) as [[paths | e] n']; reflexivity.
Qed.

Lemma GenerateSwagger_ok (r r' : APIRouter) (n n' : nat) (doc : OpenAPIDoc) :
  GenerateSwagger r n = (Ok doc, r', n') ->
  exists paths data,
    r_title r <> EmptyString /\ r_version r <> EmptyString /\
    build_paths (r_definitions r) ∅ n = (Ok paths, n') /\
    paths <> ∅ /\
    doc = document_of r paths /\
    json_MarshalIndent doc = Some data /\
    r' = cache_doc r data.
Proof.
  rewrite GenerateSwagger_unfold.
  destruct (String.eqb_spec (r_title r) EmptyString) as [| Ht]; [discriminate |].
  destruct (String.eqb_spec (r_version r) EmptyString) as [| Hv]; [discriminate |].
  destruct (build_paths (r_definitions r) ∅ n) as [[paths | e] n0]; [| discriminate].
  unfold map_empty. destruct (bool_decide_reflect (paths = ∅)) as [| Hne]; [discriminate |].
  destruct (json_MarshalIndent (document_of r paths)) as [data |] eqn:Hjson;
    [| discriminate].
  intros [= <- <- <-]. exists paths, data. repeat split; auto.
Qed.

(** An operation of a returned document is an operation the loop body of
    [BuildOpenAPI] built from a registered definition, with a synthesized
    identifier. *)
Lemma generated_operation (r r' : APIRouter) (n n' : nat) (doc : OpenAPIDoc)
    (path method : string) (item : PathItem) (op : Operation) :
  GenerateSwagger r n = (Ok doc, r', n') ->
  doc_Paths doc !! path = Some item ->
  get_method method item = Some op ->
  exists (d : APIDefinition) (op0 : Operation) (k k' : nat),
    d ∈ r_definitions r /\ def_Path d = path /\ def_Method d = method /\
    build_operation d k = (Ok op0, k') /\
    op = set_OperationID op0 (generateOperationID path op0).
Proof.
  intros Hrun. destruct (GenerateSwagger_ok _ _ _ _ _ Hrun)
    as (paths & data & _ & _ & Hpaths & _ & -> & _ & _).
  cbn [document_of doc_Paths]. rewrite map_lookup_imap.
  destruct (paths !! path) as [item0 |] eqn:Hitem; [| discriminate].
  cbn. intros [= <-]. rewrite get_method_default_item.
  destruct (get_method method item0) as [op0 |] eqn:Hget; [| discriminate].
  cbn. intros [= <-].
  assert (Hops : ops_from (r_definitions r) paths).
  { apply (build_paths_ops (r_definitions r) (r_definitions r) ∅ paths n n');
      [auto | | exact Hpaths].
    intros p i m o Hempty. rewrite lookup_empty in Hempty. discriminate. }
  destruct (Hops _ _ _ _ Hitem Hget) as (d & k & k' & Hin & Hpath & Hmethod & Hbuilt).
  destruct (build_operation_ok _ _ _ _ Hbuilt)
    as (Hid & Hsec & _ & H400 & H500 & _).
  exists d, op0, k, k'. repeat split; try assumption.
  apply add_defaults_built; [exact Hid | exact Hsec | |]; rewrite ?H400, ?H500; eauto.
Qed.

(** The last registration of a route wins. When a document is returned,
    the operation it files under the path and the method of a registered
    definition (the method spelled as one of the five upper-case names) is
    the one built from the last definition registered with that path and
    method: summary, description, tags and parameters are copied, a request
    body is there exactly when the definition has a request sample, and the
    deprecation flag, the servers and the external documentation of the
    definition are not carried over. *)
Theorem GenerateSwagger_last_registration
    (r r' : APIRouter) (n n' : nat) (doc : OpenAPIDoc)
    (pre : list APIDefinition) (d : APIDefinition) (post : list APIDefinition) :
  r_definitions r = (pre ++ d :: post)%list ->
  def_Method d ∈ supported_methods ->
  Forall (fun d' => ~ (def_Path d' = def_Path d /\ def_Method d' = def_Method d)) post ->
  GenerateSwagger r n = (Ok doc, r', n') ->
  exists (item : PathItem) (op : Operation),
    doc_Paths doc !! def_Path d = Some item /\
    get_method (def_Method d) item = Some op /\
    op_Summary op = def_Summary d /\
    op_Description op = def_Description d /\
    op_Tags op = def_Tags d /\
    op_Parameters op = def_Params d /\
    (is_Some (op_RequestBody op) <-> def_Request d <> NilInterface) /\
    op_Deprecated op = false /\
    op_Servers op = [] /\
    op_ExternalDocs op = None.
Proof.
  intros Hdefs Hmethod Hlast Hrun.
  destruct (GenerateSwagger_ok _ _ _ _ _ Hrun)
    as (paths & data & _ & _ & Hpaths & _ & -> & _ & _).
  rewrite Hdefs in Hpaths.
  destruct (build_paths_app _ _ _ _ _ _ Hpaths) as (paths1 & n1 & _ & Hrest).
  cbn [build_paths] in Hrest. revert Hrest. monad_step.
  destruct (build_operation d n1) as [[op0 | e] n2] eqn:Hbuilt; [| discriminate].
  intros Hrest.
  destruct (build_paths_keeps post (def_Path d) (def_Method d) op0 Hlast _ _
              (set_method (def_Method d) op0
                 (default empty_PathItem (paths1 !! def_Path d))) _ _
              (lookup_insert_eq _ _ _) (get_set_method_same _ _ _ Hmethod) Hrest)
    as (item & Hitem & Hget).
  destruct (build_operation_ok _ _ _ _ Hbuilt) as (Hid & Hsec & _ & H400 & H500 & _).
  destruct (build_operation_fields _ _ _ _ Hbuilt)
    as (Hsum & Hdesc & Htags & Hparams & Hbody & Hdep & Hsrv & Hext).
  exists (default_item (def_Path d) item),
         (set_OperationID op0 (generateOperationID (def_Path d) op0)).
  split; [| split].
  - cbn [document_of doc_Paths]. rewrite map_lookup_imap, Hitem. reflexivity.
  - rewrite get_method_default_item, Hget. cbn. f_equal.
    apply add_defaults_built; [exact Hid | exact Hsec | |]; rewrite ?H400, ?H500; eauto.
  - cbn [set_OperationID op_Summary op_Description op_Tags op_Parameters
         op_RequestBody op_Deprecated op_Servers op_ExternalDocs].
    auto 10.
Qed.

(** [GenerateSwagger] reports that no API paths are defined exactly when
    title and version are set and no definition is registered. *)
Theorem GenerateSwagger_no_paths (r : APIRouter) (n : nat) :
  (GenerateSwagger r n).1.1 = Err (Errorf "no API paths defined") <->
  r_title r <> EmptyString /\ r_version r <> EmptyString /\ r_definitions r = [].
Proof.
  rewrite GenerateSwagger_unfold.
  destruct (String.eqb_spec (r_title r) EmptyString) as [Ht | Ht].
  { cbn. split; [discriminate | intros [H _]; contradiction]. }
  destruct (String.eqb_spec (r_version r) EmptyString) as [Hv | Hv].
  { cbn. split; [discriminate | intros (_ & H & _); contradiction]. }
  destruct (r_definitions r) as [| d defs] eqn:Hdefs.
  - cbn. split; [auto | reflexivity].
  - destruct (build_paths (d :: defs) ∅ n) as [[paths | e] n'] eqn:Hpaths.
    + destruct (build_paths_dom _ _ _ _ _ Hpaths) as [Hdom _].
      assert (Hne : paths <> ∅).
      { intros ->. destruct (Hdom d) as [item Hitem]; [left |].
        rewrite lookup_empty in Hitem. discriminate. }
      unfold map_empty. rewrite bool_decide_eq_false_2 by exact Hne.
      destruct (json_MarshalIndent (document_of r paths)); cbn;
        (split; [discriminate | intros (_ & _ & H); discriminate]).
    + cbn. split; [discriminate | intros (_ & _ & H); discriminate].
Qed.

(** The frame of a document [GenerateSwagger] returns comes from the
    settings of the router alone: title, version and description, one
    server with the base path (the default server of [GenerateSwagger] is
    never used), the security schemes as the only components, the global
    security requirements, no tags and no external documentation; every
    registered path has an item; and the router caches the text of this very
    document. *)
Theorem GenerateSwagger_document (r r' : APIRouter) (n n' : nat) (doc : OpenAPIDoc) :
  GenerateSwagger r n = (Ok doc, r', n') ->
  doc_OpenAPI doc = "3.0.0" /\
  doc_Info doc = mkInfo (r_title r) (r_version r) (r_description r) /\
  doc_Servers doc = [mkServer (r_basePath r) "API Server"] /\
  doc_Components doc = Some (mkComponents ∅ (r_securitySchemes r) ∅ ∅ ∅ ∅ ∅) /\
  doc_Security doc = r_globalSecurity r /\
  doc_Tags doc = [] /\
  doc_ExternalDocs doc = None /\
  (forall path, is_Some (doc_Paths doc !! path) <->
                exists d, d ∈ r_definitions r /\ def_Path d = path) /\
  r_generated r' = true /\
  r_swaggerDoc r' = json_MarshalIndent doc /\
  r_definitions r' = r_definitions r.
Proof.
  intros Hrun. destruct (GenerateSwagger_ok _ _ _ _ _ Hrun)
    as (paths & data & _ & _ & Hpaths & _ & -> & Hjson & ->).
  rewrite Hjson. repeat split.
  - cbn [document_of doc_Paths]. rewrite map_lookup_imap.
    intros [item Hitem].
    destruct (paths !! path) as [item0 |] eqn:Hitem0; [| discriminate].
    assert (Hops : forall defs paths0 paths1 k k',
               build_paths defs paths0 k = (Ok paths1, k') ->
               forall p, is_Some (paths1 !! p) ->
                         is_Some (paths0 !! p) \/ exists d, d ∈ defs /\ def_Path d = p).
    { clear. induction defs as [| d defs IH]; intros paths0 paths1 k k'.
      - cbn. intros [= <- <-] p Hp. left. exact Hp.
      - cbn [build_paths]. monad_step.
        destruct (build_operation d k) as [[op | e] k0]; [| discriminate].
        intros Hrun p Hp. destruct (IH _ _ _ _ Hrun p Hp) as [Hold | (d' & Hin & Hd')].
        + destruct (decide (def_Path d = p)) as [Heq | Hne].
          * right. exists d. split; [left | exact Heq].
          * rewrite lookup_insert_ne in Hold by exact Hne. left. exact Hold.
        + right. exists d'. split; [right; exact Hin | exact Hd']. }
    destruct (Hops _ _ _ _ _ Hpaths path) as [Hold | Hd]; [eauto | | exact Hd].
    rewrite lookup_empty in Hold. destruct Hold as [x Hx]. discriminate.
  - intros (d & Hin & <-). cbn [document_of doc_Paths]. rewrite map_lookup_imap.
    destruct (build_paths_dom _ _ _ _ _ Hpaths) as [Hdom _].
    destruct (Hdom d Hin) as [item ->]. cbn. eauto.
Qed.

Lemma build_operation_same (d d' : APIDefinition) (n : nat) :
  same_documentation d d' -> build_operation d n = build_operation d' n.
Proof.
  intros (Hm & Hp & Hs & Hd & Ht & Hreq & Hresp & Hpar).
  unfold build_operation, new_operation. rewrite Hs, Hd, Ht, Hreq, Hresp, Hpar.
  reflexivity.
Qed.

Lemma build_paths_same (defs defs' : list APIDefinition) :
  Forall2 same_documentation defs defs' ->
  forall (paths : gmap string PathItem) (n : nat),
  build_paths defs paths n = build_paths defs' paths n.
Proof.
  induction 1 as [| d d' defs defs' Hd _ IH]; intros paths n; [reflexivity |].
  cbn [build_paths]. monad_step. rewrite (build_operation_same d d' n Hd).
  destruct Hd as (Hm & Hp & _). rewrite Hm, Hp.
  destruct (build_operation d' n) as [[op | e] n0]; [apply IH | reflexivity].
Qed.

(** The document does not depend on the operation identifier, the
    deprecation flag, the security requirements, the external
    documentation, the examples, the servers or the handlers of the
    registered definitions: with definitions that agree on everything else,
    [GenerateSwagger] returns the same document or the same error, and
    caches the same text. *)
Theorem GenerateSwagger_ignores (r : APIRouter) (defs' : list APIDefinition) (n : nat) :
  Forall2 same_documentation (r_definitions r) defs' ->
  (GenerateSwagger (with_definitions r defs') n).1.1 = (GenerateSwagger r n).1.1 /\
  (forall doc r1 n1,
      GenerateSwagger r n = (Ok doc, r1, n1) ->
      r_swaggerDoc (GenerateSwagger (with_definitions r defs') n).1.2 = r_swaggerDoc r1).
Proof.
  intros Hsame. rewrite !GenerateSwagger_unfold.
  cbn [with_definitions r_title r_version r_definitions].
  rewrite <- (build_paths_same _ _ Hsame ∅ n).
  change (document_of (with_definitions r defs')) with (document_of r).
  destruct (String.eqb (r_title r) EmptyString); [split; [reflexivity | discriminate] |].
  destruct (String.eqb (r_version r) EmptyString); [split; [reflexivity | discriminate] |].
  destruct (build_paths (r_definitions r) ∅ n) as [[paths | e] n'];
    [| split; [reflexivity | discriminate]].
  destruct (map_empty paths); [split; [reflexivity | discriminate] |].
  destruct (json_MarshalIndent (document_of r paths));
    [| split; [reflexivity | discriminate]].
  split; [reflexivity |]. intros doc r1 n1 [= <- <- <-]. reflexivity.
Qed.

Lemma generateOperationID_first_tag (path : string) (op : Operation) :
  generateOperationID path op =
  match first_tag op with
  | Some tag => strings_ToLower tag
  | None => "operation"
  end +:+ "_" +:+ clean_path path.
Proof.
  unfold generateOperationID, first_tag. destruct (elems (op_Tags op)); reflexivity.
Qed.

(** Operation identifiers are not unique. The method does not enter the
    identifier, and of the path only what [generateOperationID] keeps: in a
    returned document, two operations whose paths are cleaned to the same
    text and whose first tags agree have the same identifier. GET and POST
    on one path are such a pair when they share their first tag. *)
Theorem GenerateSwagger_operationID_shared
    (r r' : APIRouter) (n n' : nat) (doc : OpenAPIDoc)
    (path1 path2 method1 method2 : string) (item1 item2 : PathItem)
    (op1 op2 : Operation) :
  GenerateSwagger r n = (Ok doc, r', n') ->
  doc_Paths doc !! path1 = Some item1 ->
  get_method method1 item1 = Some op1 ->
  doc_Paths doc !! path2 = Some item2 ->
  get_method method2 item2 = Some op2 ->
  clean_path path1 = clean_path path2 ->
  first_tag op1 = first_tag op2 ->
  op_OperationID op1 = op_OperationID op2.
Proof.
  intros Hrun Hitem1 Hget1 Hitem2 Hget2 Hclean Htag.
  destruct (generated_operation _ _ _ _ _ _ _ _ _ Hrun Hitem1 Hget1)
    as (d1 & o1 & k1 & k1' & _ & _ & _ & _ & ->).
  destruct (generated_operation _ _ _ _ _ _ _ _ _ Hrun Hitem2 Hget2)
    as (d2 & o2 & k2 & k2' & _ & _ & _ & _ & ->).
  cbn [set_OperationID op_OperationID].
  rewrite !generateOperationID_first_tag, Hclean.
  change (first_tag (set_OperationID o1 (generateOperationID path1 o1)))
    with (first_tag o1) in Htag.
  change (first_tag (set_OperationID o2 (generateOperationID path2 o2)))
    with (first_tag o2) in Htag.
  rewrite Htag. reflexivity.
Qed.

(** ** The schemas synthesis returns *)

(** Two maps that agree on the shape keys are well formed together. *)
Lemma well_formed_agree (s s' : SchemaMap) :
  (forall k, k ∈ shape_keys -> s' !! k = s !! k) ->
  well_formed s -> well_formed s'.
Proof.
  intros Hagree Hwf.
  assert (Ht : s' !! "type" = s !! "type") by (apply Hagree; repeat constructor).
  assert (Hi : s' !! "items" = s !! "items") by (apply Hagree; repeat constructor).
  assert (Ha : s' !! "additionalProperties" = s !! "additionalProperties")
    by (apply Hagree; repeat constructor).
  assert (Hp : s' !! "properties" = s !! "properties")
    by (apply Hagree; repeat constructor).
  assert (Hr : s' !! "required" = s !! "required")
    by (apply Hagree; repeat constructor).
  destruct Hwf as [s ty H1 H2 | s items H1 H2 H3 | s H1 H2 | s values H1 H2 H3
                  | s props H1 H2 H3 H4].
  - apply (wf_scalar s' ty); [rewrite Ht; exact H1 | exact H2].
  - apply (wf_array s' items); [rewrite Ht; exact H1 | rewrite Hi; exact H2 | exact H3].
  - apply (wf_any_object s'); [rewrite Ht; exact H1 | rewrite Ha; exact H2].
  - apply (wf_map_object s' values);
      [rewrite Ht; exact H1 | rewrite Ha; exact H2 | exact H3].
  - apply (wf_struct s' props);
      [rewrite Ht; exact H1 | rewrite Hp; exact H2 | exact H3 | rewrite Hr; exact H4].
Qed.

Lemma set_if_tagged_agree (tag : StructTag) (tagKey schemaKey : string) (s : SchemaMap) :
  schemaKey ∉ shape_keys ->
  forall k, k ∈ shape_keys -> set_if_tagged tag tagKey schemaKey s !! k = s !! k.
Proof.
  intros Hkey k Hk. unfold set_if_tagged.
  destruct (String.eqb (Tag_Get tag tagKey) EmptyString); [reflexivity |].
  apply lookup_insert_ne. intros ->. contradiction.
Qed.

(** The [doc], [example] and [format] tags do not touch the shape. *)
Lemma well_formed_decorate (tag : StructTag) (s : SchemaMap) :
  well_formed s -> well_formed (decorate tag s).
Proof.
  assert (Hnot : forall key, key ∈ ["description"; "example"; "format"] ->
                             key ∉ shape_keys).
  { intros key Hkey Hshape. unfold shape_keys in Hshape.
    rewrite !elem_of_cons, elem_of_nil in Hkey.
    rewrite !elem_of_cons, elem_of_nil in Hshape.
    destruct Hkey as [-> | [-> | [-> | []]]];
      destruct Hshape as [H | [H | [H | [H | [H | []]]]]]; discriminate. }
  intros Hwf. unfold decorate.
  apply (well_formed_agree (set_if_tagged tag "example" "example"
                              (set_if_tagged tag "doc" "description" s)));
    [apply set_if_tagged_agree, Hnot; repeat constructor |].
  apply (well_formed_agree (set_if_tagged tag "doc" "description" s));
    [apply set_if_tagged_agree, Hnot; repeat constructor |].
  apply (well_formed_agree s);
    [apply set_if_tagged_agree, Hnot; repeat constructor | exact Hwf].
Qed.

Lemma well_formed_literals :
  (forall ty, ty ∈ scalar_types -> well_formed (schema1 ty)) /\
  (forall ty format, ty ∈ scalar_types -> well_formed (schema_number ty format)) /\
  (forall format, well_formed (schema_unsigned format)) /\
  (forall example, well_formed (schema_datetime example)).
Proof.
  split; [| split; [| split]].
  - intros ty Hty. apply (wf_scalar _ ty); [by simplify_map_eq | exact Hty].
  - intros ty format Hty. apply (wf_scalar _ ty); [| exact Hty].
    unfold schema_number, schema2, schema1. by simplify_map_eq.
  - intros format. apply (wf_scalar _ "integer"); [| repeat constructor].
    unfold schema_unsigned, schema_number, schema2, schema1. by simplify_map_eq.
  - intros example. apply (wf_scalar _ "string"); [| repeat constructor].
    unfold schema_datetime, schema_number, schema2, schema1. by simplify_map_eq.
Qed.

Lemma well_formed_object_schema (props : SchemaMap) (required : list string) :
  (forall name v, props !! name = Some v ->
                  exists field, v = AMap field /\ well_formed field) ->
  (forall name, name ∈ required -> is_Some (props !! name)) ->
  well_formed (object_schema props required).
Proof.
  intros Hprops Hreq. apply (wf_struct _ props).
  - apply object_schema_type.
  - apply object_schema_properties.
  - exact Hprops.
  - rewrite object_schema_required. destruct required as [| name required]; [exact I |].
    split; [discriminate | exact Hreq].
Qed.

(** Synthesis keeps the shape: the schema of a type is well formed, and the
    field loop keeps the properties well formed and the required names
    among them. *)
Lemma synthesis_well_formed :
  (forall t n s n',
      createSchemaFromGoType t n = (Ok (Some s), n') -> well_formed s) /\
  (forall fs props required n props' required' n',
      struct_fields fs props required n = (Ok (props', required'), n') ->
      (forall name v, props !! name = Some v ->
                      exists field, v = AMap field /\ well_formed field) ->
      (forall name, name ∈ required -> is_Some (props !! name)) ->
      (forall name v, props' !! name = Some v ->
                      exists field, v = AMap field /\ well_formed field) /\
      (forall name, name ∈ required' -> is_Some (props' !! name))).
Proof.
  destruct well_formed_literals as (Hs1 & Hnum & Huns & Hdate).
  assert (Hstring : "string" ∈ scalar_types) by repeat constructor.
  assert (Hinteger : "integer" ∈ scalar_types) by repeat constructor.
  assert (Hnumber : "number" ∈ scalar_types) by repeat constructor.
  assert (Hboolean : "boolean" ∈ scalar_types) by repeat constructor.
  assert (Harray : forall elem n s n',
             (forall n s n', createSchemaFromGoType elem n = (Ok (Some s), n') ->
                             well_formed s) ->
             (let* elemSchema := wrapErr "failed to create schema for array element"
                                   (createSchemaFromGoType elem) in
              ret (Some (schema2 "array" "items" (boxed elemSchema)))) n
             = (Ok (Some s), n') ->
             well_formed s).
  { intros elem n s n' IH. monad_step.
    destruct (proj1 synthesis_total elem n) as (es & n1 & Hes). rewrite Hes.
    intros [= <- <-]. apply (wf_array _ es).
    - unfold schema2, schema1. by simplify_map_eq.
    - unfold schema2, schema1. by simplify_map_eq.
    - exact (IH _ _ _ Hes). }
  apply GoType_mutind.
  - intros k n s n'. destruct k; cbn; monad_step; intros [= <- <-]; auto.
  - intros len elem IH n s n'. rewrite createSchema_array. apply Harray. exact IH.
  - intros elem IH n s n'.
    destruct elem as [[] | | | | | | | |];
      try (rewrite createSchema_slice, createSchema_array; apply Harray; exact IH).
    cbn. monad_step. intros [= <- <-]. auto.
  - intros elem IH n s n'. cbn. apply IH.
  - intros key _ elem IH n s n'. cbn. monad_step.
    destruct (proj1 synthesis_total elem n) as (es & n1 & Hes). rewrite Hes.
    intros [= <- <-]. apply (wf_map_object _ es).
    + unfold schema2, schema1. by simplify_map_eq.
    + unfold schema2, schema1. by simplify_map_eq.
    + exact (IH _ _ _ Hes).
  - intros elem _ n s n'. cbn. monad_step. intros [= <- <-]. auto.
  - intros sig n s n'. cbn. monad_step. intros [= <- <-]. auto.
  - intros n s n'. cbn. monad_step. intros [= <- <-]. apply wf_any_object.
    + unfold schema2, schema1. by simplify_map_eq.
    + unfold schema2, schema1. by simplify_map_eq.
  - intros name timeMethod fields IH n s n'. cbn.
    destruct (String.eqb name "time.Time"); [monad_step; intros [= <- <-]; auto |].
    destruct timeMethod; [monad_step; intros [= <- <-]; auto |].
    monad_step.
    destruct (struct_fields fields ∅ [] n) as [[[props required] | e] n1] eqn:Hrun;
      [| discriminate].
    intros [= <- <-].
    destruct (IH ∅ [] n props required n1 Hrun) as [Hprops Hreq].
    + intros k v Hk. rewrite lookup_empty in Hk. discriminate.
    + intros k Hk. inversion Hk.
    + apply well_formed_object_schema; assumption.
  - intros props required n props' required' n'. cbn. monad_step.
    intros [= <- <- <-]. auto.
  - intros fieldName tag ty IHty more IH props required n props' required' n'.
    cbn [struct_fields].
    destruct (field_skipped tag); [apply IH |].
    monad_step.
    destruct (proj1 synthesis_total ty n) as (fs & n1 & Hfs). rewrite Hfs.
    intros Hrun Hprops Hreq.
    apply (IH _ _ _ _ _ _ Hrun).
    + intros k v. destruct (decide (field_jsonName tag = k)) as [<- | Hne].
      * rewrite lookup_insert_eq. intros [= <-]. eexists. split; [reflexivity |].
        apply well_formed_decorate. exact (IHty _ _ _ Hfs).
      * rewrite lookup_insert_ne by exact Hne. apply Hprops.
    + assert (Hold : forall k, k ∈ required ->
                is_Some (<[field_jsonName tag := AMap (decorate tag fs)]> props !! k)).
      { intros k Hk. destruct (decide (field_jsonName tag = k)) as [<- | Hne].
        - rewrite lookup_insert_eq. eauto.
        - rewrite lookup_insert_ne by exact Hne. exact (Hreq k Hk). }
      destruct (field_isRequired tag); [| exact Hold].
      intros k Hk. apply elem_of_app in Hk as [Hk | Hk]; [exact (Hold k Hk) |].
      apply list_elem_of_singleton in Hk as ->. rewrite lookup_insert_eq. eauto.
Qed.

(** ** Validate: the rules together, and numbers *)

Lemma check_rules_None (rules : list ValidationRule) (s : string) :
  check_rules rules s = None <-> Forall (fun rule => check_rule rule s = None) rules.
Proof.
  induction rules as [| rule rules IH]; cbn [check_rules].
  - split; [constructor | reflexivity].
  - rewrite Forall_cons, <- IH. destruct (check_rule rule s).
    + split; [discriminate | intros [H _]; discriminate].
    + split; [auto | intros [_ H]; exact H].
Qed.

(** A value that is not empty passes exactly when it passes every rule,
    whatever their order; when it does not, the error is the message of the
    first rule, in the order of declaration, that it fails. *)
Theorem Validate_rules (p : ApiParameter) (s : string) :
  s <> EmptyString ->
  (Validate p (ArgString s) = None <->
   Forall (fun rule => check_rule rule s = None) (p_Validations p)) /\
  (forall pre rule post,
      p_Validations p = (pre ++ rule :: post)%list ->
      Forall (fun rule => check_rule rule s = None) pre ->
      check_rule rule s <> None ->
      Validate p (ArgString s) = Some (ErrorfMsg (vr_Message rule))).
Proof.
  intros Hne. rewrite (Validate_nonempty p s Hne). split.
  - apply check_rules_None.
  - intros pre rule post -> Hpre Hfail. rewrite check_rules_app.
    apply check_rules_None in Hpre. rewrite Hpre. cbn [check_rules].
    destruct (check_rule rule s) as [e |] eqn:Hrule; [| contradiction].
    rewrite (check_rule_Some _ _ _ Hrule). reflexivity.
Qed.

Lemma is_digit_cases (c : ascii) :
  is_digit c = true ->
  c ∈ ["0"; "1"; "2"; "3"; "4"; "5"; "6"; "7"; "8"; "9"]%char.
Proof.
  destruct c as [[] [] [] [] [] [] [] []]; intros H;
    first [discriminate H | repeat constructor].
Qed.

(** What the scanner of [ParseFloat] sees of a digit. *)
Lemma digit_scanned (c : ascii) :
  is_digit c = true ->
  Ascii.eqb c "+" = false /\ Ascii.eqb c "-" = false /\
  Ascii.eqb c "i" = false /\ Ascii.eqb c "I" = false /\
  Ascii.eqb c "n" = false /\ Ascii.eqb c "N" = false /\
  Ascii.eqb c "_" = false /\ Ascii.eqb c "." = false /\
  Ascii.eqb (lower c) "x" = false /\
  0 <= digit_val c <= 9.
Proof.
  intros H. apply is_digit_cases in H.
  rewrite !elem_of_cons, elem_of_nil in H.
  destruct H as [-> | [-> | [-> | [-> | [-> | [-> | [-> | [-> | [-> | [-> | []]]]]]]]]]];
    vm_compute; repeat split; discriminate.
Qed.

Lemma read_mantissa_digits (l : list ascii) :
  forallb is_digit l = true ->
  forall (m frac : Z) (sawdigits underscores : bool),
  read_mantissa false l m frac false sawdigits underscores =
  mkMantissa (fold_left (fun acc c => 10 * acc + digit_val c) l m) frac false
    (match l with [] => sawdigits | _ :: _ => true end) underscores [].
Proof.
  induction l as [| c l IH]; intros Hl m frac sawdigits underscores; [reflexivity |].
  cbn [forallb] in Hl. apply andb_prop in Hl as [Hc Hl].
  destruct (digit_scanned c Hc) as (_ & _ & _ & _ & _ & _ & Hu & Hdot & _).
  cbn [read_mantissa fold_left]. rewrite Hu, Hdot, Hc.
  rewrite (IH Hl). destruct l; reflexivity.
Qed.

Lemma decimal_value_nonneg (l : list ascii) (m : Z) :
  forallb is_digit l = true -> 0 <= m ->
  0 <= fold_left (fun acc c => 10 * acc + digit_val c) l m.
Proof.
  revert m. induction l as [| c l IH]; intros m Hl Hm; [exact Hm |].
  cbn [forallb] in Hl. apply andb_prop in Hl as [Hc Hl].
  destruct (digit_scanned c Hc) as (_ & _ & _ & _ & _ & _ & _ & _ & _ & Hv).
  cbn [fold_left]. apply IH; [exact Hl | lia].
Qed.

Lemma all_bytes_forallb (P : ascii -> bool) (s : string) :
  all_bytes P s = forallb P (list_ascii_of_string s).
Proof.
  induction s as [| c s IH]; [reflexivity |].
  cbn [all_bytes list_ascii_of_string forallb]. rewrite IH. reflexivity.
Qed.

(** A string of digits parses to the number it denotes, rounded. *)
Lemma ParseFloat_digits (s : string) :
  all_bytes is_digit s = true ->
  s <> EmptyString ->
  ParseFloat s = round_binary64 (decimal_value s) 1.
Proof.
  intros Hs Hne. rewrite all_bytes_forallb in Hs.
  unfold ParseFloat, decimal_value.
  destruct s as [| c0 s]; [contradiction |].
  cbn [list_ascii_of_string] in Hs |- *.
  set (l := list_ascii_of_string s) in *.
  pose proof Hs as Hall.
  cbn [forallb] in Hs. apply andb_prop in Hs as [Hc0 Hl].
  destruct (digit_scanned c0 Hc0) as (Hp & Hm & Hi & HI & Hn & HN & _ & _ & _ & _).
  unfold special. rewrite Hp, Hm, Hi, HI, Hn, HN. cbn [orb].
  assert (Hhex : match c0 :: l with
                 | z :: x :: _ :: _ => Ascii.eqb z "0" && Ascii.eqb (lower x) "x"
                 | _ => false
                 end = false).
  { destruct l as [| x [| y l']]; try reflexivity.
    cbn [forallb] in Hl. apply andb_prop in Hl as [Hx _].
    destruct (digit_scanned x Hx) as (_ & _ & _ & _ & _ & _ & _ & _ & -> & _).
    apply andb_false_r. }
  rewrite Hhex. cbv zeta.
  rewrite (read_mantissa_digits (c0 :: l) Hall).
  cbn [sawdigits negb rest underscores mant frac andb].
  cbn [Z.leb Z.sub Z.opp Z.compare Z.add]. 
  replace (0 - 0) with 0 by reflexivity. cbn [Z.leb Z.compare].
  rewrite Z.pow_0_r, Z.mul_1_r. reflexivity.
Qed.

(** A whole number below [2^53] is a float64: no rounding. *)
Lemma round_binary64_exact (v : Z) :
  0 <= v < 2 ^ 53 ->
  exists m e, round_binary64 v 1 = Some (Fin m e) /\ e <= 0 /\ m = v * 2 ^ (- e).
Proof.
  intros [H0 Hlt]. unfold round_binary64.
  destruct (Z.eqb_spec v 0) as [-> | Hv].
  { exists 0, 0. repeat split; lia. }
  assert (Hpos : 0 < v) by lia.
  pose proof (Z.log2_spec v Hpos) as [Hlow Hhigh].
  pose proof (Z.log2_nonneg v) as Hlog0.
  assert (Hlog : Z.log2 v < 53) by (apply Z.log2_lt_pow2; lia).
  change (Z.log2 1) with 0. rewrite Z.sub_0_r. cbv zeta.
  rewrite (Z.max_r 0 (Z.log2 v)) by lia.
  rewrite (Z.max_l 0 (- Z.log2 v)) by lia.
  rewrite Z.pow_0_r, Z.mul_1_l, Z.mul_1_r.
  destruct (Z.leb_spec (2 ^ Z.log2 v) v) as [_ | Hbad]; [| lia].
  rewrite (Z.max_l (Z.log2 v - 52) (-1074)) by lia.
  rewrite (Z.max_r 0 (- (Z.log2 v - 52))) by lia.
  rewrite (Z.max_l 0 (Z.log2 v - 52)) by lia.
  rewrite Z.pow_0_r, Z.mul_1_l, Z.div_1_r, Z.mod_1_r.
  change (2 * 0 <? 1) with true. cbv iota.
  assert (Hfit : (0 <=? Z.log2 v - 52) &&
                 (2 ^ 1024 <=? v * 2 ^ (- (Z.log2 v - 52)) * 2 ^ (Z.log2 v - 52)) = false).
  { destruct (Z.leb_spec 0 (Z.log2 v - 52)) as [Hq |]; [| reflexivity].
    assert (Heq : Z.log2 v - 52 = 0) by lia. rewrite Heq. cbn [Z.opp].
    rewrite Z.pow_0_r, !Z.mul_1_r. cbn [andb].
    apply Z.leb_gt. apply (Z.lt_trans _ (2 ^ 53)); [exact Hlt |].
    apply Z.pow_lt_mono_r; lia. }
  rewrite Hfit. exists (v * 2 ^ (- (Z.log2 v - 52))), (Z.log2 v - 52).
  repeat split; lia.
Qed.

(** Comparing such a float64 with a whole threshold compares the numbers. *)
Lemma f64_lt_scaled (v k m e : Z) :
  e <= 0 -> m = v * 2 ^ (- e) ->
  f64_lt (Fin m e) (float64_of_Z k) = (v <? k) /\
  f64_gt (Fin m e) (float64_of_Z k) = (k <? v).
Proof.
  intros He ->. unfold f64_gt, f64_lt, float64_of_Z.
  rewrite (Z.min_l e 0) by lia. rewrite (Z.min_r 0 e) by lia.
  replace (e - e) with 0 by lia. replace (0 - e) with (- e) by lia.
  rewrite Z.pow_0_r, !Z.mul_1_r.
  assert (Hpow : 0 < 2 ^ (- e)) by (apply Z.pow_pos_nonneg; lia).
  split.
  - destruct (Z.ltb_spec v k) as [Hlt | Hge].
    + apply Z.ltb_lt. apply Z.mul_lt_mono_pos_r; assumption.
    + apply Z.ltb_ge. apply Z.mul_le_mono_nonneg_r; lia.
  - destruct (Z.ltb_spec k v) as [Hlt | Hge].
    + apply Z.ltb_lt. apply Z.mul_lt_mono_pos_r; assumption.
    + apply Z.ltb_ge. apply Z.mul_le_mono_nonneg_r; lia.
Qed.

(** On whole numbers the numeric rules are exact. For a value written in
    decimal digits that denotes a number below [2^53], and a whole
    threshold that a float64 holds exactly, a [min] rule with that float64
    threshold fails exactly when the number is below the threshold, and a
    [max] rule exactly when it is above: the comparison is that of the
    numbers, not of the texts ([9] is below [10]) and not of lengths. *)
Theorem Validate_whole_numbers (required : bool) (s m : string) (k : Z) :
  all_bytes is_digit s = true ->
  s <> EmptyString ->
  decimal_value s < 2 ^ 53 ->
  Z.abs k <= 2 ^ 53 ->
  Validate (number_param required (mkRule "min" (RFloat64 (float64_of_Z k)) m))
    (ArgString s) =
    (if decimal_value s <? k then Some (ErrorfMsg m) else None) /\
  Validate (number_param required (mkRule "max" (RFloat64 (float64_of_Z k)) m))
    (ArgString s) =
    (if k <? decimal_value s then Some (ErrorfMsg m) else None).
Proof.
  intros Hs Hne Hlt _.
  assert (H0 : 0 <= decimal_value s).
  { unfold decimal_value. apply decimal_value_nonneg; [| lia].
    rewrite <- all_bytes_forallb. exact Hs. }
  destruct (round_binary64_exact (decimal_value s) (conj H0 Hlt))
    as (mant & e & Hround & He & Hmant).
  destruct (f64_lt_scaled (decimal_value s) k mant e He Hmant) as [Hmin Hmax].
  rewrite !(Validate_nonempty _ _ Hne).
  cbn [number_param p_Validations check_rules]. unfold check_rule.
  cbn [vr_Type vr_Value vr_Message String.eqb Ascii.eqb Bool.eqb].
  rewrite (ParseFloat_digits s Hs Hne), Hround, Hmin, Hmax.
  split; [destruct (decimal_value s <? k) | destruct (k <? decimal_value s)]; reflexivity.
Qed.

(** ** GenerateSwagger returns a document *)

Lemma fold_encode_Some {V} (enc : V -> option JSON) (m : gmap string V) :
  (forall k v, m !! k = Some v -> is_Some (enc v)) ->
  is_Some (map_fold (fun k v acc =>
                       match enc v, acc with
                       | Some j, Some l => Some ((k, j) :: l)
                       | _, _ => None
                       end) (Some []) m).
Proof.
  apply (map_fold_weak_ind
           (fun r m => (forall k v, m !! k = Some v -> is_Some (enc v)) -> is_Some r)).
  - eauto.
  - intros i x m0 r Hi IH Hall.
    destruct (Hall i x) as [j Hj]; [apply lookup_insert_eq |]. rewrite Hj.
    destruct IH as [l ->]; [| eauto].
    intros k v Hk. apply (Hall k v). rewrite lookup_insert_ne; [exact Hk |].
    intros ->. rewrite Hi in Hk. discriminate.
Qed.

Lemma json_of_map_Some {V} (enc : V -> option JSON) (m : gmap string V) :
  (forall k v, m !! k = Some v -> is_Some (enc v)) -> is_Some (json_of_map enc m).
Proof.
  intros H. unfold json_of_map. destruct (fold_encode_Some enc m H) as [l ->].
  cbn. eauto.
Qed.

Lemma json_of_any_map (m : SchemaMap) : encodable m -> is_Some (json_of_any (AMap m)).
Proof.
  intros H. change (json_of_any (AMap m)) with (json_of_map json_of_any m).
  apply json_of_map_Some. exact H.
Qed.

Lemma json_of_list_Some {V} (enc : V -> option JSON) (l : list V) :
  Forall (fun v => is_Some (enc v)) l -> is_Some (json_of_list enc l).
Proof.
  intros H. unfold json_of_list.
  destruct (mapM_is_Some_2 enc l) as [js ->]; [exact H | cbn; eauto].
Qed.

Lemma object_Some (fields : list (option (list (string * JSON)))) :
  Forall is_Some fields -> is_Some (object fields).
Proof.
  intros H. unfold object.
  destruct (mapM_is_Some_2 id fields) as [ls ->]; [exact H | cbn; eauto].
Qed.

Lemma member_Some (name : string) (j : option JSON) :
  is_Some j -> is_Some (member name j).
Proof. intros [v ->]. cbn. eauto. Qed.

Lemma omitempty_Some (name : string) (empty : bool) (j : option JSON) :
  is_Some j -> is_Some (omitempty name empty j).
Proof. intros H. unfold omitempty. destruct empty; [eauto | apply member_Some, H]. Qed.

Lemma json_string_Some (s : string) : is_Some (json_string s).
Proof. unfold json_string. eauto. Qed.

Lemma json_bool_Some (b : bool) : is_Some (json_bool b).
Proof. unfold json_bool. eauto. Qed.

Lemma json_of_ptr_Some {V} (enc : V -> option JSON) (p : option V) :
  (forall v, p = Some v -> is_Some (enc v)) -> is_Some (json_of_ptr enc p).
Proof. intros H. destruct p as [v |]; cbn; [apply H; reflexivity | eauto]. Qed.

Lemma json_of_slice_Some {V} (enc : V -> option JSON) (s : slice V) :
  (forall v, is_Some (enc v)) -> is_Some (json_of_slice enc s).
Proof.
  intros H. destruct s as [l |]; cbn; [| eauto].
  apply json_of_list_Some. apply Forall_forall. intros v _. apply H.
Qed.

(** The fields of an object, one goal for each value. *)
Ltac object_fields :=
  apply object_Some; repeat constructor;
  repeat first [apply member_Some | apply omitempty_Some];
  try apply json_string_Some; try apply json_bool_Some.

Lemma json_of_Server_Some (s : OpenAPIServer) : is_Some (json_of_Server s).
Proof. unfold json_of_Server. object_fields. Qed.

Lemma json_of_ExternalDocs_Some (d : ExternalDocumentation) :
  is_Some (json_of_ExternalDocs d).
Proof. unfold json_of_ExternalDocs. object_fields. Qed.

Lemma json_of_OAuthFlow_Some (f : OAuthFlow) : is_Some (json_of_OAuthFlow f).
Proof.
  unfold json_of_OAuthFlow. object_fields.
  apply json_of_ptr_Some. intros scopes _. apply json_of_map_Some.
  intros k v _. apply json_string_Some.
Qed.

Lemma json_of_OAuthFlows_Some (f : OAuthFlows) : is_Some (json_of_OAuthFlows f).
Proof.
  unfold json_of_OAuthFlows. object_fields;
    apply json_of_ptr_Some; intros flow _; apply json_of_OAuthFlow_Some.
Qed.

Lemma json_of_SecurityScheme_Some (s : SecurityScheme) :
  is_Some (json_of_SecurityScheme s).
Proof.
  unfold json_of_SecurityScheme. object_fields.
  apply json_of_ptr_Some. intros flows _. apply json_of_OAuthFlows_Some.
Qed.

Lemma json_of_Security_Some (l : list SecurityRequirement) :
  is_Some (json_of_Security l).
Proof.
  unfold json_of_Security. apply json_of_list_Some. apply Forall_forall.
  intros requirement _. apply json_of_map_Some. intros k scopes _.
  apply json_of_slice_Some. apply json_string_Some.
Qed.

Lemma json_content_Some (schema : SchemaMap) :
  encodable schema ->
  is_Some (json_of_map json_of_Content (json_content schema)).
Proof.
  intros Hs. apply json_of_map_Some. intros k c Hk. unfold json_content in Hk.
  apply lookup_singleton_Some in Hk as [_ <-].
  unfold json_of_Content. object_fields.
  apply json_of_ptr_Some. intros m [= <-]. apply json_of_any_map, Hs.
Qed.

Lemma json_of_Response_Some (description : string) (content : gmap string Content) :
  is_Some (json_of_map json_of_Content content) ->
  is_Some (json_of_Response (mkResponse description content)).
Proof. intros H. unfold json_of_Response. object_fields. exact H. Qed.

Lemma json_of_Response_plain (description : string) :
  is_Some (json_of_Response (mkResponse description ∅)).
Proof.
  apply json_of_Response_Some. apply json_of_map_Some.
  intros k c Hk. rewrite lookup_empty in Hk. discriminate.
Qed.

Lemma json_of_Operation_Some (op : Operation) :
  operation_encodable op -> is_Some (json_of_Operation op).
Proof.
  intros (Hparams & Hbody & Hresp). unfold json_of_Operation. object_fields.
  - apply json_of_slice_Some, json_string_Some.
  - apply json_of_list_Some, Hparams.
  - apply json_of_ptr_Some, Hbody.
  - apply json_of_map_Some, Hresp.
  - apply json_of_Security_Some.
  - apply json_of_list_Some, Forall_forall. intros s _. apply json_of_Server_Some.
  - apply json_of_ptr_Some. intros d _. apply json_of_ExternalDocs_Some.
Qed.

Lemma put_response_encodable (code : string) (response : Response) (op : Operation) :
  is_Some (json_of_Response response) ->
  operation_encodable op ->
  operation_encodable (put_response code response op).
Proof.
  intros Hr (Hparams & Hbody & Hresp). split; [exact Hparams |]. split; [exact Hbody |].
  intros code' response'. cbn [put_response set_Responses op_Responses].
  destruct (decide (code = code')) as [<- | Hne].
  - rewrite lookup_insert_eq. intros [= <-]. exact Hr.
  - rewrite lookup_insert_ne by exact Hne. apply Hresp.
Qed.

Lemma set_OperationID_encodable (op : Operation) (operationID : string) :
  operation_encodable op -> operation_encodable (set_OperationID op operationID).
Proof. intros H. exact H. Qed.

(** The defaulting loop of [GenerateSwagger] adds plain responses only. *)
Lemma add_defaults_encodable (path : string) (op : Operation) :
  operation_encodable op -> operation_encodable (add_defaults path op).
Proof.
  intros Hop. unfold add_defaults. cbv zeta.
  repeat match goal with
         | |- context [if ?b then _ else _] => destruct b
         end;
    repeat first [apply set_OperationID_encodable
                 | apply put_response_encodable; [apply json_of_Response_plain |]];
    exact Hop.
Qed.

Lemma encodable_insert (k : string) (v : Any) (m : SchemaMap) :
  is_Some (json_of_any v) -> encodable m -> encodable (<[ k := v ]> m).
Proof.
  intros Hv Hm k' v'. destruct (decide (k = k')) as [<- | Hne].
  - rewrite lookup_insert_eq. intros [= <-]. exact Hv.
  - rewrite lookup_insert_ne by exact Hne. apply Hm.
Qed.

Lemma encodable_empty : encodable ∅.
Proof. intros k v Hk. rewrite lookup_empty in Hk. discriminate. Qed.

Lemma encodable_schema1 (ty : string) : encodable (schema1 ty).
Proof.
  unfold schema1. rewrite <- insert_empty.
  apply encodable_insert; [cbn; eauto | apply encodable_empty].
Qed.

Lemma encodable_decorate (tag : StructTag) (s : SchemaMap) :
  encodable s -> encodable (decorate tag s).
Proof.
  intros Hs. unfold decorate, set_if_tagged.
  repeat match goal with
         | |- context [if ?b then _ else _] => destruct b
         end;
    repeat (apply encodable_insert; [cbn; eauto |]); exact Hs.
Qed.

Lemma encodable_object_schema (props : SchemaMap) (required : list string) :
  encodable props -> encodable (object_schema props required).
Proof.
  intros Hp. unfold object_schema. destruct required.
  - apply encodable_insert; [apply json_of_any_map, Hp | apply encodable_schema1].
  - apply encodable_insert; [cbn; eauto |].
    apply encodable_insert; [apply json_of_any_map, Hp | apply encodable_schema1].
Qed.

(** The encoder accepts every synthesized schema. *)
Lemma synthesis_encodable :
  (forall t n s n',
      createSchemaFromGoType t n = (Ok (Some s), n') -> encodable s) /\
  (forall fs props required n props' required' n',
      struct_fields fs props required n = (Ok (props', required'), n') ->
      encodable props -> encodable props').
Proof.
  assert (Hnum : forall ty format, encodable (schema_number ty format)).
  { intros ty format. unfold schema_number, schema2.
    apply encodable_insert; [cbn; eauto | apply encodable_schema1]. }
  assert (Huns : forall format, encodable (schema_unsigned format)).
  { intros format. unfold schema_unsigned. apply encodable_insert; [cbn; eauto | apply Hnum]. }
  assert (Hdate : forall example, encodable (schema_datetime example)).
  { intros example. unfold schema_datetime.
    apply encodable_insert; [cbn; eauto | apply Hnum]. }
  assert (Hnested : forall key elem n s n',
             (forall n s n', createSchemaFromGoType elem n = (Ok (Some s), n') ->
                             encodable s) ->
             forall text ty,
             (let* elemSchema := wrapErr text (createSchemaFromGoType elem) in
              ret (Some (schema2 ty key (boxed elemSchema)))) n = (Ok (Some s), n') ->
             encodable s).
  { intros key elem n s n' IH text ty. monad_step.
    destruct (proj1 synthesis_total elem n) as (es & n1 & Hes). rewrite Hes.
    intros [= <- <-]. unfold schema2.
    apply encodable_insert; [| apply encodable_schema1].
    apply json_of_any_map. exact (IH _ _ _ Hes). }
  apply GoType_mutind.
  - intros k n s n'. destruct k; cbn; monad_step; intros [= <- <-];
      auto using encodable_schema1.
  - intros len elem IH n s n'. rewrite createSchema_array. apply Hnested. exact IH.
  - intros elem IH n s n'.
    destruct elem as [[] | | | | | | | |];
      try (rewrite createSchema_slice, createSchema_array; apply Hnested; exact IH).
    cbn. monad_step. intros [= <- <-]. apply Hnum.
  - intros elem IH n s n'. cbn. apply IH.
  - intros key _ elem IH n s n'. cbn. apply Hnested. exact IH.
  - intros elem _ n s n'. cbn. monad_step. intros [= <- <-]. apply encodable_schema1.
  - intros sig n s n'. cbn. monad_step. intros [= <- <-]. apply encodable_schema1.
  - intros n s n'. cbn. monad_step. intros [= <- <-]. unfold schema2.
    apply encodable_insert; [cbn; eauto | apply encodable_schema1].
  - intros name timeMethod fields IH n s n'. cbn.
    destruct (String.eqb name "time.Time"); [monad_step; intros [= <- <-]; apply Hdate |].
    destruct timeMethod; [monad_step; intros [= <- <-]; apply Hdate |].
    monad_step.
    destruct (struct_fields fields ∅ [] n) as [[[props required] | e] n1] eqn:Hrun;
      [| discriminate].
    intros [= <- <-]. apply encodable_object_schema.
    exact (IH _ _ _ _ _ _ Hrun encodable_empty).
  - intros props required n props' required' n'. cbn. monad_step.
    intros [= <- <- <-]. auto.
  - intros fieldName tag ty IHty more IH props required n props' required' n'.
    cbn [struct_fields].
    destruct (field_skipped tag); [apply IH |].
    monad_step.
    destruct (proj1 synthesis_total ty n) as (fs & n1 & Hfs). rewrite Hfs.
    intros Hrun Hprops. apply (IH _ _ _ _ _ _ Hrun).
    apply encodable_insert; [| exact Hprops].
    apply json_of_any_map, encodable_decorate. exact (IHty _ _ _ Hfs).
Qed.

(** Synthesis of a sample that is nil or of a struct type returns an
    encodable schema. *)
Lemma SafeSchemaFromStruct_sample (v : Iface) (n : nat) :
  v = NilInterface \/ is_Some (struct_sample v) ->
  exists s n', SafeSchemaFromStruct v n = (Ok (Some s), n') /\ encodable s.
Proof.
  intros [-> | [fields Hsample]].
  - exists empty_object, n. split; [reflexivity |].
    apply (encodable_object_schema ∅ []), encodable_empty.
  - unfold struct_sample in Hsample. unfold SafeSchemaFromStruct, SchemaFromStruct.
    destruct (reflect_TypeOf v) as [t |]; [| discriminate].
    destruct (deref_once t) as [| | | | | | | | name timeMethod fs]; try discriminate.
    cbn [is_struct negb]. monad_step.
    destruct (struct_fields fs ∅ [] n) as [[[props required] | e] n1] eqn:Hrun.
    + eexists _, _. split; [reflexivity |]. apply encodable_object_schema.
      exact (proj2 synthesis_encodable _ _ _ _ _ _ _ Hrun encodable_empty).
    + destruct (struct_schema fs n) as (props & n' & Hok & _).
      rewrite Hok in Hrun. discriminate.
Qed.

Lemma build_operation_total (d : APIDefinition) (n : nat) :
  documentable d ->
  exists op n', build_operation d n = (Ok op, n') /\ operation_encodable op.
Proof.
  intros (Hreq & Hresp & Hparams). unfold build_operation. monad_step.
  assert (Hnew : operation_encodable (new_operation d)).
  { split; [exact Hparams |]. split; [discriminate |].
    intros code response Hc. cbn in Hc. rewrite lookup_empty in Hc. discriminate. }
  assert (Hbody : forall schema, encodable schema ->
             operation_encodable
               (set_RequestBody (new_operation d)
                  (Some (mkRequestBody (json_content schema))))).
  { intros schema Hs. split; [exact Hparams |]. split.
    - intros body [= <-]. unfold json_of_RequestBody. object_fields.
      apply json_content_Some, Hs.
    - intros code response Hc. cbn in Hc. rewrite lookup_empty in Hc. discriminate. }
  assert (Hend : forall op n1,
             operation_encodable op ->
             exists op' n',
               (let* operation :=
                  (if is_nil_interface (def_Response d) then ret op
                   else
                     let* schema := wrapErr "failed to generate response schema"
                                      (SafeSchemaFromStruct (def_Response d)) in
                     match schema with
                     | Some schema =>
                         ret (put_response "200"
                                (mkResponse "Success" (json_content schema)) op)
                     | None => ret op
                     end) in
                ret (put_response "500" (mkResponse "Internal Server Error" ∅)
                       (put_response "400" (mkResponse "Bad Request" ∅) operation))) n1
               = (Ok op', n') /\ operation_encodable op').
  { intros op n1 Hop. monad_step.
    destruct (is_nil_interface (def_Response d)).
    - eexists _, _. split; [reflexivity |].
      do 2 (apply put_response_encodable; [apply json_of_Response_plain |]). exact Hop.
    - destruct (SafeSchemaFromStruct_sample _ n1 Hresp) as (s & n2 & -> & Hs).
      eexists _, _. split; [reflexivity |].
      do 2 (apply put_response_encodable; [apply json_of_Response_plain |]).
      apply put_response_encodable; [| exact Hop].
      apply json_of_Response_Some, json_content_Some, Hs. }
  destruct (is_nil_interface (def_Request d)).
  - apply (Hend _ n Hnew).
  - destruct (SafeSchemaFromStruct_sample _ n Hreq) as (s & n1 & -> & Hs).
    apply (Hend _ n1 (Hbody s Hs)).
Qed.

Lemma set_method_encodable (method : string) (op : Operation) (item : PathItem) :
  operation_encodable op -> item_encodable item ->
  item_encodable (set_method method op item).
Proof.
  intros Hop Hitem method' op' Hget.
  apply get_set_method in Hget as [[_ ->] | Hget]; [exact Hop | exact (Hitem _ _ Hget)].
Qed.

Lemma build_paths_total (defs : list APIDefinition) :
  Forall documentable defs ->
  forall (paths : gmap string PathItem) (n : nat),
  (forall path item, paths !! path = Some item -> item_encodable item) ->
  exists paths' n',
    build_paths defs paths n = (Ok paths', n') /\
    (forall path item, paths' !! path = Some item -> item_encodable item).
Proof.
  induction 1 as [| d defs Hd _ IH]; intros paths n Hpaths.
  - exists paths, n. split; [reflexivity | exact Hpaths].
  - cbn [build_paths]. monad_step.
    destruct (build_operation_total d n Hd) as (op & n1 & -> & Hop).
    apply IH. intros path item.
    destruct (decide (def_Path d = path)) as [<- | Hne].
    + rewrite lookup_insert_eq. intros [= <-].
      apply set_method_encodable; [exact Hop |].
      destruct (paths !! def_Path d) as [item |] eqn:Hitem; cbn.
      * exact (Hpaths _ _ Hitem).
      * intros m o Hget. rewrite get_method_empty in Hget. discriminate.
    + rewrite lookup_insert_ne by exact Hne. apply Hpaths.
Qed.

Lemma json_of_PathItem_Some (path : string) (item : PathItem) :
  item_encodable item -> is_Some (json_of_PathItem (default_item path item)).
Proof.
  intros Hitem.
  assert (Hslot : forall method slot,
             get_method method item = slot ->
             is_Some (json_of_ptr json_of_Operation (add_defaults path <$> slot))).
  { intros method slot Hget. apply json_of_ptr_Some. intros op Hop.
    destruct slot as [op0 |]; [| discriminate]. injection Hop as <-.
    apply json_of_Operation_Some, add_defaults_encodable. exact (Hitem _ _ Hget). }
  unfold json_of_PathItem, default_item. cbn [pi_Get pi_Post pi_Put pi_Delete pi_Patch].
  apply object_Some. repeat constructor; apply omitempty_Some.
  - apply (Hslot "GET"). reflexivity.
  - apply (Hslot "POST"). reflexivity.
  - apply (Hslot "PUT"). reflexivity.
  - apply (Hslot "DELETE"). reflexivity.
  - apply (Hslot "PATCH"). reflexivity.
Qed.

Lemma json_of_Components_Some (schemes : gmap string SecurityScheme) :
  is_Some (json_of_Components (mkComponents ∅ schemes ∅ ∅ ∅ ∅ ∅)).
Proof.
  unfold json_of_Components.
  cbn [comp_Schemas comp_SecuritySchemes comp_Parameters comp_RequestBodies
       comp_Responses comp_Headers comp_Examples].
  apply object_Some. repeat constructor; apply omitempty_Some, json_of_map_Some;
    intros k v Hk; try (rewrite lookup_empty in Hk; discriminate Hk).
  apply json_of_SecurityScheme_Some.
Qed.

Lemma json_of_Doc_Some (r : APIRouter) (paths : gmap string PathItem) :
  (forall path item, paths !! path = Some item -> item_encodable item) ->
  is_Some (json_of_Doc (document_of r paths)).
Proof.
  intros Hpaths. unfold json_of_Doc, document_of.
  cbn [doc_OpenAPI doc_Info doc_Servers doc_Paths doc_Components doc_Security doc_Tags
       doc_ExternalDocs info_Title info_Version info_Description].
  apply object_Some. repeat constructor.
  - apply member_Some, json_string_Some.
  - apply member_Some, object_Some. repeat constructor; apply member_Some, json_string_Some.
  - apply member_Some, json_of_list_Some. repeat constructor. apply json_of_Server_Some.
  - apply member_Some, json_of_map_Some. intros path item. rewrite map_lookup_imap.
    destruct (paths !! path) as [item0 |] eqn:Hitem; [| discriminate].
    cbn [bind option_bind]. intros [= <-].
    apply json_of_PathItem_Some. exact (Hpaths _ _ Hitem).
  - apply omitempty_Some. cbn [json_of_ptr]. apply json_of_Components_Some.
  - apply omitempty_Some, json_of_Security_Some.
  - apply omitempty_Some, json_of_list_Some. constructor.
  - apply omitempty_Some. cbn [json_of_ptr]. eauto.
Qed.

(** ** Synthesis on every type *)

Ltac walk_step :=
  unfold walk_bind, walk_wrapErr, walk_ret, walk_fail, walk_panic, walk_overflow,
    walk_Now, walk_recover; cbn beta iota.

Lemma createSchema_unfold (fuel : nat) (t : RType) :
  createSchemaFromGoType_full (S fuel) t =
  createSchema_body (createSchemaFromGoType_full fuel) t.
Proof. reflexivity. Qed.

Lemma slice_body (A : Type) (elem : RType) (bytes other : A) :
  match underlying elem with
  | RBasic KUint8 => bytes
  | _ => other
  end = if is_byte (underlying elem) then bytes else other.
Proof. destruct (underlying elem) as [[] | | | | | | | | | |]; reflexivity. Qed.

Lemma visible_names_full_cons (fieldName : string) (tag : StructTag) (ty : RType)
    (more : RFields) :
  visible_names_full (RCons fieldName tag ty more) =
    (if field_skipped tag then visible_names_full more
     else json_name tag :: visible_names_full more) /\
  required_names_full (RCons fieldName tag ty more) =
    (if field_skipped tag then required_names_full more
     else if marked_required tag then json_name tag :: required_names_full more
          else required_names_full more).
Proof.
  unfold visible_names_full, required_names_full. cbn [field_tags_full List.filter].
  rewrite field_skipped_visible. destruct (externally_visible tag); cbn [negb List.filter].
  - destruct (marked_required tag); split; reflexivity.
  - split; reflexivity.
Qed.

(** The walk over a type on which it ends returns a schema, from some
    depth of recursion on. *)
Lemma settles_returns :
  (forall t, settles t ->
     exists fuel0, forall n, exists s n',
       forall fuel, (fuel0 <= fuel)%nat ->
         createSchemaFromGoType_full fuel t n = (Returned (Ok (Some s)), n')) /\
  (forall fs, settles_fields fs ->
     exists fuel0, forall props required n, exists props' n',
       dom props' = dom props ∪ list_to_set (visible_names_full fs) /\
       forall fuel, (fuel0 <= fuel)%nat ->
         struct_fields_full (createSchemaFromGoType_full fuel) fs props required n =
           (Returned (Ok (props', (required ++ required_names_full fs)%list)), n')).
Proof.
  assert (Hone : forall t (res : completion (option SchemaMap) * nat) n,
             (forall self, createSchema_body self t n = res) ->
             forall fuel, (1 <= fuel)%nat -> createSchemaFromGoType_full fuel t n = res).
  { intros t res n Hbody fuel Hfuel. destruct fuel as [| fuel]; [lia |].
    rewrite createSchema_unfold. apply Hbody. }
  assert (Hnest : forall (t elem : RType) (fuel0 : nat) text key ty,
             (forall n, exists s n',
                 forall fuel, (fuel0 <= fuel)%nat ->
                   createSchemaFromGoType_full fuel elem n = (Returned (Ok (Some s)), n')) ->
             (forall self,
                 createSchema_body self t =
                 (let+ elemSchema := walk_wrapErr text (self elem) in
                  walk_ret (Some (schema2 ty key (boxed elemSchema))))) ->
             forall n, exists s n',
               forall fuel, (S fuel0 <= fuel)%nat ->
                 createSchemaFromGoType_full fuel t n = (Returned (Ok (Some s)), n')).
  { intros t elem fuel0 text key ty IH Hbody n. destruct (IH n) as (s & n' & Hs).
    eexists _, n'. intros fuel Hfuel. destruct fuel as [| fuel]; [lia |].
    rewrite createSchema_unfold, Hbody. walk_step. rewrite Hs by lia. reflexivity. }
  apply settles_mutind.
  - (* no part to walk *)
    intros t Hno. exists 1%nat. intros n.
    destruct (underlying t) as [k | | | | | | | | | |] eqn:Hu; try discriminate Hno.
    + destruct k; eexists _, n; apply Hone; intros self;
        unfold createSchema_body; rewrite Hu; reflexivity.
    + eexists _, n. apply Hone. intros self. unfold createSchema_body. rewrite Hu.
      reflexivity.
    + eexists _, n. apply Hone. intros self. unfold createSchema_body. rewrite Hu.
      reflexivity.
    + eexists _, n. apply Hone. intros self. unfold createSchema_body. rewrite Hu.
      reflexivity.
    + eexists _, n. apply Hone. intros self. unfold createSchema_body. rewrite Hu.
      reflexivity.
    + eexists _, n. apply Hone. intros self. unfold createSchema_body. rewrite Hu.
      reflexivity.
  - (* bytes *)
    intros t elem Hu Hbyte. exists 1%nat. intros n. eexists _, n. apply Hone.
    intros self. unfold createSchema_body. rewrite Hu, slice_body, Hbyte. reflexivity.
  - (* slice *)
    intros t elem Hu _ [fuel0 IH].
    destruct (is_byte (underlying elem)) eqn:Hbyte.
    + exists 1%nat. intros n. eexists _, n. apply Hone.
      intros self. unfold createSchema_body. rewrite Hu, slice_body, Hbyte. reflexivity.
    + exists (S fuel0). eapply (Hnest t elem fuel0); [exact IH |].
      intros self. unfold createSchema_body. rewrite Hu, slice_body, Hbyte. reflexivity.
  - (* array *)
    intros t len elem Hu _ [fuel0 IH]. exists (S fuel0).
    eapply (Hnest t elem fuel0); [exact IH |].
    intros self. unfold createSchema_body. rewrite Hu. reflexivity.
  - (* pointer *)
    intros t elem Hu _ [fuel0 IH]. exists (S fuel0). intros n.
    destruct (IH n) as (s & n' & Hs). exists s, n'. intros fuel Hfuel.
    destruct fuel as [| fuel]; [lia |].
    rewrite createSchema_unfold. unfold createSchema_body. rewrite Hu. apply Hs. lia.
  - (* map *)
    intros t key elem Hu _ [fuel0 IH]. exists (S fuel0).
    eapply (Hnest t elem fuel0); [exact IH |].
    intros self. unfold createSchema_body. rewrite Hu. reflexivity.
  - (* time.Time *)
    intros t name timeMethod fields Hu Hname. exists 1%nat. intros n.
    eexists _, (S n). apply Hone. intros self. unfold createSchema_body.
    rewrite Hu, Hname. reflexivity.
  - (* a Time method that returns *)
    intros t name formatted fields Hu. exists 1%nat. intros n.
    destruct (String.eqb (RType_String t) "time.Time") eqn:Hname.
    + eexists _, (S n). apply Hone. intros self. unfold createSchema_body.
      rewrite Hu, Hname. reflexivity.
    + eexists _, n. apply Hone. intros self. unfold createSchema_body.
      rewrite Hu, Hname. reflexivity.
  - (* struct *)
    intros t name fields Hu _ [fuel0 IH].
    destruct (String.eqb (RType_String t) "time.Time") eqn:Hname.
    + exists 1%nat. intros n. eexists _, (S n). apply Hone. intros self.
      unfold createSchema_body. rewrite Hu, Hname. reflexivity.
    + exists (S fuel0). intros n.
      destruct (IH ∅ [] n) as (props & n' & _ & Hrun).
      eexists _, n'. intros fuel Hfuel. destruct fuel as [| fuel]; [lia |].
      rewrite createSchema_unfold. unfold createSchema_body. rewrite Hu, Hname.
      walk_step. rewrite Hrun by lia. reflexivity.
  - (* no field *)
    exists 0%nat. intros props required n. exists props, n. split.
    + cbn. rewrite union_empty_r_L. reflexivity.
    + intros fuel _. cbn. rewrite app_nil_r. reflexivity.
  - (* a skipped field *)
    intros fieldName tag ty more Hskip _ [fuel0 IH]. exists fuel0.
    intros props required n. destruct (IH props required n) as (props' & n' & Hdom & Hrun).
    destruct (visible_names_full_cons fieldName tag ty more) as [-> ->]. rewrite Hskip.
    exists props', n'. split; [exact Hdom |].
    intros fuel Hfuel. cbn [struct_fields_full]. rewrite Hskip. apply Hrun, Hfuel.
  - (* a visible field *)
    intros fieldName tag ty more _ [fuel1 IHty] _ [fuel2 IH].
    exists (Nat.max fuel1 fuel2). intros props required n.
    destruct (visible_names_full_cons fieldName tag ty more) as [-> ->].
    destruct (field_skipped tag) eqn:Hskip.
    + destruct (IH props required n) as (props' & n' & Hdom & Hrun).
      exists props', n'. split; [exact Hdom |].
      intros fuel Hfuel. cbn [struct_fields_full]. rewrite Hskip. apply Hrun. lia.
    + destruct (IHty n) as (s & n1 & Hs).
      destruct (IH (<[json_name tag := AMap (decorate tag s)]> props)
                  (if marked_required tag then (required ++ [json_name tag])%list
                   else required) n1) as (props' & n' & Hdom & Hrun).
      exists props', n'. split.
      * rewrite Hdom, dom_insert_L. cbn [list_to_set].
        rewrite (assoc_L (∪)), (comm_L (∪) (dom props)). reflexivity.
      * intros fuel Hfuel. cbn [struct_fields_full]. rewrite Hskip. walk_step.
        rewrite Hs by lia. rewrite field_jsonName_spec, field_isRequired_spec.
        rewrite Hrun by lia. destruct (marked_required tag).
        -- rewrite <- app_assoc. reflexivity.
        -- reflexivity.
Qed.


(** *** What synthesis never does *)

(** [createSchemaFromGoType] and the field loop return no error. *)
Lemma struct_fields_full_no_error (self : RType -> Walk (option SchemaMap)) :
  (forall t n e, (self t n).1 <> Returned (Err e)) ->
  forall fs props required n e,
    (struct_fields_full self fs props required n).1 <> Returned (Err e).
Proof.
  intros Hself. induction fs as [| fieldName tag ty more IH]; intros props required n e.
  - cbn. discriminate.
  - cbn [struct_fields_full]. destruct (field_skipped tag); [apply IH |].
    walk_step. pose proof (Hself ty n) as Hty.
    destruct (self ty n) as [[[[s |] | e0] | value |] n1]; cbn [fst] in *.
    + apply IH.
    + apply IH.
    + exfalso. exact (Hty e0 eq_refl).
    + discriminate.
    + discriminate.
Qed.

Lemma createSchema_body_no_error (self : RType -> Walk (option SchemaMap)) :
  (forall t n e, (self t n).1 <> Returned (Err e)) ->
  forall t n e, (createSchema_body self t n).1 <> Returned (Err e).
Proof.
  intros Hself t n e.
  assert (Hnest : forall elem text key ty,
             ((let+ elemSchema := walk_wrapErr text (self elem) in
               walk_ret (Some (schema2 ty key (boxed elemSchema)))) n).1
             <> Returned (Err e)).
  { intros elem text key ty. walk_step. pose proof (Hself elem n) as He.
    destruct (self elem n) as [[[r | e0] | value |] n1]; cbn [fst] in *;
      [discriminate | exfalso; exact (He e0 eq_refl) | discriminate | discriminate]. }
  unfold createSchema_body.
  destruct (underlying t) as [k | len elem | elem | elem | key elem | elem | sig |
                              | name timeMethod fields | name u | name];
    try (cbn; discriminate).
  - destruct k; cbn; discriminate.
  - apply Hnest.
  - rewrite slice_body. destruct (is_byte (underlying elem)); [cbn; discriminate |].
    apply Hnest.
  - apply Hself.
  - apply Hnest.
  - destruct (String.eqb (RType_String t) "time.Time"); [cbn; discriminate |].
    destruct timeMethod as [[formatted | value] |]; try (cbn; discriminate).
    walk_step.
    pose proof (struct_fields_full_no_error self Hself fields ∅ [] n) as Hloop.
    destruct (struct_fields_full self fields ∅ [] n) as [[[[props required] | e0] | value |] n1];
      cbn [fst] in *;
      [discriminate | exfalso; exact (Hloop e0 eq_refl) | discriminate | discriminate].
Qed.

Lemma createSchema_no_error (fuel : nat) (t : RType) (n : nat) (e : error) :
  (createSchemaFromGoType_full fuel t n).1 <> Returned (Err e).
Proof.
  revert t n e. induction fuel as [| fuel IH]; intros t n e.
  - cbn. discriminate.
  - rewrite createSchema_unfold. apply createSchema_body_no_error. exact IH.
Qed.

(** [SafeSchemaFromStruct] returns an error in two cases only. The type of
    the sample, after one pointer is removed, is not of struct kind: the
    error is [ErrInvalidType] with what [t.String()] prints, the name of a
    defined type included, and [SchemaFromStruct] returns its own error for
    it. Or [SchemaFromStruct] panics, which it does when a [Time] method
    reached by the walk panics: the deferred [recover] returns
    [panic in schema generation] with the value. The wrapped
    [failed to generate schema] error is never returned, since no field of
    a struct makes [SchemaFromStruct] return an error. [SafeSchemaFromStruct]
    never panics; when it returns a schema, or overflows the stack, it does
    what [SchemaFromStruct] does. *)
Theorem SafeSchemaFromStruct_errors (fuel : nat) (v : RIface) (n : nat) :
  (forall e, (SafeSchemaFromStruct_full fuel v n).1 = Returned (Err e) <->
     (exists t, RTypeOf v = Some t /\ is_struct_kind (deref_kind t) = false /\
                e = ErrInvalidType (RType_String (deref_kind t))) \/
     (exists value, (SchemaFromStruct_full fuel v n).1 = Panicked value /\
                    e = Errorf ("panic in schema generation: " +:+ value))) /\
  (forall e, (SchemaFromStruct_full fuel v n).1 = Returned (Err e) <->
     exists t, RTypeOf v = Some t /\ is_struct_kind (deref_kind t) = false /\
               e = Errorf ("input must be a struct type, got " +:+
                           RType_String (deref_kind t))) /\
  (forall value, (SafeSchemaFromStruct_full fuel v n).1 <> Panicked value) /\
  match (SafeSchemaFromStruct_full fuel v n).1 with
  | Returned (Ok _) | Overflowed =>
      SafeSchemaFromStruct_full fuel v n = SchemaFromStruct_full fuel v n
  | _ => True
  end.
Proof.
  unfold SafeSchemaFromStruct_full, SchemaFromStruct_full, is_struct_kind.
  destruct (RTypeOf v) as [t |]; cbv zeta.
  - destruct (underlying (deref_kind t))
      as [k | len elem | elem | elem | key elem | elem | sig |
          | name timeMethod fields | name u | name] eqn:Hu;
      cbn [negb]; walk_step; cbn [fst];
      try (split; [| split; [| split; [discriminate | exact I]]]; intros e;
           (split;
            [intros [= <-]; first [left; exists t; rewrite Hu; auto
                                  | exists t; rewrite Hu; auto]
            | first [intros [(t' & [= <-] & _ & ->) | (value & Hp & _)];
                     [reflexivity | discriminate Hp]
                    | intros (t' & [= <-] & _ & ->); reflexivity]])).
    pose proof (struct_fields_full_no_error (createSchemaFromGoType_full fuel)
                  (createSchema_no_error fuel) fields ∅ [] n) as Hloop.
    destruct (struct_fields_full (createSchemaFromGoType_full fuel) fields ∅ [] n)
      as [[[[props required] | e0] | value |] n1]; cbn [fst] in *.
    + split; [| split; [| split; [discriminate | reflexivity]]]; intros e.
      * split; [discriminate |].
        intros [(t' & [= <-] & Hs & _) | (value & Hp & _)];
          [rewrite Hu in Hs; discriminate Hs | discriminate Hp].
      * split; [discriminate | intros (t' & [= <-] & Hs & _); rewrite Hu in Hs; discriminate Hs].
    + exfalso. exact (Hloop e0 eq_refl).
    + split; [| split; [| split; [discriminate | exact I]]]; intros e.
      * split.
        -- intros [= <-]. right. exists value. split; reflexivity.
        -- intros [(t' & [= <-] & Hs & _) | (value' & [= <-] & ->)];
             [rewrite Hu in Hs; discriminate Hs | reflexivity].
      * split; [discriminate | intros (t' & [= <-] & Hs & _); rewrite Hu in Hs; discriminate Hs].
    + split; [| split; [| split; [discriminate | reflexivity]]]; intros e.
      * split; [discriminate |].
        intros [(t' & [= <-] & Hs & _) | (value & Hp & _)];
          [rewrite Hu in Hs; discriminate Hs | discriminate Hp].
      * split; [discriminate | intros (t' & [= <-] & Hs & _); rewrite Hu in Hs; discriminate Hs].
  - cbn. split; [| split; [| split; [discriminate | reflexivity]]]; intros e.
    + split; [discriminate |].
      intros [(t' & Ht & _) | (value & Hp & _)]; discriminate.
    + split; [discriminate | intros (t' & Ht & _); discriminate].
Qed.

(** *** The shape of what synthesis returns *)

Lemma struct_fields_full_shape (self : RType -> Walk (option SchemaMap)) :
  (forall t n r n', self t n = (Returned (Ok r), n') ->
                    exists s, r = Some s /\ well_formed s) ->
  forall fs props required n props' required' n',
    struct_fields_full self fs props required n = (Returned (Ok (props', required')), n') ->
    (forall name v, props !! name = Some v ->
                    exists field, v = AMap field /\ well_formed field) ->
    (forall name, name ∈ required -> is_Some (props !! name)) ->
    (forall name v, props' !! name = Some v ->
                    exists field, v = AMap field /\ well_formed field) /\
    (forall name, name ∈ required' -> is_Some (props' !! name)).
Proof.
  intros Hself. induction fs as [| fieldName tag ty more IH];
    intros props required n props' required' n'.
  - cbn. intros [= <- <- <-]. auto.
  - cbn [struct_fields_full]. destruct (field_skipped tag); [apply IH |].
    walk_step. destruct (self ty n) as [[[r | e] | value |] n1] eqn:Hty; try discriminate.
    destruct (Hself _ _ _ _ Hty) as (s & -> & Hwf).
    intros Hrun Hprops Hreq. apply (IH _ _ _ _ _ _ Hrun).
    + intros k v. destruct (decide (field_jsonName tag = k)) as [<- | Hne].
      * rewrite lookup_insert_eq. intros [= <-]. eexists. split; [reflexivity |].
        apply well_formed_decorate. exact Hwf.
      * rewrite lookup_insert_ne by exact Hne. apply Hprops.
    + assert (Hold : forall k, k ∈ required ->
                is_Some (<[field_jsonName tag := AMap (decorate tag s)]> props !! k)).
      { intros k Hk. destruct (decide (field_jsonName tag = k)) as [<- | Hne].
        - rewrite lookup_insert_eq. eauto.
        - rewrite lookup_insert_ne by exact Hne. exact (Hreq k Hk). }
      destruct (field_isRequired tag); [| exact Hold].
      intros k Hk. apply elem_of_app in Hk as [Hk | Hk]; [exact (Hold k Hk) |].
      apply list_elem_of_singleton in Hk as ->. rewrite lookup_insert_eq. eauto.
Qed.

Lemma createSchema_body_shape (self : RType -> Walk (option SchemaMap)) :
  (forall t n r n', self t n = (Returned (Ok r), n') ->
                    exists s, r = Some s /\ well_formed s) ->
  forall t n r n', createSchema_body self t n = (Returned (Ok r), n') ->
                   exists s, r = Some s /\ well_formed s.
Proof.
  intros Hself t n r n'.
  destruct well_formed_literals as (Hs1 & Hnum & Huns & Hdate).
  assert (Hstring : "string" ∈ scalar_types) by repeat constructor.
  assert (Hinteger : "integer" ∈ scalar_types) by repeat constructor.
  assert (Hnumber : "number" ∈ scalar_types) by repeat constructor.
  assert (Hboolean : "boolean" ∈ scalar_types) by repeat constructor.
  assert (Hlit : forall s : SchemaMap,
             well_formed s ->
             (Returned (Ok (Some s)), n) = (Returned (Ok r), n') ->
             exists s', r = Some s' /\ well_formed s').
  { intros s Hwf [= <- <-]. eauto. }
  assert (Harray : forall elem,
             (let+ elemSchema := walk_wrapErr "failed to create schema for array element"
                                   (self elem) in
              walk_ret (Some (schema2 "array" "items" (boxed elemSchema)))) n
             = (Returned (Ok r), n') ->
             exists s, r = Some s /\ well_formed s).
  { intros elem. walk_step.
    destruct (self elem n) as [[[re | e] | value |] n1] eqn:He; try discriminate.
    destruct (Hself _ _ _ _ He) as (es & -> & Hes).
    intros [= <- <-]. eexists. split; [reflexivity |]. apply (wf_array _ es).
    - unfold schema2, schema1. by simplify_map_eq.
    - unfold schema2, schema1. by simplify_map_eq.
    - exact Hes. }
  unfold createSchema_body.
  destruct (underlying t) as [k | len elem | elem | elem | key elem | elem | sig |
                              | name timeMethod fields | name u | name].
  - destruct k; apply Hlit; auto.
  - apply Harray.
  - rewrite slice_body. destruct (is_byte (underlying elem)); [apply Hlit; auto |].
    apply Harray.
  - apply Hself.
  - walk_step.
    destruct (self elem n) as [[[re | e] | value |] n1] eqn:He; try discriminate.
    destruct (Hself _ _ _ _ He) as (es & -> & Hes).
    intros [= <- <-]. eexists. split; [reflexivity |]. apply (wf_map_object _ es).
    + unfold schema2, schema1. by simplify_map_eq.
    + unfold schema2, schema1. by simplify_map_eq.
    + exact Hes.
  - apply Hlit; auto.
  - apply Hlit; auto.
  - apply Hlit. apply wf_any_object.
    + unfold schema2, schema1. by simplify_map_eq.
    + unfold schema2, schema1. by simplify_map_eq.
  - destruct (String.eqb (RType_String t) "time.Time").
    { walk_step. intros [= <- <-]. eauto. }
    destruct timeMethod as [[formatted | value] |].
    + apply Hlit; auto.
    + walk_step. discriminate.
    + walk_step.
      destruct (struct_fields_full self fields ∅ [] n)
        as [[[[props required] | e] | value |] n1] eqn:Hrun; try discriminate.
      intros [= <- <-]. eexists. split; [reflexivity |].
      destruct (struct_fields_full_shape self Hself _ _ _ _ _ _ _ Hrun) as [Hprops Hreq].
      * intros k v Hk. rewrite lookup_empty in Hk. discriminate.
      * intros k Hk. inversion Hk.
      * apply well_formed_object_schema; assumption.
  - apply Hlit; auto.
  - apply Hlit; auto.
Qed.

Lemma createSchema_shape (fuel : nat) :
  forall t n r n', createSchemaFromGoType_full fuel t n = (Returned (Ok r), n') ->
                   exists s, r = Some s /\ well_formed s.
Proof.
  induction fuel as [| fuel IH]; intros t n r n'.
  - cbn. discriminate.
  - rewrite createSchema_unfold. apply createSchema_body_shape. exact IH.
Qed.

Lemma createSchema_no_nil (fuel : nat) (t : RType) (n : nat) :
  match (createSchemaFromGoType_full fuel t n).1 with
  | Returned (Ok (Some s)) => well_formed s
  | Returned (Ok None) | Returned (Err _) => False
  | Panicked _ | Overflowed => True
  end.
Proof.
  pose proof (createSchema_no_error fuel t n) as Herr.
  destruct (createSchemaFromGoType_full fuel t n) as [[[r | e] | value |] n'] eqn:Hrun;
    cbn [fst] in *; try exact I.
  - destruct (createSchema_shape fuel _ _ _ _ Hrun) as (s & -> & Hwf). exact Hwf.
  - exact (Herr e eq_refl).
Qed.

(** Whatever synthesis returns is well formed. When
    [createSchemaFromGoType], [SchemaFromStruct] or [SafeSchemaFromStruct]
    returns without an error, on whatever type and at whatever depth, it
    returns a schema, not a nil map, and the schema has a type among the
    schema types, nested schemas that are well formed, and a required list
    that names properties only; [createSchemaFromGoType] returns no error
    either. These say nothing of whether the call returns: it does on the
    types on which the walk ends, from some depth of recursion on, and on a
    type that contains itself or has a [Time] method that panics it does
    not. *)
Theorem synthesized_schema_well_formed (n : nat) :
  (forall (fuel : nat) (t : RType),
      match (createSchemaFromGoType_full fuel t n).1 with
      | Returned (Ok (Some s)) => well_formed s
      | Returned (Ok None) | Returned (Err _) => False
      | Panicked _ | Overflowed => True
      end) /\
  (forall (fuel : nat) (v : RIface),
      match (SchemaFromStruct_full fuel v n).1 with
      | Returned (Ok (Some s)) => well_formed s
      | Returned (Ok None) => False
      | _ => True
      end) /\
  (forall (fuel : nat) (v : RIface),
      match (SafeSchemaFromStruct_full fuel v n).1 with
      | Returned (Ok (Some s)) => well_formed s
      | Returned (Ok None) => False
      | _ => True
      end) /\
  (forall t : RType,
      settles t ->
      exists (fuel0 : nat) (s : SchemaMap) (n' : nat),
        (forall fuel, (fuel0 <= fuel)%nat ->
           createSchemaFromGoType_full fuel t n = (Returned (Ok (Some s)), n')) /\
        well_formed s).
Proof.
  assert (Hempty : well_formed empty_object).
  { apply (well_formed_object_schema ∅ []).
    - intros k v Hk. rewrite lookup_empty in Hk. discriminate.
    - intros k Hk. inversion Hk. }
  assert (Hstruct : forall fuel v,
             match (SchemaFromStruct_full fuel v n).1 with
             | Returned (Ok (Some s)) => well_formed s
             | Returned (Ok None) => False
             | _ => True
             end).
  { intros fuel v. unfold SchemaFromStruct_full.
    destruct (RTypeOf v) as [t |]; [| exact Hempty]. cbv zeta.
    destruct (underlying (deref_kind t)) as [| | | | | | | | name timeMethod fields | |];
      try exact I.
    walk_step.
    destruct (struct_fields_full (createSchemaFromGoType_full fuel) fields ∅ [] n)
      as [[[[props required] | e] | value |] n1] eqn:Hrun; try exact I.
    destruct (struct_fields_full_shape _ (createSchema_shape fuel) _ _ _ _ _ _ _ Hrun)
      as [Hprops Hreq].
    - intros k x Hk. rewrite lookup_empty in Hk. discriminate.
    - intros k Hk. inversion Hk.
    - cbn. apply well_formed_object_schema; assumption. }
  split; [| split; [exact Hstruct | split]].
  - intros fuel t. apply createSchema_no_nil.
  - intros fuel v. specialize (Hstruct fuel v). unfold SafeSchemaFromStruct_full.
    destruct (RTypeOf v) as [t |]; [| exact Hempty]. cbv zeta.
    destruct (negb (is_struct_kind (deref_kind t))); [exact I |].
    walk_step.
    destruct (SchemaFromStruct_full fuel v n) as [[[r | e] | value |] n1];
      first [exact Hstruct | exact I].
  - intros t Hsettles.
    destruct (proj1 settles_returns t Hsettles) as [fuel0 Hrun].
    destruct (Hrun n) as (s & n' & Hs).
    exists fuel0, s, n'. split; [exact Hs |].
    destruct (createSchema_shape fuel0 t n (Some s) n' (Hs fuel0 (Nat.le_refl _)))
      as (s' & [= <-] & Hwf).
    exact Hwf.
Qed.

(** [SafeSchemaFromStruct] on nil, with the deferred recover in place: the
    nil interface gives the empty object schema, and a nil pointer is
    handled by its type alone. *)
Lemma SafeSchemaFromStruct_full_nil (fuel : nat) (n : nat) :
  SafeSchemaFromStruct_full fuel RNilInterface n = (Returned (Ok (Some empty_object)), n) /\
  (forall elem : RType,
      SafeSchemaFromStruct_full fuel (RNilPointer elem) n =
      SafeSchemaFromStruct_full fuel (RValue (RPtr elem)) n) /\
  (forall elem : RType,
      is_struct_kind elem = false ->
      SafeSchemaFromStruct_full fuel (RNilPointer elem) n =
      (Returned (Err (ErrInvalidType (RType_String elem))), n)).
Proof.
  split; [reflexivity |]. split; [reflexivity |].
  intros elem Hno. unfold SafeSchemaFromStruct_full. cbn [RTypeOf].
  change (deref_kind (RPtr elem)) with elem. cbv zeta. rewrite Hno. reflexivity.
Qed.

(** *** The walk ends exactly where a call returns *)

Lemma struct_fields_full_settles (self : RType -> Walk (option SchemaMap)) :
  (forall t n r n', self t n = (Returned (Ok r), n') -> settles t) ->
  forall fs props required n res n',
    struct_fields_full self fs props required n = (Returned (Ok res), n') ->
    settles_fields fs.
Proof.
  intros Hself. induction fs as [| fieldName tag ty more IH];
    intros props required n res n'.
  - intros _. apply settles_nil.
  - cbn [struct_fields_full]. destruct (field_skipped tag) eqn:Hskip.
    + intros Hrun. apply settles_skipped; [exact Hskip |]. exact (IH _ _ _ _ _ Hrun).
    + walk_step.
      destruct (self ty n) as [[[r | e] | value |] n1] eqn:Hty; try discriminate.
      intros Hrun. apply settles_visible; [exact (Hself _ _ _ _ Hty) |].
      destruct r as [s |]; exact (IH _ _ _ _ _ Hrun).
Qed.

Lemma createSchema_body_settles (self : RType -> Walk (option SchemaMap)) :
  (forall t n r n', self t n = (Returned (Ok r), n') -> settles t) ->
  forall t n r n', createSchema_body self t n = (Returned (Ok r), n') -> settles t.
Proof.
  intros Hself t n r n'.
  assert (Hnest : forall elem text key ty,
             (let+ elemSchema := walk_wrapErr text (self elem) in
              walk_ret (Some (schema2 ty key (boxed elemSchema)))) n
             = (Returned (Ok r), n') ->
             settles elem).
  { intros elem text key ty. walk_step.
    destruct (self elem n) as [[[re | e] | value |] n1] eqn:He; try discriminate.
    intros _. exact (Hself _ _ _ _ He). }
  unfold createSchema_body.
  destruct (underlying t) as [k | len elem | elem | elem | key elem | elem | sig |
                              | name timeMethod fields | name u | name] eqn:Hu;
    try (intros _; apply settles_no_part; rewrite Hu; reflexivity).
  - intros Hrun. apply (settles_array t len elem Hu). exact (Hnest _ _ _ _ Hrun).
  - rewrite slice_body. destruct (is_byte (underlying elem)) eqn:Hbyte.
    + intros _. exact (settles_bytes t elem Hu Hbyte).
    + intros Hrun. apply (settles_slice t elem Hu). exact (Hnest _ _ _ _ Hrun).
  - intros Hrun. apply (settles_ptr t elem Hu). exact (Hself _ _ _ _ Hrun).
  - intros Hrun. apply (settles_map t key elem Hu). exact (Hnest _ _ _ _ Hrun).
  - destruct (String.eqb (RType_String t) "time.Time") eqn:Htime.
    { intros _. apply String.eqb_eq in Htime.
      exact (settles_time t name timeMethod fields Hu Htime). }
    destruct timeMethod as [[formatted | value] |].
    + intros _. exact (settles_method t name formatted fields Hu).
    + walk_step. discriminate.
    + walk_step.
      destruct (struct_fields_full self fields ∅ [] n)
        as [[[[props required] | e] | value |] n1] eqn:Hrun; try discriminate.
      intros _. apply (settles_struct t name fields Hu).
      exact (struct_fields_full_settles self Hself _ _ _ _ _ _ Hrun).
Qed.

(** A call that returns has walked a type on which the walk ends: with
    [settles_returns], [settles] holds of exactly the types on which
    [createSchemaFromGoType] returns. *)
Lemma returns_settles (fuel : nat) (t : RType) (n : nat) (r : option SchemaMap)
    (n' : nat) :
  createSchemaFromGoType_full fuel t n = (Returned (Ok r), n') -> settles t.
Proof.
  revert t n r n'. induction fuel as [| fuel IH]; intros t n r n'.
  - cbn. discriminate.
  - rewrite createSchema_unfold. apply createSchema_body_settles. exact IH.
Qed.

Lemma SchemaFromStruct_returns_settles (fuel : nat) (v : RIface) (fields : RFields)
    (n : nat) (r : option SchemaMap) (n' : nat) :
  struct_sample_full v = Some fields ->
  SchemaFromStruct_full fuel v n = (Returned (Ok r), n') ->
  settles_fields fields.
Proof.
  unfold struct_sample_full, SchemaFromStruct_full.
  destruct (RTypeOf v) as [t |]; [| discriminate]. cbv zeta.
  destruct (underlying (deref_kind t)); try discriminate.
  intros [= ->]. walk_step.
  destruct (struct_fields_full (createSchemaFromGoType_full fuel) fields ∅ [] n)
    as [[[[props required] | e] | value |] n1] eqn:Hrun; try discriminate.
  intros _. exact (struct_fields_full_settles _ (returns_settles fuel) _ _ _ _ _ _ Hrun).
Qed.

(** *** The definitions on finite trees are these *)

Lemma underlying_full (t : GoType) : underlying (full t) = full t.
Proof. destruct t; reflexivity. Qed.

Lemma is_byte_full (t : GoType) :
  is_byte (full t) = match t with TBasic KUint8 => true | _ => false end.
Proof. destruct t as [[] | | | | | | | |]; reflexivity. Qed.

(** On a finite tree, from the height of the tree on, synthesis over
    [RType] returns what the definitions over [GoType] return, whatever
    types are declared. *)
Lemma full_agreement :
  (forall t, exists fuel0, forall fuel n, (fuel0 <= fuel)%nat ->
     createSchemaFromGoType_full fuel (full t) n = returned (createSchemaFromGoType t n)) /\
  (forall fs, exists fuel0, forall fuel props required n, (fuel0 <= fuel)%nat ->
     struct_fields_full (createSchemaFromGoType_full fuel) (full_fields fs) props required n =
     returned (struct_fields fs props required n)).
Proof.
  assert (Hone : forall t (res : completion (option SchemaMap) * nat) n,
             (forall self, createSchema_body self (full t) n = res) ->
             forall fuel, (1 <= fuel)%nat ->
               createSchemaFromGoType_full fuel (full t) n = res).
  { intros t res n Hbody fuel Hfuel. destruct fuel as [| fuel]; [lia |].
    rewrite createSchema_unfold. apply Hbody. }
  assert (Hnest : forall (elem : GoType) (fuel0 : nat) text key ty,
             (forall fuel n, (fuel0 <= fuel)%nat ->
                createSchemaFromGoType_full fuel (full elem) n =
                returned (createSchemaFromGoType elem n)) ->
             forall fuel n, (fuel0 <= fuel)%nat ->
               (let+ elemSchema := walk_wrapErr text
                                     (createSchemaFromGoType_full fuel (full elem)) in
                walk_ret (Some (schema2 ty key (boxed elemSchema)))) n =
               returned ((let* elemSchema := wrapErr text (createSchemaFromGoType elem) in
                          ret (Some (schema2 ty key (boxed elemSchema)))) n)).
  { intros elem fuel0 text key ty IH fuel n Hfuel. walk_step. monad_step.
    rewrite (IH fuel n Hfuel). unfold returned.
    destruct (createSchemaFromGoType elem n) as [[r | e] n1]; reflexivity. }
  apply GoType_mutind.
  - intros k. exists 1%nat. intros fuel n Hfuel. apply Hone; [| exact Hfuel].
    intros self. destruct k; reflexivity.
  - intros len elem [fuel0 IH]. exists (S fuel0). intros fuel n Hfuel.
    destruct fuel as [| fuel]; [lia |].
    rewrite createSchema_unfold, createSchema_array. unfold createSchema_body.
    rewrite (underlying_full (TArray len elem)). cbn [full].
    apply (Hnest elem fuel0); [exact IH | lia].
  - intros elem [fuel0 IH]. exists (S fuel0). intros fuel n Hfuel.
    destruct fuel as [| fuel]; [lia |].
    rewrite createSchema_unfold. unfold createSchema_body.
    rewrite (underlying_full (TSlice elem)). cbn [full].
    rewrite slice_body, underlying_full, is_byte_full, createSchema_slice.
    assert (Helements :
              (let+ elemSchema := walk_wrapErr "failed to create schema for array element"
                                    (createSchemaFromGoType_full fuel (full elem)) in
               walk_ret (Some (schema2 "array" "items" (boxed elemSchema)))) n =
              returned (createSchemaFromGoType (TArray 0 elem) n)).
    { rewrite createSchema_array. apply (Hnest elem fuel0); [exact IH | lia]. }
    destruct elem as [[] | | | | | | | |]; first [exact Helements | reflexivity].
  - intros elem [fuel0 IH]. exists (S fuel0). intros fuel n Hfuel.
    destruct fuel as [| fuel]; [lia |].
    rewrite createSchema_unfold. unfold createSchema_body.
    rewrite (underlying_full (TPtr elem)). cbn [full createSchemaFromGoType].
    apply IH. lia.
  - intros key _ elem [fuel0 IH]. exists (S fuel0). intros fuel n Hfuel.
    destruct fuel as [| fuel]; [lia |].
    rewrite createSchema_unfold. unfold createSchema_body.
    rewrite (underlying_full (TMap key elem)). cbn [full createSchemaFromGoType].
    apply (Hnest elem fuel0); [exact IH | lia].
  - intros elem _. exists 1%nat. intros fuel n Hfuel. apply Hone; [| exact Hfuel].
    intros self. reflexivity.
  - intros sig. exists 1%nat. intros fuel n Hfuel. apply Hone; [| exact Hfuel].
    intros self. reflexivity.
  - exists 1%nat. intros fuel n Hfuel. apply Hone; [| exact Hfuel].
    intros self. reflexivity.
  - intros name timeMethod fields [fuel0 IH]. exists (S fuel0). intros fuel n Hfuel.
    destruct fuel as [| fuel]; [lia |].
    rewrite createSchema_unfold. unfold createSchema_body.
    rewrite (underlying_full (TStruct name timeMethod fields)).
    cbn [full createSchemaFromGoType RType_String].
    destruct (String.eqb name "time.Time"); [reflexivity |].
    destruct timeMethod as [formatted |]; [reflexivity |].
    cbn [fmap option_fmap option_map]. walk_step. monad_step.
    rewrite (IH fuel ∅ [] n) by lia. unfold returned.
    destruct (struct_fields fields ∅ [] n) as [[[props required] | e] n1]; reflexivity.
  - exists 0%nat. intros fuel props required n _. reflexivity.
  - intros fieldName tag ty [fuel1 IHty] more [fuel2 IH]. exists (Nat.max fuel1 fuel2).
    intros fuel props required n Hfuel. cbn [full_fields struct_fields_full struct_fields].
    destruct (field_skipped tag); [apply IH; lia |].
    walk_step. monad_step. rewrite (IHty fuel n) by lia. unfold returned at 1.
    destruct (createSchemaFromGoType ty n) as [[[s |] | e] n1]; cbn [fst snd];
      [apply IH; lia | apply IH; lia | reflexivity].
Qed.

(** So [SchemaFromStruct] and [SafeSchemaFromStruct] over [GoType] are
    those over [RType] on the samples of finite types: no call overflows
    and no [Time] method panics there. *)
Lemma full_agreement_sample (v : Iface) :
  exists fuel0, forall fuel n, (fuel0 <= fuel)%nat ->
    SchemaFromStruct_full fuel (full_value v) n = returned (SchemaFromStruct v n) /\
    SafeSchemaFromStruct_full fuel (full_value v) n = returned (SafeSchemaFromStruct v n).
Proof.
  assert (Hderef : forall t, deref_kind (full t) = full (deref_once t)).
  { intros t. unfold deref_kind. rewrite underlying_full. destruct t; reflexivity. }
  assert (Hstruct : forall t, is_struct_kind (full t) = is_struct t).
  { intros t. unfold is_struct_kind. rewrite underlying_full. destruct t; reflexivity. }
  assert (Hstring : forall t, RType_String (full t) = type_String t).
  { induction t using GoType_Fields_ind
      with (P0 := fun _ => True); cbn; try congruence; auto. }
  assert (Htype : forall t,
             exists fuel0, forall fuel n, (fuel0 <= fuel)%nat ->
               SchemaFromStruct_full fuel (RValue (full t)) n =
                 returned (SchemaFromStruct (Value t) n) /\
               SafeSchemaFromStruct_full fuel (RValue (full t)) n =
                 returned (SafeSchemaFromStruct (Value t) n)).
  { intros t.
    assert (Hsafe : forall fuel n,
               SchemaFromStruct_full fuel (RValue (full t)) n =
                 returned (SchemaFromStruct (Value t) n) ->
               SafeSchemaFromStruct_full fuel (RValue (full t)) n =
                 returned (SafeSchemaFromStruct (Value t) n)).
    { intros fuel n Hs. unfold SafeSchemaFromStruct_full, SafeSchemaFromStruct.
      cbn [RTypeOf reflect_TypeOf]. cbv zeta. rewrite Hderef, Hstruct, Hstring.
      destruct (is_struct (deref_once t)); cbn [negb]; [| reflexivity].
      walk_step. unfold wrapErr. rewrite Hs. unfold returned.
      destruct (SchemaFromStruct (Value t) n) as [[r | e] n1]; reflexivity. }
    assert (Hplain : forall t',
               deref_once t = t' -> is_struct t' = false ->
               forall fuel n,
                 SchemaFromStruct_full fuel (RValue (full t)) n =
                 returned (SchemaFromStruct (Value t) n)).
    { intros t' Ht' Hno fuel n. unfold SchemaFromStruct_full, SchemaFromStruct.
      cbn [RTypeOf reflect_TypeOf]. cbv zeta.
      rewrite Hderef, underlying_full, Hstring, Ht'.
      destruct t'; try discriminate Hno; reflexivity. }
    destruct (deref_once t) as [| | | | | | | | name timeMethod fields] eqn:Ht;
      try (exists 0%nat; intros fuel n _;
           pose proof (Hplain _ eq_refl eq_refl fuel n) as Hs;
           split; [exact Hs | exact (Hsafe fuel n Hs)]).
    destruct (proj2 full_agreement fields) as [fuel0 Hloop].
    exists fuel0. intros fuel n Hfuel.
    assert (Hs : SchemaFromStruct_full fuel (RValue (full t)) n =
                 returned (SchemaFromStruct (Value t) n)).
    { unfold SchemaFromStruct_full, SchemaFromStruct.
      cbn [RTypeOf reflect_TypeOf]. cbv zeta.
      rewrite Hderef, underlying_full, Ht. cbn [full]. walk_step. monad_step.
      rewrite (Hloop fuel ∅ [] n Hfuel). unfold returned.
      destruct (struct_fields fields ∅ [] n) as [[[props required] | e] n1]; reflexivity. }
    split; [exact Hs | exact (Hsafe fuel n Hs)]. }
  destruct v as [| t | elem].
  - exists 0%nat. intros fuel n _. split; reflexivity.
  - apply Htype.
  - destruct (Htype (TPtr elem)) as [fuel0 H]. exists fuel0. exact H.
Qed.

(** ** GenerateSwagger on samples of finite types *)

(** The samples of a router are of types that are finite trees: no struct
    is reached again from its own fields, and a [Time] method, where there
    is one, returns. On such samples [GenerateSwagger] returns a document
    whenever the title and the version are set, a definition is registered,
    and every registered definition can be documented: its request and
    response samples, when there are any, are of struct types (values or
    pointers), and the encoder accepts its parameters. The text of the
    document is cached. And on each of these samples [SafeSchemaFromStruct]
    with its deferred recover, over the declared types of any program,
    returns from some depth of recursion on what the synthesis of
    [GenerateSwagger] returns here. Nothing is said of a sample whose type
    contains itself or has a [Time] method that panics. *)
Theorem GenerateSwagger_succeeds (r : APIRouter) (n : nat) :
  r_title r <> EmptyString ->
  r_version r <> EmptyString ->
  r_definitions r <> [] ->
  Forall documentable (r_definitions r) ->
  (exists doc data n',
      GenerateSwagger r n = (Ok doc, cache_doc r data, n') /\
      json_MarshalIndent doc = Some data) /\
  Forall (fun d =>
            forall v, v = def_Request d \/ v = def_Response d ->
              exists fuel0, forall fuel m, (fuel0 <= fuel)%nat ->
                SafeSchemaFromStruct_full fuel (full_value v) m =
                returned (SafeSchemaFromStruct v m))
         (r_definitions r).
Proof.
  intros Htitle Hversion Hdefs Hall. split.
  - rewrite GenerateSwagger_unfold.
    apply String.eqb_neq in Htitle, Hversion. rewrite Htitle, Hversion.
    destruct (build_paths_total _ Hall ∅ n) as (paths & n' & Hrun & Hpaths).
    { intros path item Hp. rewrite lookup_empty in Hp. discriminate. }
    rewrite Hrun.
    assert (Hne : paths <> ∅).
    { destruct (r_definitions r) as [| d defs]; [contradiction |].
      destruct (build_paths_dom _ _ _ _ _ Hrun) as [Hdom _].
      intros ->. destruct (Hdom d) as [item Hitem]; [left |].
      rewrite lookup_empty in Hitem. discriminate. }
    unfold map_empty. rewrite bool_decide_eq_false_2 by exact Hne.
    unfold json_MarshalIndent.
    destruct (json_of_Doc_Some r paths Hpaths) as [j Hj]. rewrite Hj.
    cbn [fmap option_fmap option_map].
    eexists _, _, _. split; [reflexivity |]. rewrite Hj. reflexivity.
  - apply Forall_forall. intros d _ v _.
    destruct (full_agreement_sample v) as [fuel0 Hv].
    exists fuel0. intros fuel m Hfuel. exact (proj2 (Hv fuel m Hfuel)).
Qed.

End Model.

(** * The properties at concrete inputs

    The standard-library functions left open above are instantiated here by
    stand-ins that agree with Go on the inputs used: ASCII case mapping for
    [strings.ToUpper] and [strings.ToLower], a pattern matcher that never
    compiles and a URI parser that never fails (no rule below uses them). *)

Local Open Scope nat_scope.

Lemma Validate_min_float_threshold_witness :
  (p_Required age_param = true /\
   p_Validations age_param =
     [mkRule "min" (RFloat64 (float64_of_Z 18)) "Age must be at least 18"]) /\
  Validate (fun _ _ => None) (fun _ => true) age_param (ArgString "20") = None /\
  Validate (fun _ _ => None) (fun _ => true) age_param (ArgString "15") =
    Some (ErrorfMsg "Age must be at least 18") /\
  Validate (fun _ _ => None) (fun _ => true) age_param (ArgString "abc") = None.
Proof.
  split; [split; reflexivity |].
  apply (Validate_min_float_threshold (fun _ _ => None) (fun _ => true) age_param
           "Age must be at least 18"); reflexivity.
Defined.

Lemma Validate_required_rule_inert_witness :
  vr_Type (mkRule "required" ROther "required") = "required" /\
  Validate (fun _ _ => None) (fun _ => true)
    (set_Validations age_param
       (p_Validations age_param ++ mkRule "required" ROther "required" :: []))
    (ArgString "15") =
  Validate (fun _ _ => None) (fun _ => true)
    (set_Validations age_param (p_Validations age_param ++ [])) (ArgString "15").
Proof.
  split; [reflexivity |].
  apply (Validate_required_rule_inert (fun _ _ => None) (fun _ => true) age_param
           (p_Validations age_param) [] (mkRule "required" ROther "required")
           (ArgString "15")).
  reflexivity.
Defined.


(** C5, as the claim states it, fails: a definition with both handlers set
    does not have exactly one of them, and [Register] accepts it. *)
Lemma Register_accepts_both_handlers :
  def_Handler both_handlers_def <> None /\
  def_NativeHandler both_handlers_def <> None /\
  Register asciiToUpper test_router (Some both_handlers_def) =
    (None, add_route test_router "GET" both_handlers_def) /\
  r_definitions (add_route test_router "GET" both_handlers_def) <>
    r_definitions test_router.
Proof.
  split; [discriminate |]. split; [discriminate |].
  split; [reflexivity | discriminate].
Qed.

(** C2, as the claim states it, fails: with a [time.Time] field in a
    response type, two calls on the same router, one second apart, cache
    different bytes. *)
Lemma GenerateSwagger_time_dependent :
  is_Some (r_swaggerDoc
             (GenerateSwagger asciiToLower ticking_clock
                (add_route test_router "GET" dated_def) 0).1.2) /\
  r_swaggerDoc
    (GenerateSwagger asciiToLower ticking_clock
       (GenerateSwagger asciiToLower ticking_clock
          (add_route test_router "GET" dated_def) 0).1.2
       (GenerateSwagger asciiToLower ticking_clock
          (add_route test_router "GET" dated_def) 0).2).1.2 <>
  r_swaggerDoc
    (GenerateSwagger asciiToLower ticking_clock
       (add_route test_router "GET" dated_def) 0).1.2.
Proof.
  split.
  - vm_compute. eexists. reflexivity.
  - vm_compute. intros H. discriminate H.
Qed.

Lemma GenerateSwagger_repeatable_witness :
  Forall clock_free_definition (r_definitions (add_route test_router "GET" plain_def)) /\
  r_swaggerDoc
    (GenerateSwagger asciiToLower ticking_clock
       (GenerateSwagger asciiToLower ticking_clock
          (add_route test_router "GET" plain_def) 0).1.2 1).1.2 =
  r_swaggerDoc
    (GenerateSwagger asciiToLower ticking_clock
       (add_route test_router "GET" plain_def) 0).1.2.
Proof.
  assert (Hfree : Forall clock_free_definition
                    (r_definitions (add_route test_router "GET" plain_def))).
  { repeat constructor. }
  split; [exact Hfree |].
  exact (proj1 (proj2 (GenerateSwagger_repeatable asciiToLower ticking_clock
                         (add_route test_router "GET" plain_def) 0 1 Hfree))).
Defined.


(** C8 at the [User] struct of the api tests. *)
Ltac settle :=
  repeat first
    [ apply settles_nil
    | apply settles_skipped; [reflexivity |]
    | apply settles_visible
    | apply settles_no_part; reflexivity
    | eapply settles_time; reflexivity
    | eapply settles_method; reflexivity
    | eapply settles_bytes; reflexivity
    | eapply settles_slice; [reflexivity |]
    | eapply settles_array; [reflexivity |]
    | eapply settles_ptr; [reflexivity |]
    | eapply settles_map; [reflexivity |]
    | eapply settles_struct; [reflexivity |] ].




(** C1 at the secured operation of the README: the definition declares a
    security requirement and is registered; the operation of the generated
    document has the responses 400 and 500 and neither 401 nor 403. *)
Theorem secured_operation_without_401_403 :
  Register asciiToUpper test_router (Some secured_def) =
    (None, add_route test_router "POST" secured_def) /\
  def_Security secured_def = [ {[ "bearerAuth" := Some ["admin"] ]} ] /\
  exists (doc : OpenAPIDoc) (op : Operation),
    (GenerateSwagger asciiToLower ticking_clock
       (add_route test_router "POST" secured_def) 0).1.1 = Ok doc /\
    doc_Paths doc !! "/admin/users" ≫= pi_Post = Some op /\
    op_Responses op !! "401" = None /\
    op_Responses op !! "403" = None /\
    is_Some (op_Responses op !! "400") /\
    is_Some (op_Responses op !! "500").
Proof.
  split; [reflexivity |]. split; [reflexivity |].
  eexists _, _. split; [vm_compute; reflexivity |].
  split; [vm_compute; reflexivity |].
  split; [vm_compute; reflexivity |]. split; [vm_compute; reflexivity |].
  split; vm_compute; eexists; reflexivity.
Qed.

(** C4 at the operation of the README that sets an operation identifier:
    the generated document carries a synthesized identifier instead. *)
Theorem explicit_operationID_replaced :
  Register asciiToUpper test_router (Some update_def) =
    (None, add_route test_router "PUT" update_def) /\
  def_OperationID update_def = "updateUser" /\
  exists (doc : OpenAPIDoc) (op : Operation),
    (GenerateSwagger asciiToLower ticking_clock
       (add_route test_router "PUT" update_def) 0).1.1 = Ok doc /\
    doc_Paths doc !! "/users/:id" ≫= pi_Put = Some op /\
    op_OperationID op = "users_users_id".
Proof.
  split; [reflexivity |]. split; [reflexivity |].
  eexists _, _. split; [vm_compute; reflexivity |].
  split; vm_compute; reflexivity.
Qed.

(** C6 at GET /users: spelled in lower case the method is accepted and
    routed like the upper-case one, but the generated document has an empty
    path item where the upper-case spelling has the operation. *)
Theorem lower_case_method_dropped :
  Register asciiToUpper test_router (Some lower_def) =
    (None, add_route test_router "GET" lower_def) /\
  Register asciiToUpper test_router (Some upper_def) =
    (None, add_route test_router "GET" upper_def) /\
  r_engine (add_route test_router "GET" lower_def) = [("GET", "/api/users")] /\
  r_engine (add_route test_router "GET" upper_def) = [("GET", "/api/users")] /\
  exists doc_lower doc_upper : OpenAPIDoc,
    (GenerateSwagger asciiToLower ticking_clock
       (add_route test_router "GET" lower_def) 0).1.1 = Ok doc_lower /\
    (GenerateSwagger asciiToLower ticking_clock
       (add_route test_router "GET" upper_def) 0).1.1 = Ok doc_upper /\
    doc_Paths doc_lower !! "/users" = Some empty_PathItem /\
    is_Some (doc_Paths doc_upper !! "/users" ≫= pi_Get).
Proof.
  split; [reflexivity |]. split; [reflexivity |].
  split; [reflexivity |]. split; [reflexivity |].
  eexists _, _. split; [vm_compute; reflexivity |].
  split; [vm_compute; reflexivity |].
  split; [vm_compute; reflexivity |].
  vm_compute. eexists. reflexivity.
Qed.

(** * The further properties at concrete inputs *)


Lemma guard_abort_witness :
  guard (fun _ _ => None) (fun _ => true) (fun _ => true) "POST" create_def text_request =
    Aborted 415 "Content-Type must be application/json" None /\
  body_checked "POST" create_def = true /\
  Forall (param_in_order (fun _ _ => None) (fun _ => true) text_request)
    (def_Params create_def).
Proof.
  assert (Hrun : guard (fun _ _ => None) (fun _ => true) (fun _ => true) "POST"
                   create_def text_request =
                 Aborted 415 "Content-Type must be application/json" None)
    by reflexivity.
  split; [exact Hrun |].
  destruct (guard_abort (fun _ _ => None) (fun _ => true) (fun _ => true) "POST"
              create_def text_request 415%Z _ None Hrun) as (_ & H415 & _).
  destruct (H415 eq_refl) as (Hbody & Hparams & _). split; assumption.
Defined.

Lemma guard_path_first_witness :
  (id_param ∈ def_Params item_def /\ p_In id_param = "path" /\
   ~ value_in_order (fun _ _ => None) (fun _ => true) id_param
       (req_Param bare_request (p_Name id_param))) /\
  exists culprit,
    culprit ∈ def_Params item_def /\ p_In culprit = "path" /\
    (guard (fun _ _ => None) (fun _ => true) (fun _ => true) "GET" item_def bare_request =
       Aborted 400 ("missing required path parameter: " +:+ p_Name culprit) None \/
     exists e,
       guard (fun _ _ => None) (fun _ => true) (fun _ => true) "GET" item_def bare_request =
         Aborted 400 ("invalid path parameter " +:+ p_Name culprit +:+ ": ") (Some e)).
Proof.
  assert (Hin : id_param ∈ def_Params item_def) by (right; left).
  assert (Hbad : ~ value_in_order (fun _ _ => None) (fun _ => true) id_param
                     (req_Param bare_request (p_Name id_param))).
  { intros [H _]. exact (H eq_refl eq_refl). }
  split; [split; [exact Hin | split; [reflexivity | exact Hbad]] |].
  exact (guard_path_first (fun _ _ => None) (fun _ => true) (fun _ => true) "GET"
           item_def bare_request id_param Hin eq_refl Hbad).
Defined.

Lemma Register_unusable_native_handler_witness :
  (def_NativeHandler native_only_def = Some 2 /\
   def_Handler native_only_def = None /\
   def_Path native_only_def <> EmptyString /\
   asciiToUpper (def_Method native_only_def) ∈ supported_methods) /\
  Register asciiToUpper test_router (Some native_only_def) =
    (None, add_route test_router "GET" native_only_def) /\
  installed_handler (fun _ _ => None) (fun _ => true) asciiToUpper (fun _ => false)
    native_only_def bare_request = NothingCalled.
Proof.
  assert (Hpath : def_Path native_only_def <> EmptyString) by discriminate.
  assert (Hmethod : asciiToUpper (def_Method native_only_def) ∈ supported_methods)
    by (vm_compute; left).
  split; [repeat split; assumption |].
  destruct (Register_unusable_native_handler (fun _ _ => None) (fun _ => true)
              asciiToUpper (fun _ => false) test_router native_only_def 2 bare_request
              eq_refl eq_refl eq_refl Hpath Hmethod) as (Hreg & _ & Hcall).
  split; [exact Hreg |]. apply Hcall.
  - constructor.
  - intros H. discriminate H.
Defined.

Lemma RegisterGroup_registers_all_witness :
  Forall (fun d => violation asciiToUpper d = None) [upper_def; update_def] /\
  exists r',
    RegisterGroup asciiToUpper test_router "users" [upper_def; update_def] = (None, r') /\
    r_definitions r' = [WithTags upper_def ["users"]; update_def] /\
    r_engine r' = [("GET", "/api/users"); ("PUT", "/api/users/:id")].
Proof.
  assert (Hok : Forall (fun d => violation asciiToUpper d = None) [upper_def; update_def])
    by (repeat constructor).
  split; [exact Hok |].
  destruct (RegisterGroup_registers_all asciiToUpper test_router "users"
              [upper_def; update_def]) as (r' & Hrun & Hdefs & Hengine & _);
    [discriminate | discriminate | exact Hok |].
  exists r'. split; [exact Hrun |]. split; [exact Hdefs | exact Hengine].
Defined.

Lemma RegisterGroup_keeps_earlier_witness :
  (Forall (fun d => violation asciiToUpper d = None) [upper_def] /\
   violation asciiToUpper handlerless_def = Some NoHandler) /\
  exists r',
    RegisterGroup asciiToUpper test_router "users"
      [upper_def; handlerless_def; update_def] =
      (Some (Wrap "failed to register API 1"
               (Errorf "handler cannot be nil for path: /test")), r') /\
    r_definitions r' = [WithTags upper_def ["users"]].
Proof.
  assert (Hpre : Forall (fun d => violation asciiToUpper d = None) [upper_def])
    by (repeat constructor).
  split; [split; [exact Hpre | reflexivity] |].
  destruct (RegisterGroup_keeps_earlier asciiToUpper test_router "users"
              [upper_def] handlerless_def [update_def] NoHandler)
    as (r' & Hrun & Hdefs & _); [discriminate | exact Hpre | reflexivity |].
  exists r'. split; [exact Hrun | exact Hdefs].
Defined.

Lemma GenerateSwagger_operations_witness :
  exists doc r' n' item op,
    GenerateSwagger asciiToLower ticking_clock users_router 0 = (Ok doc, r', n') /\
    doc_Paths doc !! "/users" = Some item /\
    get_method "POST" item = Some op /\
    op_Responses op !! "401" = None /\
    op_Security op = [] /\
    op_OperationID op = "users_users".
Proof.
  eexists _, _, _, _, _.
  split; [vm_compute; reflexivity |].
  split; [vm_compute; reflexivity |].
  split; [vm_compute; reflexivity |].
  match goal with
  | |- op_Responses ?op !! _ = _ /\ _ =>
      destruct (GenerateSwagger_operations asciiToLower ticking_clock users_router
                  _ 0 _ _ "/users" "POST" _ op eq_refl eq_refl eq_refl)
        as (d & _ & _ & _ & _ & _ & H401 & _ & _ & Hsec & Hid)
  end.
  split; [exact H401 |]. split; [exact Hsec |]. rewrite Hid. reflexivity.
Defined.

Lemma GenerateSwagger_last_registration_witness :
  (r_definitions twice_router = ([upper_def] ++ list_users_def :: [])%list /\
   def_Method list_users_def ∈ supported_methods) /\
  exists doc r' n',
    GenerateSwagger asciiToLower ticking_clock twice_router 0 = (Ok doc, r', n') /\
    exists item op,
      doc_Paths doc !! "/users" = Some item /\
      get_method "GET" item = Some op /\
      op_Summary op = "List users".
Proof.
  assert (Hmethod : def_Method list_users_def ∈ supported_methods) by left.
  split; [split; [reflexivity | exact Hmethod] |].
  eexists _, _, _. split; [vm_compute; reflexivity |].
  destruct (GenerateSwagger_last_registration asciiToLower ticking_clock twice_router
              _ 0 _ _ [upper_def] list_users_def [] eq_refl Hmethod
              (List.Forall_nil _) eq_refl)
    as (item & op & Hitem & Hget & Hsummary & _).
  exists item, op. split; [exact Hitem |]. split; [exact Hget | exact Hsummary].
Defined.

Lemma GenerateSwagger_document_witness :
  exists doc r' n',
    GenerateSwagger asciiToLower ticking_clock users_router 0 = (Ok doc, r', n') /\
    doc_Info doc = mkInfo "Test API" "1.0.0" "Test" /\
    doc_Servers doc = [mkServer "/api" "API Server"] /\
    r_generated r' = true /\
    r_swaggerDoc r' = json_MarshalIndent doc.
Proof.
  eexists _, _, _. split; [vm_compute; reflexivity |].
  destruct (GenerateSwagger_document asciiToLower ticking_clock users_router
              _ 0 _ _ eq_refl)
    as (_ & Hinfo & Hservers & _ & _ & _ & _ & _ & Hgen & Hdoc & _).
  split; [exact Hinfo |]. split; [exact Hservers |]. split; [exact Hgen | exact Hdoc].
Defined.

Lemma GenerateSwagger_ignores_witness :
  Forall2 same_documentation
    (r_definitions (add_route test_router "GET" legacy_def)) [legacy_bare_def] /\
  (GenerateSwagger asciiToLower ticking_clock
     (with_definitions (add_route test_router "GET" legacy_def) [legacy_bare_def]) 0).1.1 =
  (GenerateSwagger asciiToLower ticking_clock
     (add_route test_router "GET" legacy_def) 0).1.1.
Proof.
  assert (Hsame : Forall2 same_documentation
                    (r_definitions (add_route test_router "GET" legacy_def))
                    [legacy_bare_def]).
  { constructor; [repeat split | constructor]. }
  split; [exact Hsame |].
  exact (proj1 (GenerateSwagger_ignores asciiToLower ticking_clock
                  (add_route test_router "GET" legacy_def) [legacy_bare_def] 0 Hsame)).
Defined.

Lemma GenerateSwagger_operationID_shared_witness :
  exists doc r' n' item op1 op2,
    GenerateSwagger asciiToLower ticking_clock users_router 0 = (Ok doc, r', n') /\
    doc_Paths doc !! "/users" = Some item /\
    get_method "GET" item = Some op1 /\
    get_method "POST" item = Some op2 /\
    clean_path "/users" = clean_path "/users" /\
    first_tag op1 = first_tag op2 /\
    op_OperationID op1 = op_OperationID op2.
Proof.
  eexists _, _, _, _, _, _.
  split; [vm_compute; reflexivity |].
  split; [vm_compute; reflexivity |].
  split; [vm_compute; reflexivity |].
  split; [vm_compute; reflexivity |].
  split; [reflexivity |].
  split; [reflexivity |].
  match goal with
  | |- op_OperationID ?op1 = op_OperationID ?op2 =>
      exact (GenerateSwagger_operationID_shared asciiToLower ticking_clock users_router
               _ 0 _ _ "/users" "/users" "GET" "POST" _ _ op1 op2
               eq_refl eq_refl eq_refl eq_refl eq_refl eq_refl eq_refl)
  end.
Defined.

Lemma generateOperationID_placeholder_witness :
  generateOperationID asciiToLower "/users/{id}/posts" (new_operation list_users_def) =
  generateOperationID asciiToLower "/users//posts" (new_operation list_users_def).
Proof.
  assert (Hx : "id" <> EmptyString) by discriminate.
  exact (generateOperationID_placeholder asciiToLower "/users/" "id" "/posts"
           (new_operation list_users_def) eq_refl Hx eq_refl).
Defined.

Lemma Validate_rules_witness :
  "15" <> EmptyString /\
  Validate (fun _ _ => None) (fun _ => true) age_param (ArgString "15") =
    Some (ErrorfMsg "Age must be at least 18").
Proof.
  assert (Hne : "15" <> EmptyString) by discriminate.
  split; [exact Hne |].
  apply (proj2 (Validate_rules (fun _ _ => None) (fun _ => true) age_param "15" Hne)
           [] (mkRule "min" (RFloat64 (float64_of_Z 18)) "Age must be at least 18") []).
  - reflexivity.
  - constructor.
  - vm_compute. discriminate.
Defined.

Lemma Validate_whole_numbers_witness :
  (all_bytes is_digit "9" = true /\ (decimal_value "9" < 2 ^ 53)%Z /\
   (Z.abs 10 <= 2 ^ 53)%Z) /\
  Validate (fun _ _ => None) (fun _ => true)
    (number_param true (mkRule "min" (RFloat64 (float64_of_Z 10)) "at least 10"))
    (ArgString "9") = Some (ErrorfMsg "at least 10").
Proof.
  assert (Hne : "9" <> EmptyString) by discriminate.
  assert (Hlt : (decimal_value "9" < 2 ^ 53)%Z) by (vm_compute; reflexivity).
  assert (Hk : (Z.abs 10 <= 2 ^ 53)%Z) by (vm_compute; discriminate).
  split; [split; [reflexivity | split; [exact Hlt | exact Hk]] |].
  exact (proj1 (Validate_whole_numbers (fun _ _ => None) (fun _ => true) true "9"
                  "at least 10" 10 eq_refl Hne Hlt Hk)).
Defined.

Lemma GenerateSwagger_succeeds_witness :
  Forall documentable (r_definitions documented_router) /\
  (exists doc data n',
      GenerateSwagger asciiToLower ticking_clock documented_router 0 =
        (Ok doc, cache_doc documented_router data, n') /\
      json_MarshalIndent doc = Some data) /\
  Forall (fun d =>
            forall v, v = def_Request d \/ v = def_Response d ->
              exists fuel0, forall fuel m, fuel0 <= fuel ->
                SafeSchemaFromStruct_full ticking_clock (fun _ => None) fuel
                  (full_value v) m =
                returned (SafeSchemaFromStruct ticking_clock v m))
         (r_definitions documented_router).
Proof.
  assert (Hall : Forall documentable (r_definitions documented_router)).
  { constructor; [| constructor; [| constructor]].
    - split; [left; reflexivity |]. split; [left; reflexivity |].
      constructor; [vm_compute; eauto | constructor].
    - split; [right; eexists; reflexivity |]. split; [left; reflexivity |].
      constructor. }
  split; [exact Hall |].
  apply (GenerateSwagger_succeeds asciiToLower ticking_clock (fun _ => None)
           documented_router 0);
    [discriminate | discriminate | discriminate | exact Hall].
Defined.

Lemma synthesized_schema_well_formed_witness :
  settles (fun _ => None) User_full /\
  exists (fuel0 : nat) (s : SchemaMap) (n' : nat),
    (forall fuel, fuel0 <= fuel ->
       createSchemaFromGoType_full ticking_clock (fun _ => None) fuel User_full 0 =
         (Returned (Ok (Some s)), n')) /\
    well_formed s.
Proof.
  assert (Hsettles : settles (fun _ => None) User_full).
  { eapply settles_struct; [reflexivity |]. cbn. settle. }
  split; [exact Hsettles |].
  exact (proj2 (proj2 (proj2 (synthesized_schema_well_formed ticking_clock (fun _ => None) 0)))
           User_full Hsettles).
Defined.

(** A field of type [time.Duration] is an integer whose type prints by its
    name, and a struct whose [Time] method panics turns
    [SafeSchemaFromStruct] into an error; without the deferred recover the
    panic leaves [SchemaFromStruct]. *)
Lemma SafeSchemaFromStruct_recovers :
  SafeSchemaFromStruct_full ticking_clock (fun _ => None) 3 (RValue Job) 0 =
    (Returned (Err (Errorf "panic in schema generation: runtime error: invalid memory address or nil pointer dereference")), 0) /\
  SchemaFromStruct_full ticking_clock (fun _ => None) 3 (RValue Job) 0 =
    (Panicked "runtime error: invalid memory address or nil pointer dereference", 0) /\
  SafeSchemaFromStruct_full ticking_clock (fun _ => None) 3 (RValue Duration) 0 =
    (Returned (Err (ErrInvalidType "time.Duration")), 0) /\
  SchemaFromStruct_full ticking_clock (fun _ => None) 3 (RValue Duration) 0 =
    (Returned (Err (Errorf "input must be a struct type, got time.Duration")), 0).
Proof. repeat split; reflexivity. Qed.
